(** * Zero-trust authorization core: a shallow embedding and its properties

  The development follows the TypeScript sources of the authorization
  pipeline: the risk engine and risk service, the Redis-backed session
  service, the risk-adaptive rate limiter, the policy clients, the
  entitlement service, the device-binding and policy-input hooks, the roles
  and their separation-of-duties rules, and the key-rotation service with
  its hash-chained audit log.

  Part I holds the embedding (one module per source file), Part II the
  invariants of the stores and the main properties of the pipeline, Part III
  further properties of the same services. *)

From Stdlib Require Import ZArith List String Ascii Lia DecimalString.
From Stdlib Require Floats.SpecFloat.
From stdpp Require Import base option gmap strings list.

Local Open Scope string_scope.
Local Open Scope Z_scope.

(* ===================================================================== *)
(** * Part I. The embedding                                               *)
(* ===================================================================== *)

(** ** JavaScript effects

  An [async] function is a computation over the state of the outside world
  that either resolves with a value or rejects with an exception; [await]
  is sequencing. *)

Module Js.

(** A thrown value: its constructor name and its message. *)
Record Exn := mkExn { exnName : string; exnMessage : string }.

Inductive Result (A : Type) :=
| Ok (a : A)
| Throw (e : Exn).
Arguments Ok {A} a.
Arguments Throw {A} e.

Definition M (W A : Type) : Type := W -> Result A * W.

#[global] Instance M_ret {W} : MRet (M W) :=
  fun A (a : A) w => (Ok a, w).

(** [await m] followed by the rest of the body. *)
#[global] Instance M_bind {W} : MBind (M W) :=
  fun A B (k : A -> M W B) (m : M W A) w =>
    match m w with
    | (Ok a, w') => k a w'
    | (Throw e, w') => (Throw e, w')
    end.

Definition throw {W A} (e : Exn) : M W A := fun w => (Throw e, w).

(** [new Error(msg)] *)
Definition Error (msg : string) : Exn := mkExn "Error" msg.

(** Reading the identifier [name] where [scope] lists the bindings in
    force: the bound value, or a ReferenceError when there is none. *)
Definition identifier {W A} (scope : list (string * A)) (name : string)
    : M W A :=
  match List.find (fun b => String.eqb (fst b) name) scope with
  | Some b => mret (snd b)
  | None => throw (mkExn "ReferenceError" (name ++ " is not defined"))
  end.

(** A small JSON value, for response bodies and audit metadata. *)
#[local] Set Warnings "-register-all".
Inductive Json :=
| JUndefined
| JNull
| JBool (b : bool)
| JNum (n : Z)
| JStr (s : string)
| JArr (items : list Json)
| JObj (fields : list (string * Json)).

(** JavaScript truthiness on these values ([!!v]). *)
Definition truthy (v : Json) : bool :=
  match v with
  | JUndefined | JNull => false
  | JBool b => b
  | JNum n => negb (n =? 0)
  | JStr s => negb (String.eqb s "")
  | JArr _ | JObj _ => true
  end.

(** Property read [v.key]: [undefined] when the key is absent. *)
Fixpoint lookupField (key : string) (fields : list (string * Json)) : Json :=
  match fields with
  | [] => JUndefined
  | (k, v) :: rest => if String.eqb k key then v else lookupField key rest
  end.

(** An HTTP reply written by a hook: status code and JSON body. *)
Record Response := mkResponse { status : Z; body : Json }.

End Js.

(** ** JavaScript numbers: IEEE 754 binary64 *)

Module Number.
Import SpecFloat.

Definition t : Type := spec_float.

(** The format: 53 bits of precision, exponents up to 1024. *)
Definition prec : Z := 53.
Definition emax : Z := 1024.

(** The double an integer literal, or an integer value, is: the nearest
    one. *)
Definition ofZ (z : Z) : t := binary_normalize prec emax z 0 false.

(** [x + y], [x * y] and [x / y]: correctly rounded, ties to even. *)
Definition add : t -> t -> t := SFadd prec emax.
Definition mul : t -> t -> t := SFmul prec emax.
Definition div : t -> t -> t := SFdiv prec emax.

(** [x >= y]: false when either is NaN. *)
Definition ge (x y : t) : bool := SFleb y x.

(** [Math.min(x, y)]: NaN when either is NaN, and -0 below +0. *)
Definition min (x y : t) : t :=
  match x, y with
  | S754_nan, _ | _, S754_nan => S754_nan
  | S754_zero sx, S754_zero sy => S754_zero (sx || sy)
  | _, _ => if SFltb y x then y else x
  end.

End Number.

(** ** risk.model.ts *)

Module RiskModel.

Inductive RiskLevel := LOW | MEDIUM | HIGH | CRITICAL.

Inductive SignalType :=
| IP_ANOMALY | GEO_ANOMALY | DEVICE_MISMATCH | IMPOSSIBLE_TRAVEL
| BEHAVIOR_ANOMALY | THREAT_INTEL | SESSION_REUSE.

(** The signals of integer severity, which is what the collectors produce
    (3, 7 and 6); [RiskEngine.Binary64] has the signals of any severity. *)
Record RiskSignal := mkSignal {
  type : SignalType;
  severity : Z;
  evidence : string
}.

Record SessionRiskProfile := mkProfile {
  sessionId : string;
  subjectId : string;
  riskScore : Z;
  riskLevel : RiskLevel;
  signals : list RiskSignal;
  evaluatedAt : Z
}.

(** The string a level is at run time (the union's literal). *)
Definition levelName (l : RiskLevel) : string :=
  match l with
  | LOW => "LOW" | MEDIUM => "MEDIUM" | HIGH => "HIGH" | CRITICAL => "CRITICAL"
  end.

#[global] Instance RiskLevel_eq_dec : EqDecision RiskLevel.
Proof. solve_decision. Defined.

End RiskModel.

(** ** risk.engine.ts *)

Module RiskEngine.
Import RiskModel.

(** [classify] and [evaluate] on integers: what the engine computes for
    signals of integer severity. The same two functions on the doubles that
    JavaScript numbers are, for severities of any kind, are in [Binary64]
    below. *)
Definition classify (score : Z) : RiskLevel :=
  if score >=? 80 then CRITICAL
  else if score >=? 60 then HIGH
  else if score >=? 30 then MEDIUM
  else LOW.

(** [evaluate]; [now] is the instant [new Date()] reads. *)
Definition evaluate (sessionId subjectId : string) (signals : list RiskSignal)
    (now : Z) : SessionRiskProfile :=
  let score := fold_left (fun sum s => sum + severity s * 5) signals 0 in
  let normalized := Z.min score 100 in
  {| sessionId := sessionId;
     subjectId := subjectId;
     riskScore := normalized;
     riskLevel := classify normalized;
     signals := signals;
     evaluatedAt := now |}.

(** The engine on the numbers it runs on. A [severity] is a [number], any
    double; so are the sum, the score and the constants 5, 100, 80, 60 and
    30. [classify] and [evaluate] above are these two functions on signals
    of integer severity, as long as the sums stay where doubles hold every
    integer (lemma [evaluate_exact]). *)
Module Binary64.

Record RiskSignal := mkSignal {
  type : SignalType;
  severity : Number.t;
  evidence : string
}.

Record SessionRiskProfile := mkProfile {
  sessionId : string;
  subjectId : string;
  riskScore : Number.t;
  riskLevel : RiskLevel;
  signals : list RiskSignal;
  evaluatedAt : Z
}.

Definition classify (score : Number.t) : RiskLevel :=
  if Number.ge score (Number.ofZ 80) then CRITICAL
  else if Number.ge score (Number.ofZ 60) then HIGH
  else if Number.ge score (Number.ofZ 30) then MEDIUM
  else LOW.

(** [evaluate]; [now] is the instant [new Date()] reads. *)
Definition evaluate (sessionId subjectId : string) (signals : list RiskSignal)
    (now : Z) : SessionRiskProfile :=
  let score :=
    fold_left (fun sum s => Number.add sum (Number.mul (severity s) (Number.ofZ 5)))
      signals (Number.ofZ 0) in
  let normalized := Number.min score (Number.ofZ 100) in
  {| sessionId := sessionId;
     subjectId := subjectId;
     riskScore := normalized;
     riskLevel := classify normalized;
     signals := signals;
     evaluatedAt := now |}.

(** A signal of integer severity, and a profile of integer score, as the
    values they are at run time. *)
Definition ofSignal (s : RiskModel.RiskSignal) : RiskSignal :=
  {| type := RiskModel.type s;
     severity := Number.ofZ (RiskModel.severity s);
     evidence := RiskModel.evidence s |}.

Definition ofProfile (p : RiskModel.SessionRiskProfile) : SessionRiskProfile :=
  {| sessionId := RiskModel.sessionId p;
     subjectId := RiskModel.subjectId p;
     riskScore := Number.ofZ (RiskModel.riskScore p);
     riskLevel := RiskModel.riskLevel p;
     signals := map ofSignal (RiskModel.signals p);
     evaluatedAt := RiskModel.evaluatedAt p |}.

End Binary64.

End RiskEngine.

(** ** session.service.ts: the [Session] interface

    Optional fields ([deviceId?], [revokedAt?]) are [option]s; a field that an
    object literal does not write is [None], which is what [JSON.stringify]
    followed by [JSON.parse] gives back for it. *)

Module Session.

Record t := mk {
  id : string;
  subjectId : string;
  deviceId : option string;
  tenantId : option string;
  createdAt : Z;
  expiresAt : Z;
  revokedAt : option Z;
  riskLevel : RiskModel.RiskLevel;
  mfaVerified : bool;
  lastEvaluatedAt : Z
}.

End Session.

(** ** entitlement.model.ts *)

Module Entitlement.

Inductive EntitlementSubjectType := USER | SERVICE | THIRD_PARTY.

Inductive EntitlementStatus := ACTIVE | REVOKED | EXPIRED | SUSPENDED.

#[global] Instance EntitlementStatus_eq_dec : EqDecision EntitlementStatus.
Proof. solve_decision. Defined.

(** Dates are their [getTime()] value in milliseconds. *)
Record t := mk {
  id : string;
  subjectType : EntitlementSubjectType;
  subjectId : string;
  resourceType : string;
  resourceId : string;
  scopes : list string;
  status : EntitlementStatus;
  validFrom : Z;
  validUntil : option Z;
  grantedBy : string;
  grantReason : string;
  createdAt : Z;
  updatedAt : Z;
  revokedAt : option Z
}.

(** [isEntitlementActive]; [now] is what [Date.now()] returns. A [Date]
    object is always truthy, so [validUntil && ...] tests presence only. *)
Definition isEntitlementActive (now : Z) (entitlement : t) : bool :=
  if negb (bool_decide (status entitlement = ACTIVE)) then false
  else if validFrom entitlement >? now then false
  else if (match validUntil entitlement with
           | Some u => u <? now
           | None => false
           end) then false
  else true.

(** The argument of [createEntitlement]. *)
Record Params := mkParams {
  p_subjectType : EntitlementSubjectType;
  p_subjectId : string;
  p_resourceType : string;
  p_resourceId : string;
  p_scopes : list string;
  p_grantedBy : string;
  p_grantReason : string;
  p_validUntil : option Z
}.

(** [createEntitlement(params)]; [uuid] is the value [randomUUID()] draws
    and [now] the instant [new Date()] reads. *)
Definition createEntitlement (uuid : string) (now : Z) (params : Params) : t :=
  {| id := uuid;
     subjectType := p_subjectType params;
     subjectId := p_subjectId params;
     resourceType := p_resourceType params;
     resourceId := p_resourceId params;
     scopes := p_scopes params;
     status := ACTIVE;
     validFrom := now;
     validUntil := p_validUntil params;
     grantedBy := p_grantedBy params;
     grantReason := p_grantReason params;
     createdAt := now;
     updatedAt := now;
     revokedAt := None |}.

Definition subjectTypeName (t : EntitlementSubjectType) : string :=
  match t with
  | USER => "USER" | SERVICE => "SERVICE" | THIRD_PARTY => "THIRD_PARTY"
  end.

End Entitlement.

(** ** The outside world the services act on

    One Redis keyspace, the wall clock, the audit sink and the entitlement
    table behind Prisma. *)

Module AuditEntry.

(** The argument of one [audit.log] call. *)
Record t := mk {
  action : string;
  actorId : string;
  targetId : option string;
  metadata : list (string * Js.Json)
}.

End AuditEntry.

Module World.

(** What a Redis key holds: a string that is the JSON of a session, a string
    that is a decimal integer, or a set of strings. *)
Inductive Value :=
| VJson (s : Session.t)
| VInt (n : Z)
| VSet (members : gset string).

(** A key with its absolute expiry instant in milliseconds, if it has one. *)
Record Entry := mkEntry { value : Value; expireAt : option Z }.

Record t := mk {
  redis : gmap string Entry;
  clock : Z;
  auditTrail : list AuditEntry.t;
  entitlementTable : list Entitlement.t
}.

Definition empty : t :=
  {| redis := ∅; clock := 0; auditTrail := []; entitlementTable := [] |}.

Definition setRedis (r : gmap string Entry) (w : t) : t :=
  {| redis := r; clock := clock w; auditTrail := auditTrail w;
     entitlementTable := entitlementTable w |}.

Definition alive (now : Z) (e : Entry) : bool :=
  match expireAt e with
  | Some deadline => now <? deadline
  | None => true
  end.

(** Time passes: the clock moves on by [ms] milliseconds and Redis drops the
    keys whose expiry has been reached. *)
Definition advance (ms : N) (w : t) : t :=
  let now := clock w + Z.of_N ms in
  {| redis := filter (fun kv => alive now kv.2 = true) (redis w);
     clock := now;
     auditTrail := auditTrail w;
     entitlementTable := entitlementTable w |}.

(** [Date.now()] *)
Definition dateNow : Js.M t Z := fun w => (Js.Ok (clock w), w).

End World.

(** ** audit.service

    Modelled from the spec: [audit.log] is imported by the services but its
    module is not among the sources; the spec has the audit sink accept
    append-only records and never throw back into the caller. *)

Module audit.

Definition log (entry : AuditEntry.t) : Js.M World.t unit :=
  fun w =>
    (Js.Ok tt,
     {| World.redis := World.redis w;
        World.clock := World.clock w;
        World.auditTrail := (World.auditTrail w ++ [entry])%list;
        World.entitlementTable := World.entitlementTable w |}).

End audit.

(** ** The Redis commands the services issue (ioredis) *)

Module Redis.
Import World.

Definition WRONGTYPE : Js.Exn :=
  Js.mkExn "ReplyError"
    "WRONGTYPE Operation against a key holding the wrong kind of value".

Definition NOT_AN_INTEGER : Js.Exn :=
  Js.mkExn "ReplyError" "ERR value is not an integer or out of range".

Definition lookup (key : string) : Js.M World.t (option Entry) :=
  fun w => (Js.Ok (redis w !! key), w).

Definition store (key : string) (e : Entry) : Js.M World.t unit :=
  fun w => (Js.Ok tt, setRedis (<[key := e]> (redis w)) w).

Definition remove (key : string) : Js.M World.t unit :=
  fun w => (Js.Ok tt, setRedis (delete key (redis w)) w).

(** GET: the string at [key], [None] for a missing key. *)
Definition get (key : string) : Js.M World.t (option Value) :=
  e ← lookup key;
  match e with
  | None => mret None
  | Some {| value := VSet _ |} => Js.throw WRONGTYPE
  | Some {| value := v |} => mret (Some v)
  end.

(** SET key value EX seconds *)
Definition setEX (key : string) (v : Value) (seconds : Z) : Js.M World.t unit :=
  now ← dateNow;
  store key {| value := v; expireAt := Some (now + seconds * 1000) |}.

(** SET key value KEEPTTL *)
Definition setKEEPTTL (key : string) (v : Value) : Js.M World.t unit :=
  e ← lookup key;
  store key {| value := v; expireAt := e ≫= expireAt |}.

(** DEL key [key ...]: the number of keys that were removed. *)
Fixpoint del (keys : list string) : Js.M World.t Z :=
  match keys with
  | [] => mret 0
  | key :: rest =>
      e ← lookup key;
      remove key;;
      n ← del rest;
      mret (match e with Some _ => 1 + n | None => n end)
  end.

(** SADD key member *)
Definition sadd (key : string) (member : string) : Js.M World.t Z :=
  e ← lookup key;
  match e with
  | None =>
      store key {| value := VSet {[ member ]}; expireAt := None |};;
      mret 1
  | Some {| value := VSet members; expireAt := ttl |} =>
      store key {| value := VSet ({[ member ]} ∪ members); expireAt := ttl |};;
      mret (if bool_decide (member ∈ members) then 0 else 1)
  | Some _ => Js.throw WRONGTYPE
  end.

(** SREM key member: a set that becomes empty is removed with its key. *)
Definition srem (key : string) (member : string) : Js.M World.t Z :=
  e ← lookup key;
  match e with
  | None => mret 0
  | Some {| value := VSet members; expireAt := ttl |} =>
      let members' := members ∖ {[ member ]} in
      (if bool_decide (members' = ∅) then remove key
       else store key {| value := VSet members'; expireAt := ttl |});;
      mret (if bool_decide (member ∈ members) then 1 else 0)
  | Some _ => Js.throw WRONGTYPE
  end.

(** SMEMBERS key *)
Definition smembers (key : string) : Js.M World.t (list string) :=
  e ← lookup key;
  match e with
  | None => mret []
  | Some {| value := VSet members |} => mret (elements members)
  | Some _ => Js.throw WRONGTYPE
  end.

(** EXPIRE key seconds *)
Definition expire (key : string) (seconds : Z) : Js.M World.t Z :=
  e ← lookup key;
  match e with
  | None => mret 0
  | Some {| value := v |} =>
      now ← dateNow;
      store key {| value := v; expireAt := Some (now + seconds * 1000) |};;
      mret 1
  end.

(** INCR key: a missing key counts from zero; the expiry is kept. *)
Definition incr (key : string) : Js.M World.t Z :=
  e ← lookup key;
  match e with
  | None =>
      store key {| value := VInt 1; expireAt := None |};;
      mret 1
  | Some {| value := VInt n; expireAt := ttl |} =>
      store key {| value := VInt (n + 1); expireAt := ttl |};;
      mret (n + 1)
  | Some {| value := VJson _ |} => Js.throw NOT_AN_INTEGER
  | Some {| value := VSet _ |} => Js.throw WRONGTYPE
  end.

End Redis.

(** ** session.service.ts *)

Module SessionService.
Import World.

Definition SESSION_TTL_SECONDS : Z := 60 * 60 * 8.

Definition sessionKey (id : string) : string := "session:" +:+ id.

Definition indexKey (subjectId : string) : string :=
  "subject:sessions:" +:+ subjectId.

(** [JSON.parse(raw) as Session]. The services only ever read keys they wrote
    a session's JSON to; for a string that is not one the cast yields no
    session, which is reported here as a thrown [TypeError]. *)
Definition parseSession (raw : Value) : Js.M World.t Session.t :=
  match raw with
  | VJson s => mret s
  | _ => Js.throw (Js.mkExn "TypeError" "not a session")
  end.

(** [create]; [uuid] is the value [randomUUID()] draws. *)
Definition create (uuid : string) (subjectId : string)
    (deviceId : option string) (mfaVerified : bool) : Js.M World.t Session.t :=
  now ← dateNow;
  let session :=
    {| Session.id := uuid;
       Session.subjectId := subjectId;
       Session.deviceId := deviceId;
       Session.tenantId := None;
       Session.createdAt := now;
       Session.expiresAt := now + SESSION_TTL_SECONDS * 1000;
       Session.revokedAt := None;
       Session.riskLevel := RiskModel.LOW;
       Session.mfaVerified := mfaVerified;
       Session.lastEvaluatedAt := now |} in
  Redis.setEX (sessionKey (Session.id session)) (VJson session)
    SESSION_TTL_SECONDS;;
  Redis.sadd (indexKey (Session.subjectId session)) (Session.id session);;
  Redis.expire (indexKey (Session.subjectId session))
    (SESSION_TTL_SECONDS + 60);;
  mret session.

Definition updateRisk (sessionId : string) (riskLevel : RiskModel.RiskLevel)
    (lastEvaluatedAt : Z) : Js.M World.t unit :=
  raw ← Redis.get (sessionKey sessionId);
  match raw with
  | None => mret tt
  | Some raw =>
      session ← parseSession raw;
      let session :=
        {| Session.id := Session.id session;
           Session.subjectId := Session.subjectId session;
           Session.deviceId := Session.deviceId session;
           Session.tenantId := Session.tenantId session;
           Session.createdAt := Session.createdAt session;
           Session.expiresAt := Session.expiresAt session;
           Session.revokedAt := Session.revokedAt session;
           Session.riskLevel := riskLevel;
           Session.mfaVerified := Session.mfaVerified session;
           Session.lastEvaluatedAt := lastEvaluatedAt |} in
      Redis.setKEEPTTL (sessionKey (Session.id session)) (VJson session)
  end.

Definition get (sessionId : string) : Js.M World.t (option Session.t) :=
  raw ← Redis.get (sessionKey sessionId);
  match raw with
  | Some raw => session ← parseSession raw; mret (Some session)
  | None => mret None
  end.

Definition revoke (sessionId : string) : Js.M World.t unit :=
  raw ← Redis.get (sessionKey sessionId);
  match raw with
  | None => mret tt
  | Some raw =>
      session ← parseSession raw;
      Redis.del [sessionKey sessionId];;
      Redis.srem (indexKey (Session.subjectId session)) sessionId;;
      audit.log
        {| AuditEntry.action := "SESSION_REVOKED";
           AuditEntry.actorId := Session.subjectId session;
           AuditEntry.targetId := None;
           AuditEntry.metadata := [("sessionId", Js.JStr sessionId)] |}
  end.

(** [revokeAllForSubject] has no [return] with a value on either path: the
    promise resolves with [undefined]. *)
Definition revokeAllForSubject (subjectId : string) : Js.M World.t Js.Json :=
  let indexKey := indexKey subjectId in
  sessionIds ← Redis.smembers indexKey;
  if (Z.of_nat (length sessionIds) =? 0) then mret Js.JUndefined
  else
    let sessionKeys := map (fun id => sessionKey id) sessionIds in
    Redis.del sessionKeys;;
    Redis.del [indexKey];;
    audit.log
      {| AuditEntry.action := "SESSIONS_REVOKED_SUBJECT";
         AuditEntry.actorId := subjectId;
         AuditEntry.targetId := None;
         AuditEntry.metadata :=
           [("revokedCount", Js.JNum (Z.of_nat (length sessionIds)))] |};;
    mret Js.JUndefined.

End SessionService.

(** ** session.revocation.ts *)

Module SessionRevocation.

Definition revokeSessionsForSubject (subjectId : string) : Js.M World.t unit :=
  SessionService.revokeAllForSubject subjectId;;
  audit.log
    {| AuditEntry.action := "SESSIONS_REVOKED_SUBJECT";
       AuditEntry.actorId := subjectId;
       AuditEntry.targetId := None;
       AuditEntry.metadata := [("subjectId", Js.JStr subjectId)] |}.

Definition revokeSession (sessionId : string) : Js.M World.t unit :=
  SessionService.revoke sessionId.

End SessionRevocation.

(** ** The request context the hooks read and extend *)

Module Http.

Record Tenant := mkTenant { plan : Js.Json; isThrottled : Js.Json }.

(** The policy input [buildOpaInput] attaches. *)
Record OpaInput := mkOpaInput {
  tenant_id : option string;
  tenant_plan : Js.Json;
  tenant_throttled : Js.Json;
  subject_id : string;
  subject_mfa_verified : bool;
  risk_riskLevel : RiskModel.RiskLevel;
  input_resource : Js.Json;
  input_action : Js.Json
}.

Record Request := mkRequest {
  ip : string;
  headers : gmap string string;
  session : Session.t;
  tenant : option Tenant;
  resource : Js.Json;
  action : Js.Json;
  risk : option RiskModel.SessionRiskProfile;
  opaInput : option OpaInput
}.

(** What a hook leaves behind: the request context as it mutated it, and the
    reply if it sent one (which ends the hook chain). *)
Definition Hook : Type := Js.M World.t (Request * option Js.Response).

End Http.

(** ** risk.signals.ts *)

Module RiskSignals.
Import RiskModel.

(** [collectRiskSignals]. [session.lastIp] reads a field no session object
    has, so it is [undefined], and [req.ip] is never identical to it. *)
Definition collectRiskSignals (req : Http.Request) (session : Session.t)
    : list RiskSignal :=
  let lastIp : option string := None in
  let signals := [] in
  let signals :=
    if bool_decide (Some (Http.ip req) ≠ lastIp) then
      (signals ++ [ {| type := IP_ANOMALY; severity := 3;
                       evidence := "IP changed to " +:+ Http.ip req |} ])%list
    else signals in
  let deviceId := Http.headers req !! "x-device-id" in
  let signals :=
    if (match Session.deviceId session with
        | Some d => negb (String.eqb d "")
        | None => false
        end) && bool_decide (deviceId ≠ Session.deviceId session) then
      (signals ++ [ {| type := DEVICE_MISMATCH; severity := 7;
                       evidence := "Device header mismatch" |} ])%list
    else signals in
  let signals :=
    if bool_decide (Http.headers req !! "x-automation" = Some "true") then
      (signals ++ [ {| type := BEHAVIOR_ANOMALY; severity := 6;
                       evidence := "Automation header detected" |} ])%list
    else signals in
  signals.

End RiskSignals.

(** ** risk.service.ts *)

Module RiskService.
Import RiskModel.

Definition signalTypeName (t : SignalType) : string :=
  match t with
  | IP_ANOMALY => "IP_ANOMALY" | GEO_ANOMALY => "GEO_ANOMALY"
  | DEVICE_MISMATCH => "DEVICE_MISMATCH"
  | IMPOSSIBLE_TRAVEL => "IMPOSSIBLE_TRAVEL"
  | BEHAVIOR_ANOMALY => "BEHAVIOR_ANOMALY" | THREAT_INTEL => "THREAT_INTEL"
  | SESSION_REUSE => "SESSION_REUSE"
  end.

Definition signalJson (s : RiskSignal) : Js.Json :=
  Js.JObj [("type", Js.JStr (signalTypeName (type s)));
           ("severity", Js.JNum (severity s));
           ("evidence", Js.JStr (evidence s))].

Definition assessSession (sessionId subjectId : string)
    (signals : list RiskSignal) : Js.M World.t SessionRiskProfile :=
  now ← World.dateNow;
  let profile := RiskEngine.evaluate sessionId subjectId signals now in
  (if bool_decide (riskLevel profile = CRITICAL) then
     SessionRevocation.revokeSession (RiskModel.sessionId profile);;
     audit.log
       {| AuditEntry.action := "SESSION_TERMINATED_HIGH_RISK";
          AuditEntry.actorId := RiskModel.subjectId profile;
          AuditEntry.targetId := None;
          AuditEntry.metadata :=
            [("riskScore", Js.JNum (riskScore profile));
             ("signals", Js.JArr (map signalJson (RiskModel.signals profile)))] |}
   else mret tt);;
  mret profile.

End RiskService.

(** ** cae.middleware.ts *)

Module Cae.
Import RiskModel.

Definition setSessionRisk (level : RiskLevel) (s : Session.t) : Session.t :=
  {| Session.id := Session.id s;
     Session.subjectId := Session.subjectId s;
     Session.deviceId := Session.deviceId s;
     Session.tenantId := Session.tenantId s;
     Session.createdAt := Session.createdAt s;
     Session.expiresAt := Session.expiresAt s;
     Session.revokedAt := Session.revokedAt s;
     Session.riskLevel := level;
     Session.mfaVerified := Session.mfaVerified s;
     Session.lastEvaluatedAt := Session.lastEvaluatedAt s |}.

Definition continuousAccessEvaluation (request : Http.Request) : Http.Hook :=
  let session := Http.session request in
  let signals := RiskSignals.collectRiskSignals request session in
  profile ← RiskService.assessSession (Session.id session)
               (Session.subjectId session) signals;
  now ← World.dateNow;
  SessionService.updateRisk (Session.id session) (riskLevel profile) now;;
  let request :=
    {| Http.ip := Http.ip request;
       Http.headers := Http.headers request;
       Http.session := setSessionRisk (riskLevel profile) (Http.session request);
       Http.tenant := Http.tenant request;
       Http.resource := Http.resource request;
       Http.action := Http.action request;
       Http.risk := Some profile;
       Http.opaInput := Http.opaInput request |} in
  if bool_decide (riskLevel profile = CRITICAL) then
    SessionService.revoke (Session.id session);;
    mret (request,
          Some (Js.mkResponse 403
                  (Js.JObj [("message", Js.JStr "Session terminated")])))
  else mret (request, None).

End Cae.

(** ** rateLimit.service.ts *)

Module RateLimit.

Definition rateKey (sessionId : string) : string := "rate:" +:+ sessionId.

Definition enforceRateLimit (sessionId : string) (limit : Z)
    : Js.M World.t unit :=
  let key := rateKey sessionId in
  count ← Redis.incr key;
  (if count =? 1 then Redis.expire key 60;; mret tt else mret tt);;
  if count >? limit then Js.throw (Js.Error "RATE_LIMIT_EXCEEDED")
  else mret tt.

(** [enforceRateLimit] run with a [limit] that is no number but a function
    or an object: [count > limit] then compares with NaN and is false,
    whatever the count. *)
Definition enforceRateLimitNaN (sessionId : string) : Js.M World.t unit :=
  let key := rateKey sessionId in
  count ← Redis.incr key;
  (if count =? 1 then Redis.expire key 60;; mret tt else mret tt);;
  mret tt.

End RateLimit.

(** ** riskThrottle.middleware.ts *)

Module RiskThrottle.
Import RiskModel.

(** The [LIMITS] object literal: its own properties. *)
Definition LIMITS : list (string * Z) :=
  [("LOW", 1000); ("MEDIUM", 200); ("HIGH", 20)].

Fixpoint prop (key : string) (obj : list (string * Z)) : option Z :=
  match obj with
  | [] => None
  | (k, v) :: rest => if String.eqb k key then Some v else prop key rest
  end.

(** The members an object literal inherits from [Object.prototype]: the
    property read finds them when the object has no own property of the
    name. *)
Definition inherited : list string :=
  ["constructor"; "__defineGetter__"; "__defineSetter__"; "hasOwnProperty";
   "__lookupGetter__"; "__lookupSetter__"; "isPrototypeOf";
   "propertyIsEnumerable"; "toString"; "valueOf"; "__proto__";
   "toLocaleString"].

(** What [limit] is bound to: a number, or the inherited member of that
    name (a function, or the prototype object), which is neither [null] nor
    [undefined] and so is kept by [??]. *)
Inductive Limit :=
| Cap (n : Z)
| Member (name : string).

(** [LIMITS[riskLevel] ?? 10] *)
Definition limitFor (riskLevel : string) : Limit :=
  match prop riskLevel LIMITS with
  | Some n => Cap n
  | None =>
      if bool_decide (riskLevel ∈ inherited) then Member riskLevel
      else Cap 10
  end.

(** [riskThrottle(request, reply)]. The reply is the one the security plugin
    hands to its hooks: [reply.status(403)] sets the status and returns the
    reply, which has no member [json], so calling it throws. *)
Definition riskThrottle (request : Http.Request) : Http.Hook :=
  let riskLevel := Session.riskLevel (Http.session request) in
  if bool_decide (riskLevel = CRITICAL) then
    Js.throw (Js.mkExn "TypeError" "reply.status(...).json is not a function")
  else
    match limitFor (levelName riskLevel) with
    | Cap limit =>
        RateLimit.enforceRateLimit (Session.id (Http.session request)) limit;;
        mret (request, None)
    | Member _ =>
        RateLimit.enforceRateLimitNaN (Session.id (Http.session request));;
        mret (request, None)
    end.

(** Modelled from the spec: no error handler is among the sources; the spec
    has the pipeline map a raised RATE_LIMIT_EXCEEDED to HTTP 429. [None]
    stands for every error the spec gives no status for here. *)
Definition pipelineStatus (e : Js.Exn) : option Z :=
  if String.eqb (Js.exnMessage e) "RATE_LIMIT_EXCEEDED" then Some 429
  else None.

End RiskThrottle.

(** ** deviceBinding.middleware.ts *)

Module DeviceBinding.

Definition headerTruthy (h : option string) : bool :=
  match h with
  | Some v => negb (String.eqb v "")
  | None => false
  end.

(** [enforceDeviceBinding(request, reply)]. The module imports nothing and
    declares nothing but this function, so the only identifiers its body can
    read are the parameters [request] and [reply]. The body reads [req]
    (twice) and [res] instead. *)
Definition enforceDeviceBinding (request : Http.Request) : Http.Hook :=
  let requests := [("request", request)] in
  let replies := [("reply", tt)] in
  req ← Js.identifier requests "req";
  let session := Http.session req in
  req ← Js.identifier requests "req";
  let deviceId := Http.headers req !! "x-device-id" in
  if negb (headerTruthy deviceId)
     || bool_decide (deviceId ≠ Session.deviceId session) then
    _ ← Js.identifier replies "res";
    mret (request,
          Some (Js.mkResponse 401
                  (Js.JObj [("message", Js.JStr "Device mismatch")])))
  else mret (request, None).

End DeviceBinding.

(** ** opaInput: [buildOpaInput] *)

Module OpaInputHook.

Definition buildOpaInput (request : Http.Request) : Http.Hook :=
  let session := Http.session request in
  match Http.tenant request with
  | None =>
      Js.throw (Js.mkExn "TypeError"
                  "Cannot read properties of undefined (reading 'plan')")
  | Some tenant =>
      let opaInput :=
        {| Http.tenant_id := Session.tenantId (Http.session request);
           Http.tenant_plan := Http.plan tenant;
           Http.tenant_throttled := Http.isThrottled tenant;
           Http.subject_id := Session.subjectId (Http.session request);
           Http.subject_mfa_verified := Session.mfaVerified (Http.session request);
           Http.risk_riskLevel := Session.riskLevel (Http.session request);
           Http.input_resource := Http.resource request;
           Http.input_action := Http.action request |} in
      mret ({| Http.ip := Http.ip request;
               Http.headers := Http.headers request;
               Http.session := Http.session request;
               Http.tenant := Http.tenant request;
               Http.resource := Http.resource request;
               Http.action := Http.action request;
               Http.risk := Http.risk request;
               Http.opaInput := Some opaInput |}, None)
  end.

End OpaInputHook.

(** ** The policy engine over HTTP: opa.client, opaAuthorize, policy runtime *)

Module Opa.

(** What one POST to the policy engine runs into: a response (status, body
    text and the JSON it parses to, if it does), or an engine that never
    answers, however long the caller waits. *)
Inductive Exchange :=
| Responded (status : Z) (text : string) (json : option Js.Json)
| Silent.

(** The remote engine, as the callers meet it: what a POST with a given body
    runs into. *)
Definition Engine : Type := Js.Json -> Exchange.

Definition ok (status : Z) : bool := (200 <=? status) && (status <=? 299).

(** What awaiting a promise comes to: the promise settles, with a value or
    a thrown error, or it stays pending and the code after the [await]
    never runs. *)
Inductive Awaited (A : Type) :=
| Settled (r : Js.Result A)
| Pending.
Arguments Settled {A} r.
Arguments Pending {A}.

Definition P (A : Type) : Type := World.t -> Awaited A * World.t.

(** A computation that always settles. *)
Definition settle {A} (m : Js.M World.t A) : P A :=
  fun w => let '(r, w') := m w in (Settled r, w').

(** [await m] followed by the rest of the body. *)
Definition andThen {A B} (m : P A) (k : A -> P B) : P B :=
  fun w =>
    match m w with
    | (Settled (Js.Ok a), w') => k a w'
    | (Settled (Js.Throw e), w') => (Settled (Js.Throw e), w')
    | (Pending, w') => (Pending, w')
    end.

(** [axios.post(url, payload)] with the library's defaults, as
    [opaClient.decide] calls it: resolves with the parsed body ([res.data])
    for a 2xx status, rejects for every other status, and, no timeout being
    configured, stays pending while the engine does not answer. *)
Definition axios_post (engine : Engine) (payload : Js.Json) : P Js.Json :=
  match engine payload with
  | Responded status text json =>
      if ok status then settle (mret (default (Js.JStr text) json))
      else settle (Js.throw
                     (Js.mkExn "AxiosError"
                        ("Request failed with status code "
                         ++ NilZero.string_of_int (Z.to_int status))))
  | Silent => fun w => (Pending, w)
  end.

(** Property read [v.key]; reading a property of [undefined] or [null]
    throws. *)
Definition getProp (v : Js.Json) (key : string) : Js.M World.t Js.Json :=
  match v with
  | Js.JUndefined | Js.JNull =>
      Js.throw (Js.mkExn "TypeError" "Cannot read properties of undefined")
  | Js.JObj fields => mret (Js.lookupField key fields)
  | _ => mret Js.JUndefined
  end.

(** [opaClient.decide(payload)]: [res.data.result] *)
Definition decide (engine : Engine) (payload : Js.Json) : P Js.Json :=
  andThen (axios_post engine payload) (fun data =>
  settle (getProp data "result")).

(** The policy input as the JSON value it is. *)
Definition inputJson (input : option Http.OpaInput) : Js.Json :=
  match input with
  | None => Js.JUndefined
  | Some i =>
      Js.JObj
        [("tenant",
          Js.JObj [("id", match Http.tenant_id i with
                          | Some t => Js.JStr t
                          | None => Js.JUndefined
                          end);
                   ("plan", Http.tenant_plan i);
                   ("throttled", Http.tenant_throttled i)]);
         ("subject",
          Js.JObj [("id", Js.JStr (Http.subject_id i));
                   ("mfa_verified", Js.JBool (Http.subject_mfa_verified i))]);
         ("risk",
          Js.JObj [("riskLevel",
                    Js.JStr (RiskModel.levelName (Http.risk_riskLevel i)))]);
         ("resource", Http.input_resource i);
         ("action", Http.input_action i)]
  end.

(** [opaAuthorize(request, reply)]. The module imports nothing and declares
    nothing but this function: no binding of [opaClient] is in force where
    the body reads it. *)
Definition opaAuthorize (request : Http.Request)
    : P (Http.Request * option Js.Response) :=
  let clients : list (string * Engine) := [] in
  andThen (settle (Js.identifier clients "opaClient")) (fun opaClient =>
  andThen (decide opaClient
             (Js.JObj [("input", inputJson (Http.opaInput request))]))
    (fun decision =>
  settle (allow ← getProp decision "allow";
          if negb (Js.truthy allow) then
            mret (request,
                  Some (Js.mkResponse 403
                          (Js.JObj [("message", Js.JStr "Access denied")])))
          else mret (request, None)))).

(** The result object of [evaluatePolicyHttp]. *)
Record Evaluation := mkEvaluation { allow : bool; details : Js.Json }.

(** [fetch(url, ...)] (node-fetch) with its [timeout] option: resolves with
    the response whatever its status, rejects when the time runs out on an
    engine that does not answer. *)
Definition fetch (url : string) (engine : Engine) (payload : Js.Json)
    : Js.M World.t (Z * string * option Js.Json) :=
  match engine payload with
  | Responded status text json => mret (status, text, json)
  | Silent => Js.throw (Js.mkExn "FetchError" ("network timeout at: " ++ url))
  end.

(** [evaluatePolicyHttp(input)] of the policy runtime; [OPA_URL] is the
    environment variable, empty when unset. *)
Definition evaluatePolicyHttp (OPA_URL : string) (engine : Engine)
    (input : Js.Json) : Js.M World.t Evaluation :=
  if String.eqb OPA_URL "" then
    mret {| allow := false; details := Js.JStr "OPA_URL not configured" |}
  else
    res ← fetch OPA_URL engine (Js.JObj [("input", input)]);
    let '(status, text, json) := res in
    if negb (ok status) then
      mret {| allow := false;
              details := Js.JObj [("status", Js.JNum status);
                                  ("text", Js.JStr text)] |}
    else
      match json with
      | None => Js.throw (Js.mkExn "FetchError" "invalid json response body")
      | Some json =>
          result ← getProp json "result";
          mret {| allow := Js.truthy result; details := json |}
      end.

End Opa.

(** ** opaWasm.runtime.ts: the WASM placeholder and the public entry point *)

Module PolicyRuntime.

(** [evaluatePolicyWasm(input)]; [loaded] says whether [loadWasmPolicy] has
    set [wasmInstance] and [opaExports]. *)
Definition evaluatePolicyWasm (loaded : bool) (input : Js.Json)
    : Js.M World.t Opa.Evaluation :=
  if negb loaded then
    mret {| Opa.allow := false;
            Opa.details := Js.JStr "WASM policy not loaded" |}
  else
    mret {| Opa.allow := false;
            Opa.details :=
              Js.JStr "WASM evaluation placeholder - instantiate using official OPA wasm loader for production" |}.

(** [evaluatePolicy(input)] *)
Definition evaluatePolicy (OPA_URL : string) (loaded : bool)
    (engine : Opa.Engine) (input : Js.Json) : Js.M World.t Opa.Evaluation :=
  if negb (String.eqb OPA_URL "") then Opa.evaluatePolicyHttp OPA_URL engine input
  else evaluatePolicyWasm loaded input.

End PolicyRuntime.

(** ** entitlement.service.ts *)

Module Prisma.
Import World.

Definition setTable (rows : list Entitlement.t) (w : World.t) : World.t :=
  {| redis := redis w; clock := clock w; auditTrail := auditTrail w;
     entitlementTable := rows |}.

(** [prisma.entitlement.update({ where: { id }, data })] with the data the
    service passes; rejects when no row has the id. *)
Definition markRevoked (now : Z) (e : Entitlement.t) : Entitlement.t :=
  {| Entitlement.id := Entitlement.id e;
     Entitlement.subjectType := Entitlement.subjectType e;
     Entitlement.subjectId := Entitlement.subjectId e;
     Entitlement.resourceType := Entitlement.resourceType e;
     Entitlement.resourceId := Entitlement.resourceId e;
     Entitlement.scopes := Entitlement.scopes e;
     Entitlement.status := Entitlement.REVOKED;
     Entitlement.validFrom := Entitlement.validFrom e;
     Entitlement.validUntil := Entitlement.validUntil e;
     Entitlement.grantedBy := Entitlement.grantedBy e;
     Entitlement.grantReason := Entitlement.grantReason e;
     Entitlement.createdAt := Entitlement.createdAt e;
     Entitlement.updatedAt := now;
     Entitlement.revokedAt := Some now |}.

Fixpoint updateRow (id : string) (f : Entitlement.t -> Entitlement.t)
    (rows : list Entitlement.t) : option (Entitlement.t * list Entitlement.t) :=
  match rows with
  | [] => None
  | r :: rest =>
      if String.eqb (Entitlement.id r) id then Some (f r, f r :: rest)
      else match updateRow id f rest with
           | Some (r', rest') => Some (r', r :: rest')
           | None => None
           end
  end.

Definition update (id : string) (f : Entitlement.t -> Entitlement.t)
    : Js.M World.t Entitlement.t :=
  fun w =>
    match updateRow id f (entitlementTable w) with
    | Some (r, rows) => (Js.Ok r, setTable rows w)
    | None =>
        (Js.Throw (Js.mkExn "PrismaClientKnownRequestError"
                     "Record to update not found"), w)
    end.

(** [prisma.entitlement.findMany({ where: { subjectId, status } })] *)
Definition findMany (subjectId : string) (status : Entitlement.EntitlementStatus)
    : Js.M World.t (list Entitlement.t) :=
  fun w =>
    (Js.Ok (filter (fun r => Entitlement.subjectId r = subjectId
                             /\ Entitlement.status r = status)
              (entitlementTable w)), w).

Definition create (row : Entitlement.t) : Js.M World.t unit :=
  fun w => (Js.Ok tt, setTable (entitlementTable w ++ [row])%list w).

End Prisma.

Module EntitlementService.

(** [revoke(entitlementId, revokedBy, reason)] *)
Definition revoke (entitlementId revokedBy reason : string)
    : Js.M World.t Entitlement.t :=
  now ← World.dateNow;
  entitlement ← Prisma.update entitlementId (Prisma.markRevoked now);
  SessionRevocation.revokeSessionsForSubject (Entitlement.subjectId entitlement);;
  audit.log
    {| AuditEntry.action := "ENTITLEMENT_REVOKED";
       AuditEntry.actorId := revokedBy;
       AuditEntry.targetId := Some entitlementId;
       AuditEntry.metadata := [("reason", Js.JStr reason)] |};;
  mret entitlement.

(** [getActiveForSubject(subjectId)] *)
Definition getActiveForSubject (subjectId : string)
    : Js.M World.t (list Entitlement.t) :=
  records ← Prisma.findMany subjectId Entitlement.ACTIVE;
  now ← World.dateNow;
  mret (filter (fun r => Entitlement.isEntitlementActive now r = true) records).

(** [grant(params)]; [uuid] is the id [createEntitlement] draws. *)
Definition grant (uuid : string) (params : Entitlement.Params)
    : Js.M World.t Entitlement.t :=
  now ← World.dateNow;
  let entitlement := Entitlement.createEntitlement uuid now params in
  Prisma.create entitlement;;
  audit.log
    {| AuditEntry.action := "ENTITLEMENT_GRANTED";
       AuditEntry.actorId := Entitlement.p_grantedBy params;
       AuditEntry.targetId := Some (Entitlement.id entitlement);
       AuditEntry.metadata :=
         [("subjectType",
           Js.JStr (Entitlement.subjectTypeName (Entitlement.p_subjectType params)));
          ("subjectId", Js.JStr (Entitlement.p_subjectId params));
          ("scopes", Js.JArr (map Js.JStr (Entitlement.p_scopes params)));
          ("resource",
           Js.JStr (Entitlement.p_resourceType params +:+ ":"
                    +:+ Entitlement.p_resourceId params))] |};;
  mret entitlement.

(** One element of what [buildPolicyInput] returns. *)
Record PolicyFact := mkPolicyFact {
  fact_resource : string;
  fact_scopes : list string;
  fact_validUntil : option Z
}.

(** [buildPolicyInput(subjectId)] *)
Definition buildPolicyInput (subjectId : string)
    : Js.M World.t (list PolicyFact) :=
  entitlements ← getActiveForSubject subjectId;
  mret (map (fun e =>
               {| fact_resource :=
                    Entitlement.resourceType e +:+ ":" +:+ Entitlement.resourceId e;
                  fact_scopes := Entitlement.scopes e;
                  fact_validUntil := Entitlement.validUntil e |})
          entitlements).

End EntitlementService.

(** ** node:crypto [createHash('sha256')] (FIPS 180-4)

    The digest the audit log chains with. Words are 32-bit integers held in
    [Z], additions reduced modulo [2^32]. *)

Module Sha256.

Definition w32 (x : Z) : Z := Z.land x 0xFFFFFFFF.

Definition rotr (n x : Z) : Z :=
  Z.lor (Z.shiftr x n) (w32 (Z.shiftl x (32 - n))).

Definition Ch (x y z : Z) : Z :=
  Z.lxor (Z.land x y) (Z.land (Z.lxor x 0xFFFFFFFF) z).

Definition Maj (x y z : Z) : Z :=
  Z.lxor (Z.lxor (Z.land x y) (Z.land x z)) (Z.land y z).

Definition bigSigma0 (x : Z) : Z :=
  Z.lxor (Z.lxor (rotr 2 x) (rotr 13 x)) (rotr 22 x).

Definition bigSigma1 (x : Z) : Z :=
  Z.lxor (Z.lxor (rotr 6 x) (rotr 11 x)) (rotr 25 x).

Definition smallSigma0 (x : Z) : Z :=
  Z.lxor (Z.lxor (rotr 7 x) (rotr 18 x)) (Z.shiftr x 3).

Definition smallSigma1 (x : Z) : Z :=
  Z.lxor (Z.lxor (rotr 17 x) (rotr 19 x)) (Z.shiftr x 10).

(** The constants of FIPS 180-4, 4.2.2 and 5.3.3: the first 32 bits of the
    fractional parts of the cube roots of the first sixty-four primes, and
    of the square roots of the first eight. *)
Definition isPrime (n : Z) : bool :=
  forallb (fun d => negb (n mod d =? 0))
    (map Z.of_nat (seq 2 (Z.to_nat (Z.sqrt n) - 1))).

Definition primes (count : nat) : list Z :=
  firstn count (filter isPrime (map Z.of_nat (seq 2 400))).

(** The integer cube root of a number below [2^120], bit by bit. *)
Definition cubeRoot (n : Z) : Z :=
  fold_left
    (fun r b => let r' := Z.lor r (Z.shiftl 1 b) in
                if r' * r' * r' <=? n then r' else r)
    (map Z.of_nat (rev (seq 0 40))) 0.

Definition K : list Z :=
  Eval vm_compute in
    map (fun p => w32 (cubeRoot (Z.shiftl p 96))) (primes 64).

Definition H0 : list Z :=
  Eval vm_compute in
    map (fun p => w32 (Z.sqrt (Z.shiftl p 64))) (primes 8).

(** The bytes of a string. *)
Fixpoint bytes (s : string) : list Z :=
  match s with
  | EmptyString => []
  | String c rest => Z.of_N (N_of_ascii c) :: bytes rest
  end.

(** [n] as [k] big-endian bytes. *)
Fixpoint bigEndian (k : nat) (n : Z) : list Z :=
  match k with
  | O => []
  | S k' => (bigEndian k' (Z.shiftr n 8) ++ [Z.land n 0xFF])%list
  end.

(** Padding: the bit 1, zeros up to 56 modulo 64, the bit length on 64 bits. *)
Definition pad (msg : list Z) : list Z :=
  let len := Z.of_nat (length msg) in
  let zeros := Z.to_nat ((55 - len) mod 64) in
  (msg ++ [0x80] ++ repeat 0 zeros ++ bigEndian 8 (len * 8))%list.

(** Big-endian 32-bit words of a byte list. *)
Fixpoint words (fuel : nat) (bs : list Z) : list Z :=
  match fuel, bs with
  | S fuel', b0 :: b1 :: b2 :: b3 :: rest =>
      (Z.shiftl b0 24 + Z.shiftl b1 16 + Z.shiftl b2 8 + b3)
        :: words fuel' rest
  | _, _ => []
  end.

(** The message schedule, newest word first. *)
Fixpoint schedule (n : nat) (w : list Z) : list Z :=
  match n with
  | O => w
  | S n' =>
      let x := w32 (smallSigma1 (nth 1 w 0) + nth 6 w 0
                    + smallSigma0 (nth 14 w 0) + nth 15 w 0) in
      schedule n' (x :: w)
  end.

Definition round (st : list Z) (kw : Z * Z) : list Z :=
  match st with
  | [a; b; c; d; e; f; g; h] =>
      let t1 := h + bigSigma1 e + Ch e f g + kw.1 + kw.2 in
      let t2 := bigSigma0 a + Maj a b c in
      [w32 (t1 + t2); a; b; c; w32 (d + t1); e; f; g]
  | _ => st
  end.

Definition compress (h : list Z) (block : list Z) : list Z :=
  let w := rev (schedule 48 (rev block)) in
  let st := fold_left round (combine K w) h in
  map (fun p => w32 (p.1 + p.2)) (combine h st).

Fixpoint blocks (fuel : nat) (ws : list Z) (h : list Z) : list Z :=
  match fuel, ws with
  | S fuel', _ :: _ => blocks fuel' (skipn 16 ws) (compress h (firstn 16 ws))
  | _, _ => h
  end.

Definition hexDigit (n : Z) : ascii :=
  ascii_of_N (Z.to_N (if n <? 10 then 48 + n else 87 + n)).

Fixpoint hex (k : nat) (n : Z) : string :=
  match k with
  | O => EmptyString
  | S k' => hex k' (Z.shiftr n 4) +:+ String (hexDigit (Z.land n 0xF)) EmptyString
  end.

(** [createHash('sha256').update(s).digest('hex')] *)
Definition sha256hex (s : string) : string :=
  let padded := pad (bytes s) in
  let ws := words (length padded) padded in
  let h := blocks (length ws) ws H0 in
  String.concat "" (map (hex 8) h).

End Sha256.

(** ** [JSON.stringify] and JavaScript object literals

    An object is its properties in insertion order. Strings are the byte
    strings their UTF-8 encoding gives, numbers are integers. *)

Module JSON.
Import Js.

Definition Obj : Type := list (string * Json).

(** [{ ...obj, key: v }]: an existing key keeps its place, a new one goes
    last. *)
Fixpoint setProp (key : string) (v : Json) (obj : Obj) : Obj :=
  match obj with
  | [] => [(key, v)]
  | (k, x) :: rest =>
      if String.eqb k key then (k, v) :: rest
      else (k, x) :: setProp key v rest
  end.

Definition backslash : ascii := ascii_of_nat 92.
Definition dquote : ascii := ascii_of_nat 34.

Definition esc (c : ascii) : string := String backslash (String c EmptyString).

(** QuoteJSONString, one code unit. *)
Definition quoteChar (c : ascii) : string :=
  let n := Z.of_N (N_of_ascii c) in
  if n =? 34 then esc dquote
  else if n =? 92 then esc backslash
  else if n =? 8 then esc "b"
  else if n =? 12 then esc "f"
  else if n =? 10 then esc "n"
  else if n =? 13 then esc "r"
  else if n =? 9 then esc "t"
  else if n <? 32 then esc "u" +:+ "00" +:+ Sha256.hex 2 n
  else String c EmptyString.

Fixpoint quoteChars (s : string) : string :=
  match s with
  | EmptyString => EmptyString
  | String c rest => quoteChar c +:+ quoteChars rest
  end.

Definition quote (s : string) : string :=
  String dquote (quoteChars s +:+ String dquote EmptyString).

(** Number::toString for integers. *)
Definition decimal (n : Z) : string := NilZero.string_of_int (Z.to_int n).

(** SerializeJSONProperty. A property whose value is [undefined] is left out
    of an object and is [null] in an array. *)
Fixpoint serialize (v : Json) : string :=
  match v with
  | JUndefined | JNull => "null"
  | JBool b => if b then "true" else "false"
  | JNum n => decimal n
  | JStr s => quote s
  | JArr items => "[" +:+ String.concat "," (map serialize items) +:+ "]"
  | JObj fields =>
      "{" +:+
      String.concat ","
        (omap (fun kv : string * Json =>
                 let (k, x) := kv in
                 match x with
                 | JUndefined => None
                 | _ => Some (quote k +:+ ":" +:+ serialize x)
                 end) fields)
      +:+ "}"
  end.

(** [JSON.stringify(obj)] for an object. *)
Definition stringify (obj : Obj) : string := serialize (JObj obj).

End JSON.

(** ** KeyRotationAuditService.ts: [ImmutableAuditLog] *)

Module ImmutableAuditLog.
Import Js.

(** The two private fields of the class. *)
Record t := mk { events : list JSON.Obj; lastHash : string }.

(** [new ImmutableAuditLog()] *)
Definition new : t := {| events := []; lastHash := "GENESIS" |}.

Definition append (event : JSON.Obj) (log : t) : JSON.Obj * t :=
  let serialized :=
    JSON.stringify (JSON.setProp "previousHash" (JStr (lastHash log)) event) in
  let hash := Sha256.sha256hex serialized in
  let finalEvent := JSON.setProp "eventId" (JStr hash) event in
  (finalEvent, {| events := (events log ++ [finalEvent])%list; lastHash := hash |}).

(** The string hashed for one record while verifying. *)
Definition canonical (prev : Json) (event : JSON.Obj) : string :=
  JSON.stringify
    (JSON.setProp "previousHash" prev (JSON.setProp "eventId" JUndefined event)).

(** [reconstructed !== event.eventId] *)
Definition differs (reconstructed : string) (eventId : Json) : bool :=
  match eventId with
  | JStr id => negb (String.eqb reconstructed id)
  | _ => true
  end.

(** The loop of [verify], from the value [prev] holds. *)
Fixpoint verifyFrom (prev : Json) (events : list JSON.Obj) : bool :=
  match events with
  | [] => true
  | event :: rest =>
      let reconstructed := Sha256.sha256hex (canonical prev event) in
      if differs reconstructed (lookupField "eventId" event) then false
      else verifyFrom (lookupField "eventId" event) rest
  end.

Definition verify (log : t) : bool := verifyFrom (JStr "GENESIS") (events log).

End ImmutableAuditLog.

(** ** KeyRotationAuditService.ts: [KeyRotationService]

    The metadata objects are shared: the object [createKey] or [rotateKey]
    returns is the one its lineage array holds, and [rotateKey] assigns to
    the [status] of the latest one. So the objects live in a heap and are
    named by reference; a reference that names no object stands for
    [undefined]. *)

Module KeyRotationService.
Import Js.

Inductive Purpose := encryption | signing | mac | keyWrapping.

Inductive Status := active | rotated | revoked.

#[global] Instance Status_eq_dec : EqDecision Status.
Proof. solve_decision. Defined.

Definition purposeName (p : Purpose) : string :=
  match p with
  | encryption => "encryption" | signing => "signing" | mac => "mac"
  | keyWrapping => "key-wrapping"
  end.

Definition statusName (s : Status) : string :=
  match s with
  | active => "active" | rotated => "rotated" | revoked => "revoked"
  end.

Record CryptoKeyMetadata := mkMetadata {
  keyId : string;
  version : Z;
  createdAt : Z;
  expiresAt : Z;
  algorithm : string;
  purpose : Purpose;
  status : Status
}.

(** A metadata object as [JSON.stringify] sees it. *)
Definition toJson (m : CryptoKeyMetadata) : JSON.Obj :=
  [("keyId", JStr (keyId m)); ("version", JNum (version m));
   ("createdAt", JNum (createdAt m)); ("expiresAt", JNum (expiresAt m));
   ("algorithm", JStr (algorithm m)); ("purpose", JStr (purposeName (purpose m)));
   ("status", JStr (statusName (status m)))].

(** A reference: the index of an object in the heap. *)
Notation Ref := nat (only parsing).

(** An instance of the service ([keys], [auditLog]), the objects allocated
    so far and the wall clock. *)
Record t := mk {
  heap : list CryptoKeyMetadata;
  keys : gmap string (list Ref);
  auditLog : ImmutableAuditLog.t;
  clock : Z
}.

(** [new KeyRotationService()] at instant [now]. *)
Definition new (now : Z) : t :=
  {| heap := []; keys := ∅; auditLog := ImmutableAuditLog.new; clock := now |}.

Definition dateNow : M t Z := fun st => (Ok (clock st), st).

(** An object literal: a fresh object. *)
Definition alloc (m : CryptoKeyMetadata) : M t Ref :=
  fun st =>
    (Ok (length (heap st)),
     {| heap := (heap st ++ [m])%list; keys := keys st;
        auditLog := auditLog st; clock := clock st |}).

(** Reading a property of the object behind a reference. *)
Definition deref (r : Ref) : M t CryptoKeyMetadata :=
  fun st =>
    match heap st !! r with
    | Some m => (Ok m, st)
    | None =>
        (Throw (mkExn "TypeError" "Cannot read properties of undefined"), st)
    end.

Definition withStatus (s : Status) (m : CryptoKeyMetadata) : CryptoKeyMetadata :=
  {| keyId := keyId m; version := version m; createdAt := createdAt m;
     expiresAt := expiresAt m; algorithm := algorithm m; purpose := purpose m;
     status := s |}.

(** [r.status = s] *)
Definition setStatus (r : Ref) (s : Status) : M t unit :=
  fun st =>
    (Ok tt,
     {| heap := alter (withStatus s) r (heap st); keys := keys st;
        auditLog := auditLog st; clock := clock st |}).

(** [this.keys.get(keyId)] *)
Definition getLineage (keyId : string) : M t (option (list Ref)) :=
  fun st => (Ok (keys st !! keyId), st).

(** [this.keys.set(keyId, lineage)], and what [lineage.push] leaves in the
    map. *)
Definition setLineage (keyId : string) (lineage : list Ref) : M t unit :=
  fun st =>
    (Ok tt,
     {| heap := heap st; keys := <[keyId := lineage]> (keys st);
        auditLog := auditLog st; clock := clock st |}).

(** [this.auditLog.append(event)] *)
Definition appendAudit (event : JSON.Obj) : M t unit :=
  fun st =>
    (Ok tt,
     {| heap := heap st; keys := keys st;
        auditLog := (ImmutableAuditLog.append event (auditLog st)).2;
        clock := clock st |}).

Definition contextHash (m : CryptoKeyMetadata) : string :=
  Sha256.sha256hex (JSON.stringify (toJson m)).

(** The object literal passed to [append]. *)
Definition auditEvent (timestamp : Z) (actor action keyId : string)
    (keyVersion : Z) (contextHash : string) : JSON.Obj :=
  [("timestamp", JNum timestamp); ("actor", JStr actor);
   ("action", JStr action); ("keyId", JStr keyId);
   ("keyVersion", JNum keyVersion); ("contextHash", JStr contextHash)].

(** [createKey]; [uuid] is the value [randomUUID()] draws. *)
Definition createKey (uuid : string) (algorithm : string) (purpose : Purpose)
    (ttlMs : Z) (actor : string) : M t Ref :=
  let keyId := uuid in
  now ← dateNow;
  metadata ← alloc {| keyId := keyId; version := 1; createdAt := now;
                      expiresAt := now + ttlMs; algorithm := algorithm;
                      purpose := purpose; status := active |};
  setLineage keyId [metadata];;
  m ← deref metadata;
  appendAudit (auditEvent now actor "KEY_CREATED" keyId 1 (contextHash m));;
  mret metadata.

(** [rotateKey] *)
Definition rotateKey (keyId : string) (ttlMs : Z) (actor : string) : M t Ref :=
  lineage ← getLineage keyId;
  match lineage with
  | None => throw (Error "Key not found")
  | Some lineage =>
      match last lineage with
      | None =>
          throw (mkExn "TypeError" "Cannot set properties of undefined")
      | Some latest =>
          setStatus latest rotated;;
          now ← dateNow;
          l ← deref latest;
          rotated ← alloc {| KeyRotationService.keyId := KeyRotationService.keyId l;
                             version := version l + 1; createdAt := now;
                             expiresAt := now + ttlMs;
                             algorithm := algorithm l; purpose := purpose l;
                             status := active |};
          setLineage keyId (lineage ++ [rotated])%list;;
          m ← deref rotated;
          appendAudit (auditEvent now actor "KEY_ROTATED" keyId (version m)
                         (contextHash m));;
          mret rotated
      end
  end.

(** [assertUsable(key, actor)] *)
Definition assertUsable (key : Ref) (actor : string) : M t unit :=
  k ← deref key;
  if negb (bool_decide (status k = active)) then
    throw (Error "Key is not active")
  else
    now ← dateNow;
    if now >? expiresAt k then throw (Error "Key expired")
    else
      now ← dateNow;
      appendAudit (auditEvent now actor "KEY_USED" (KeyRotationService.keyId k)
                     (version k) (contextHash k)).

Definition getAuditLog : M t ImmutableAuditLog.t :=
  fun st => (Ok (auditLog st), st).

(** Time passes. *)
Definition advance (ms : N) (st : t) : t :=
  {| heap := heap st; keys := keys st; auditLog := auditLog st;
     clock := clock st + Z.of_N ms |}.

End KeyRotationService.

(** ** auth.roles.ts *)

Module Roles.

Inductive UserRole :=
| SUPER_ADMIN | ADMIN | SECURITY_ADMIN | FINANCE_ADMIN | OPERATOR
| DEVELOPER | AUDITOR | USER | GUEST.

Inductive Permission :=
| READ_USERS | WRITE_USERS | DELETE_USERS | MANAGE_ROLES | READ_FINANCIALS
| APPROVE_PAYMENTS | DEPLOY_CODE | READ_AUDIT_LOGS | START_PRIVILEGED_SESSION
| END_PRIVILEGED_SESSION | READ_CONTENT | WRITE_CONTENT.

#[global] Instance UserRole_eq_dec : EqDecision UserRole.
Proof. solve_decision. Defined.

#[global] Instance Permission_eq_dec : EqDecision Permission.
Proof. solve_decision. Defined.

(** The string a role is at run time (the enum's value). *)
Definition roleName (r : UserRole) : string :=
  match r with
  | SUPER_ADMIN => "SUPER_ADMIN" | ADMIN => "ADMIN"
  | SECURITY_ADMIN => "SECURITY_ADMIN" | FINANCE_ADMIN => "FINANCE_ADMIN"
  | OPERATOR => "OPERATOR" | DEVELOPER => "DEVELOPER" | AUDITOR => "AUDITOR"
  | USER => "USER" | GUEST => "GUEST"
  end.

Definition RolePermissions (r : UserRole) : list Permission :=
  match r with
  | SUPER_ADMIN =>
      [READ_USERS; WRITE_USERS; DELETE_USERS; MANAGE_ROLES; READ_FINANCIALS;
       APPROVE_PAYMENTS; DEPLOY_CODE; READ_AUDIT_LOGS; START_PRIVILEGED_SESSION;
       END_PRIVILEGED_SESSION; READ_CONTENT; WRITE_CONTENT]
  | ADMIN =>
      [READ_USERS; WRITE_USERS; MANAGE_ROLES; DEPLOY_CODE; READ_CONTENT;
       WRITE_CONTENT]
  | SECURITY_ADMIN =>
      [READ_USERS; READ_AUDIT_LOGS; START_PRIVILEGED_SESSION;
       END_PRIVILEGED_SESSION]
  | FINANCE_ADMIN => [READ_FINANCIALS; APPROVE_PAYMENTS]
  | OPERATOR => [READ_CONTENT; WRITE_CONTENT]
  | DEVELOPER => [DEPLOY_CODE; READ_CONTENT; WRITE_CONTENT]
  | AUDITOR => [READ_AUDIT_LOGS; READ_USERS]
  | USER => [READ_CONTENT; WRITE_CONTENT]
  | GUEST => [READ_CONTENT]
  end.

Definition RoleHierarchy (r : UserRole) : list UserRole :=
  match r with
  | SUPER_ADMIN =>
      [ADMIN; SECURITY_ADMIN; FINANCE_ADMIN; DEVELOPER; AUDITOR; OPERATOR; USER]
  | ADMIN => [DEVELOPER; OPERATOR; USER]
  | OPERATOR => [USER]
  | DEVELOPER => [USER]
  | SECURITY_ADMIN | FINANCE_ADMIN | AUDITOR | USER | GUEST => []
  end.

Record SoDRule := mkRule {
  role : UserRole;
  incompatibleWith : list UserRole;
  reason : option string
}.

Definition SoDRules : list SoDRule :=
  [mkRule FINANCE_ADMIN [DEVELOPER]
     (Some "Finance admins cannot have code deployment privileges");
   mkRule FINANCE_ADMIN [SECURITY_ADMIN]
     (Some "Separation between finance and security duties");
   mkRule DEVELOPER [AUDITOR] (Some "Developer should not audit their own work");
   mkRule SUPER_ADMIN [] (Some "Super admin has broad privileges")].

(** [set.add(x)] on a [Set], kept in insertion order. *)
Definition add {A} `{EqDecision A} (x : A) (s : list A) : list A :=
  if decide (x ∈ s) then s else (s ++ [x])%list.

(** The inner function [walk] of [computeEffectivePermissions], acting on
    the two sets it closes over. The recursion goes one level deeper only
    for a role that is not yet in [visited], so its depth is bounded by the
    number of roles; [fuel] is that bound and [None] means it was too low. *)
Fixpoint walk (fuel : nat) (r : UserRole)
    (sets : list UserRole * list Permission)
    : option (list UserRole * list Permission) :=
  match fuel with
  | O => None
  | S fuel' =>
      if decide (r ∈ sets.1) then Some sets
      else
        let visited := add r sets.1 in
        let results := fold_left (fun acc p => add p acc) (RolePermissions r) sets.2 in
        fold_left (fun acc c => acc ≫= walk fuel' c) (RoleHierarchy r)
          (Some (visited, results))
  end.

(** [computeEffectivePermissions(role)] *)
Definition computeEffectivePermissions (role : UserRole) : list Permission :=
  match walk 10 role ([], []) with
  | Some (_, results) => results
  | None => []
  end.

(** [violatesSoD(roles)]: the two fields of the object it returns. *)
Definition violatesSoD (roles : list UserRole) : bool * list string :=
  let details :=
    flat_map
      (fun rule =>
         if bool_decide (role rule ∈ roles) then
           flat_map
             (fun incompatible =>
                if bool_decide (incompatible ∈ roles) then
                  ["Role " +:+ roleName (role rule) +:+ " incompatible with "
                   +:+ roleName incompatible
                   +:+ match reason rule with
                       | Some text => ": " +:+ text
                       | None => ""
                       end]
                else [])
             (incompatibleWith rule)
         else [])
      SoDRules in
  (Nat.ltb 0 (length details), details).

End Roles.

(** ** sod.service.ts *)

Module SoD.
Import Roles.

(** [validateRoleAssignment]: [allowed] and [errors] of the object it
    returns. *)
Definition validateRoleAssignment (existingRoles rolesToAdd : list UserRole)
    : bool * option (list string) :=
  let newRoles :=
    fold_left (fun s r => add r s) (existingRoles ++ rolesToAdd)%list [] in
  let sod := violatesSoD newRoles in
  if sod.1 then (false, Some sod.2) else (true, None).

End SoD.

(* ===================================================================== *)
(** * Part II. Properties                                                 *)
(* ===================================================================== *)

(** ** Doubles that hold integers

    Below 2^53 in magnitude every integer is a double, and sums, products
    and comparisons of such doubles are those of the integers, as long as
    the results stay below 2^53 too. *)

Section DoubleArithmetic.
Import SpecFloat.
#[local] Notation prec := Number.prec.
#[local] Notation emax := Number.emax.
#[local] Notation ofZ := Number.ofZ.

Lemma digits_spec p :
  2 ^ (Zpos (digits2_pos p) - 1) <= Zpos p < 2 ^ Zpos (digits2_pos p).
Proof.
  induction p as [p IH|p IH|]; cbn [digits2_pos].
  - rewrite Pos2Z.inj_succ.
    replace (Z.succ (Zpos (digits2_pos p)) - 1) with (Z.succ (Zpos (digits2_pos p) - 1)) by lia.
    rewrite !Z.pow_succ_r by lia. lia.
  - rewrite Pos2Z.inj_succ.
    replace (Z.succ (Zpos (digits2_pos p)) - 1) with (Z.succ (Zpos (digits2_pos p) - 1)) by lia.
    rewrite !Z.pow_succ_r by lia. lia.
  - cbn. lia.
Qed.

Lemma digits_unique p d :
  2 ^ (d - 1) <= Zpos p < 2 ^ d -> Zpos (digits2_pos p) = d.
Proof.
  intros [Hlo Hhi]. pose proof (digits_spec p) as [Dlo Dhi].
  set (D := Zpos (digits2_pos p)) in *.
  assert (0 < D) by (subst D; lia).
  destruct (Z.lt_trichotomy D d) as [Hlt|[Heq|Hgt]]; [|assumption|].
  - assert (2 ^ D <= 2 ^ (d - 1)) by (apply Z.pow_le_mono_r; lia). lia.
  - assert (0 <= d).
    { destruct (Z.le_gt_cases 0 d); [assumption|].
      rewrite (Z.pow_neg_r 2 d) in Hhi by lia. lia. }
    assert (2 ^ d <= 2 ^ (D - 1)) by (apply Z.pow_le_mono_r; lia). lia.
Qed.

Lemma digits_shift p q n :
  0 <= n -> Zpos p = Zpos q * 2 ^ n ->
  Zpos (digits2_pos p) = Zpos (digits2_pos q) + n.
Proof.
  intros Hn Hp. apply digits_unique. rewrite Hp.
  pose proof (digits_spec q) as [Dlo Dhi].
  set (D := Zpos (digits2_pos q)) in *.
  assert (0 < D) by (subst D; lia).
  replace (D + n - 1) with ((D - 1) + n) by lia.
  rewrite !Z.pow_add_r by lia.
  assert (0 < 2 ^ n) by (apply Z.pow_pos_nonneg; lia).
  split; nia.
Qed.

Lemma iter_xO q n : Zpos (Pos.iter xO q n) = Zpos q * 2 ^ Zpos n.
Proof.
  induction n as [|n IH] using Pos.peano_ind.
  - cbn. lia.
  - rewrite Pos.iter_succ, Pos2Z.inj_succ, Z.pow_succ_r by lia.
    rewrite Pos2Z.inj_xO, IH. lia.
Qed.

Lemma iter_pos_iter {A} (f : A -> A) n x : iter_pos f n x = Pos.iter f x n.
Proof.
  revert x. induction n as [n IH|n IH|]; intros x; cbn.
  - rewrite !IH. rewrite !Pos.iter_swap. reflexivity.
  - rewrite !IH. reflexivity.
  - reflexivity.
Qed.

Lemma shr_exact q n :
  iter_pos shr_1 n (Build_shr_record (Zpos (Pos.iter xO q n)) false false)
  = Build_shr_record (Zpos q) false false.
Proof.
  rewrite iter_pos_iter.
  induction n as [|n IH] using Pos.peano_ind.
  - reflexivity.
  - rewrite (Pos.iter_succ n positive xO), (Pos.iter_succ_r n shr_record shr_1).
    cbn [shr_1 orb]. exact IH.
Qed.


Lemma fexp_eq d e :
  -1074 <= d + e - 53 -> fexp prec emax (d + e) - e = d - 53.
Proof. unfold fexp, emin, Number.prec, Number.emax. lia. Qed.

Lemma aux_canon s p e q n :
  0 <= n -> Zpos p = Zpos q * 2 ^ n -> Zpos (digits2_pos q) = 53 ->
  -1074 <= e + n <= 971 ->
  binary_round_aux prec emax s (Zpos p) e loc_Exact = S754_finite s q (e + n).
Proof.
  intros Hn Hp Hq Hr.
  pose proof (digits_shift p q n Hn Hp) as Hd. rewrite Hq in Hd.
  unfold binary_round_aux, shr_fexp. cbn [Zdigits2 shr_record_of_loc].
  rewrite Hd, (fexp_eq (53 + n) e) by lia.
  replace (53 + n - 53) with n by lia.
  assert (Hle : forall x, x <= 971 -> (x <=? emax - prec) = true)
    by (intros x Hx; apply Z.leb_le; unfold Number.emax, Number.prec; lia).
  destruct n as [|n|]; [| |lia].
  - assert (p = q) by lia. subst p.
    cbn [shr shr_m loc_of_shr_record round_nearest_even Zdigits2].
    rewrite Hq, (fexp_eq 53 e) by lia. change (53 - 53) with 0.
    cbn [shr shr_m]. replace (e + 0) with e by lia.
    rewrite Hle by lia. reflexivity.
  - assert (p = Pos.iter xO q n)
      by (apply Pos2Z.inj; rewrite iter_xO; exact Hp).
    subst p. cbn [shr]. rewrite shr_exact.
    cbn [shr_m loc_of_shr_record round_nearest_even Zdigits2].
    rewrite Hq, (fexp_eq 53 (e + Zpos n)) by lia. change (53 - 53) with 0.
    cbn [shr shr_m].
    rewrite Hle by lia. reflexivity.
Qed.

Lemma round_canon s p e q E :
  Zpos (digits2_pos q) = 53 -> -1074 <= E <= 971 ->
  (e <= E /\ Zpos p = Zpos q * 2 ^ (E - e))
  \/ (E < e /\ Zpos q = Zpos p * 2 ^ (e - E)) ->
  binary_round prec emax s p e = S754_finite s q E.
Proof.
  intros Hq HE [[Hle Hp]|[Hlt Hp]]; unfold binary_round.
  - pose proof (digits_shift p q (E - e) ltac:(lia) Hp) as Hd. rewrite Hq in Hd.
    assert (Hf : fexp prec emax (Zpos (digits2_pos p) + e) = E)
      by (rewrite Hd; unfold fexp, emin, Number.prec, Number.emax; lia).
    rewrite Hf. unfold shl_align.
    destruct (E - e) as [|d|d] eqn:Hsub; try lia.
    + rewrite (aux_canon s p e q 0) by (rewrite ?Z.pow_0_r; lia).
      f_equal. lia.
    + rewrite (aux_canon s p e q (Zpos d)) by lia. f_equal. lia.
  - pose proof (digits_shift q p (e - E) ltac:(lia) Hp) as Hd. rewrite Hq in Hd.
    assert (Hf : fexp prec emax (Zpos (digits2_pos p) + e) = E)
      by (unfold fexp, emin, Number.prec, Number.emax; lia).
    rewrite Hf. unfold shl_align.
    destruct (E - e) as [|d|d] eqn:Hsub; try lia.
    assert (Pos.iter xO p d = q).
    { apply Pos2Z.inj. rewrite iter_xO, Hp. f_equal. f_equal. lia. }
    subst q.
    rewrite (aux_canon s _ E (Pos.iter xO p d) 0) by (rewrite ?Z.pow_0_r; lia).
    f_equal. lia.
Qed.

(** [q] and [E] are the mantissa and the exponent of the double that holds
    the integer [p]. *)
Definition canon (p q : positive) (E : Z) : Prop :=
  E = Zpos (digits2_pos p) - 53 /\ E <= 0
  /\ Zpos (digits2_pos q) = 53 /\ Zpos q = Zpos p * 2 ^ (- E).

Lemma ofZ_finite s p :
  Zpos p < 2 ^ 53 ->
  exists q E, binary_round prec emax s p 0 = S754_finite s q E /\ canon p q E.
Proof.
  intros Hp. pose proof (digits_spec p) as [Dlo Dhi].
  set (d := Zpos (digits2_pos p)) in *.
  assert (Hd : 0 < d <= 53).
  { split; [subst d; lia|].
    destruct (Z.le_gt_cases d 53); [assumption|].
    assert (2 ^ 53 <= 2 ^ (d - 1)) by (apply Z.pow_le_mono_r; lia). lia. }
  assert (Hpos : 0 < 2 ^ (53 - d)) by (apply Z.pow_pos_nonneg; lia).
  exists (Z.to_pos (Zpos p * 2 ^ (53 - d))), (d - 53).
  assert (Hq : Zpos (Z.to_pos (Zpos p * 2 ^ (53 - d))) = Zpos p * 2 ^ (53 - d))
    by (apply Z2Pos.id; nia).
  assert (Hdq : Zpos (digits2_pos (Z.to_pos (Zpos p * 2 ^ (53 - d)))) = 53).
  { rewrite (digits_shift _ p (53 - d)) by (lia || exact Hq). fold d. lia. }
  split.
  - apply round_canon; [exact Hdq|lia|].
    destruct (Z.eq_dec d 53) as [He|Hne].
    + left. split; [lia|]. rewrite Hq.
      replace (d - 53 - 0) with 0 by lia. replace (53 - d) with 0 by lia.
      rewrite Z.pow_0_r. lia.
    + right. split; [lia|]. rewrite Hq. f_equal. f_equal. lia.
  - unfold canon. fold d. repeat split; try lia; try assumption.
    rewrite Hq. f_equal. f_equal. lia.
Qed.

Lemma round_scale s p k r :
  0 <= k -> Zpos p = Zpos r * 2 ^ k -> Zpos r < 2 ^ 53 ->
  binary_round prec emax s p (- k) = binary_round prec emax s r 0.
Proof.
  intros Hk Hp Hr.
  destruct (ofZ_finite s r Hr) as (q & E & -> & HE & HE0 & Hq & Hv).
  pose proof (digits_spec r).
  assert (-52 <= E) by lia.
  apply round_canon; [exact Hq|lia|].
  destruct (Z.le_gt_cases (- k) E).
  - left. split; [assumption|]. rewrite Hp, Hv, <- Z.mul_assoc.
    rewrite <- Z.pow_add_r by lia. f_equal. f_equal. lia.
  - right. split; [assumption|]. rewrite Hp, Hv, <- Z.mul_assoc.
    rewrite <- Z.pow_add_r by lia. f_equal. f_equal. lia.
Qed.


Lemma ofZ_shape z :
  Z.abs z < 2 ^ 53 ->
  match z with
  | 0 => ofZ z = S754_zero false
  | Zpos p => exists q E, ofZ z = S754_finite false q E /\ canon p q E
  | Zneg p => exists q E, ofZ z = S754_finite true q E /\ canon p q E
  end.
Proof.
  destruct z as [|p|p]; intros Hz; [reflexivity| |];
    apply ofZ_finite; lia.
Qed.

Lemma normalize_scale z k S :
  0 <= k -> S = z * 2 ^ k -> Z.abs z < 2 ^ 53 ->
  binary_normalize prec emax S (- k) false = ofZ z.
Proof.
  intros Hk HS Hz.
  assert (Hpos : 0 < 2 ^ k) by (apply Z.pow_pos_nonneg; lia).
  destruct z as [|r|r].
  - subst S. reflexivity.
  - destruct S as [|p|p]; try nia.
    apply round_scale; [assumption|exact HS|lia].
  - destruct S as [|p|p]; try nia.
    apply round_scale; [assumption| |lia].
    change (Zneg p) with (- Zpos p) in HS.
    change (Zneg r) with (- Zpos r) in HS. lia.
Qed.

Lemma shl_align_fst q E ez :
  ez <= E -> Zpos (fst (shl_align q E ez)) = Zpos q * 2 ^ (E - ez).
Proof.
  intros Hle. unfold shl_align.
  destruct (ez - E) as [|d|d] eqn:Hsub; try lia.
  - replace (E - ez) with 0 by lia. cbn [fst]. rewrite Z.pow_0_r. lia.
  - cbn [fst]. rewrite iter_xO. f_equal. f_equal. lia.
Qed.

Lemma add_finite sa sb pa pb qa qb Ea Eb :
  canon pa qa Ea -> canon pb qb Eb ->
  Z.abs (cond_Zopp sa (Zpos pa) + cond_Zopp sb (Zpos pb)) < 2 ^ 53 ->
  Number.add (S754_finite sa qa Ea) (S754_finite sb qb Eb)
  = ofZ (cond_Zopp sa (Zpos pa) + cond_Zopp sb (Zpos pb)).
Proof.
  intros (_ & Ha0 & _ & Ha) (_ & Hb0 & _ & Hb) Hsum.
  unfold Number.add, SFadd. cbv zeta.
  set (ez := Z.min Ea Eb).
  rewrite !shl_align_fst by (subst ez; lia).
  replace ez with (- (- ez)) at 3 by lia.
  apply normalize_scale; [subst ez; lia| |exact Hsum].
  rewrite Ha, Hb, <- !Z.mul_assoc, <- !Z.pow_add_r by (subst ez; lia).
  replace (- Ea + (Ea - ez)) with (- ez) by lia.
  replace (- Eb + (Eb - ez)) with (- ez) by lia.
  destruct sa, sb; cbn [cond_Zopp]; lia.
Qed.

Lemma add_exact a b :
  Z.abs a < 2 ^ 53 -> Z.abs b < 2 ^ 53 -> Z.abs (a + b) < 2 ^ 53 ->
  Number.add (ofZ a) (ofZ b) = ofZ (a + b).
Proof.
  intros Ha Hb Hab.
  pose proof (ofZ_shape a Ha) as Sa. pose proof (ofZ_shape b Hb) as Sb.
  destruct a as [|pa|pa], b as [|pb|pb]; rewrite ?Z.add_0_l, ?Z.add_0_r;
    try destruct Sa as (qa & Ea & Sa & Ca);
    try destruct Sb as (qb & Eb & Sb & Cb);
    rewrite ?Sa, ?Sb; try reflexivity.
  - apply (add_finite false false pa pb); [assumption..|exact Hab].
  - apply (add_finite false true pa pb); [assumption..|exact Hab].
  - apply (add_finite true false pa pb); [assumption..|exact Hab].
  - apply (add_finite true true pa pb); [assumption..|exact Hab].
Qed.


Lemma mul_finite s pa pb qa qb Ea Eb :
  canon pa qa Ea -> canon pb qb Eb -> Zpos (pa * pb) < 2 ^ 53 ->
  Number.mul (S754_finite s qa Ea) (S754_finite false qb Eb)
  = binary_round prec emax s (pa * pb) 0.
Proof.
  intros (_ & Ha0 & Hda & Ha) (_ & Hb0 & Hdb & Hb) Hab.
  destruct (ofZ_finite s (pa * pb) Hab) as (q & E & -> & HE & HE0 & Hdq & Hq).
  unfold Number.mul, SFmul. rewrite xorb_false_r.
  pose proof (digits_spec qa) as [La _]. rewrite Hda in La.
  pose proof (digits_spec qb) as [Lb _]. rewrite Hdb in Lb.
  pose proof (digits_spec q) as [_ Uq]. rewrite Hdq in Uq.
  change (53 - 1) with 52 in La, Lb.
  assert (Hprod : Zpos qa * Zpos qb * 2 ^ (- E)
                  = Zpos q * 2 ^ (- Ea + - Eb)).
  { rewrite Ha, Hb, Hq, Pos2Z.inj_mul, Z.pow_add_r by lia. ring. }
  assert (Hn : E - (Ea + Eb) >= 0).
  { destruct (Z.le_gt_cases (Ea + Eb) E) as [|Hgt]; [lia|]. exfalso.
    assert (He : - E = (- Ea + - Eb) + (Ea + Eb - E)) by lia.
    rewrite He, Z.pow_add_r in Hprod by lia.
    assert (0 < 2 ^ (- Ea + - Eb)) by (apply Z.pow_pos_nonneg; lia).
    assert (1 <= 2 ^ (Ea + Eb - E))
      by (change 1 with (2 ^ 0); apply Z.pow_le_mono_r; lia).
    assert (Zpos qa * Zpos qb * 2 ^ (Ea + Eb - E) = Zpos q) by nia.
    assert (2 ^ 52 * 2 ^ 52 <= Zpos qa * Zpos qb) by nia.
    assert (2 ^ 53 < 2 ^ 52 * 2 ^ 52) by (vm_compute; reflexivity).
    nia. }
  rewrite (aux_canon s (qa * qb) (Ea + Eb) q (E - (Ea + Eb))).
  - f_equal. lia.
  - lia.
  - rewrite Pos2Z.inj_mul.
    assert (He : - Ea + - Eb = (E - (Ea + Eb)) + - E) by lia.
    rewrite He, Z.pow_add_r, Z.mul_assoc in Hprod by lia.
    assert (0 < 2 ^ (- E)) by (apply Z.pow_pos_nonneg; lia).
    nia.
  - exact Hdq.
  - pose proof (digits_spec (pa * pb)). lia.
Qed.

Lemma mul_exact a b :
  0 < b -> Z.abs a < 2 ^ 53 -> b < 2 ^ 53 -> Z.abs (a * b) < 2 ^ 53 ->
  Number.mul (ofZ a) (ofZ b) = ofZ (a * b).
Proof.
  intros Hb0 Ha Hb Hab.
  pose proof (ofZ_shape a Ha) as Sa.
  pose proof (ofZ_shape b ltac:(lia)) as Sb.
  destruct b as [|pb|pb]; try lia.
  destruct Sb as (qb & Eb & Sb & Cb). rewrite Sb.
  destruct a as [|pa|pa]; rewrite ?Z.mul_0_l;
    try destruct Sa as (qa & Ea & Sa & Ca); rewrite Sa; try reflexivity.
  - apply (mul_finite false pa pb); [assumption..|exact Hab].
  - apply (mul_finite true pa pb); [assumption..|exact Hab].
Qed.

Lemma canon_compare pa pb qa qb Ea Eb :
  canon pa qa Ea -> canon pb qb Eb ->
  match Ea ?= Eb with
  | Eq => Pos.compare_cont Eq qa qb
  | Lt => Lt
  | Gt => Gt
  end = (Zpos pa ?= Zpos pb).
Proof.
  intros (HEa & Ha0 & _ & Ha) (HEb & Hb0 & _ & Hb).
  pose proof (digits_spec pa) as [La Ua].
  pose proof (digits_spec pb) as [Lb Ub].
  destruct (Z.compare_spec Ea Eb) as [Heq|Hlt|Hgt].
  - change (Pos.compare_cont Eq qa qb) with (Zpos qa ?= Zpos qb).
    rewrite Ha, Hb, Heq.
    assert (0 < 2 ^ (- Eb)) by (apply Z.pow_pos_nonneg; lia).
    destruct (Z.compare_spec (Zpos pa) (Zpos pb)) as [H1|H1|H1].
    + rewrite H1. apply Z.compare_refl.
    + apply Z.compare_lt_iff. nia.
    + apply Z.compare_gt_iff. nia.
  - symmetry. apply Z.compare_lt_iff.
    assert (2 ^ Zpos (digits2_pos pa) <= 2 ^ (Zpos (digits2_pos pb) - 1))
      by (apply Z.pow_le_mono_r; lia).
    lia.
  - symmetry. apply Z.compare_gt_iff.
    assert (2 ^ Zpos (digits2_pos pb) <= 2 ^ (Zpos (digits2_pos pa) - 1))
      by (apply Z.pow_le_mono_r; lia).
    lia.
Qed.

Lemma compare_exact a b :
  Z.abs a < 2 ^ 53 -> Z.abs b < 2 ^ 53 ->
  SFcompare (ofZ a) (ofZ b) = Some (a ?= b).
Proof.
  intros Ha Hb.
  pose proof (ofZ_shape a Ha) as Sa. pose proof (ofZ_shape b Hb) as Sb.
  destruct a as [|pa|pa], b as [|pb|pb];
    try destruct Sa as (qa & Ea & Sa & Ca);
    try destruct Sb as (qb & Eb & Sb & Cb);
    rewrite ?Sa, ?Sb; try reflexivity; cbn [SFcompare]; f_equal.
  - apply (canon_compare pa pb); assumption.
  - pose proof (canon_compare pa pb qa qb Ea Eb Ca Cb) as H.
    change (Zneg pa ?= Zneg pb) with (CompOpp (Zpos pa ?= Zpos pb)).
    rewrite <- H. destruct (Ea ?= Eb); reflexivity.
Qed.

Lemma ge_exact a b :
  Z.abs a < 2 ^ 53 -> Z.abs b < 2 ^ 53 ->
  Number.ge (ofZ a) (ofZ b) = (a >=? b).
Proof.
  intros Ha Hb. unfold Number.ge, SFleb. rewrite compare_exact by assumption.
  rewrite Z.geb_leb. unfold Z.leb. destruct (b ?= a); reflexivity.
Qed.

Lemma min_exact a b :
  Z.abs a < 2 ^ 53 -> Z.abs b < 2 ^ 53 ->
  Number.min (ofZ a) (ofZ b) = ofZ (Z.min a b).
Proof.
  intros Ha Hb.
  assert (Hlt : SFltb (ofZ b) (ofZ a) = (b <? a))
    by (unfold SFltb; rewrite compare_exact by assumption; reflexivity).
  assert (Hmin : ofZ (Z.min a b) = if b <? a then ofZ b else ofZ a).
  { destruct (Z.ltb_spec b a); [rewrite Z.min_r|rewrite Z.min_l];
      (reflexivity || lia). }
  rewrite Hmin, <- Hlt.
  pose proof (ofZ_shape a Ha) as Sa. pose proof (ofZ_shape b Hb) as Sb.
  destruct a as [|pa|pa], b as [|pb|pb];
    try destruct Sa as (qa & Ea & Sa & Ca);
    try destruct Sb as (qb & Eb & Sb & Cb);
    rewrite ?Sa, ?Sb; reflexivity.
Qed.

End DoubleArithmetic.

(** ** Risk scoring *)

Section RiskScoring.
Import RiskModel RiskEngine SpecFloat.

(** The sum the spec writes as Σ severity_i × 5. *)
Definition weightedSum (signals : list RiskSignal) : Z :=
  fold_right (fun s acc => severity s * 5 + acc) 0 signals.

Lemma reduce_from (signals : list RiskSignal) (start : Z) :
  fold_left (fun sum s => sum + severity s * 5) signals start
  = start + weightedSum signals.
Proof.
  revert start. induction signals as [|s rest IH]; intros start; simpl.
  - lia.
  - rewrite IH. lia.
Qed.

Lemma classify_thresholds (score : Z) :
  (score < 30 -> RiskEngine.classify score = LOW)
  /\ (30 <= score < 60 -> RiskEngine.classify score = MEDIUM)
  /\ (60 <= score < 80 -> RiskEngine.classify score = HIGH)
  /\ (80 <= score -> RiskEngine.classify score = CRITICAL).
Proof.
  unfold RiskEngine.classify.
  repeat split; intros H;
    repeat (match goal with
            | |- context [?a >=? ?b] => destruct (Z.geb_spec a b); try lia
            end); reflexivity.
Qed.

(** The engine on integers: the score is min(100, Σ severity_i × 5) and the
    level is the one that score falls in. *)
Lemma evaluate_integers :
  forall (sessionId subjectId : string) (signals : list RiskSignal) (now : Z),
    let profile := RiskEngine.evaluate sessionId subjectId signals now in
    riskScore profile = Z.min 100 (weightedSum signals)
    /\ (riskLevel profile = LOW <-> riskScore profile < 30)
    /\ (riskLevel profile = MEDIUM <-> 30 <= riskScore profile < 60)
    /\ (riskLevel profile = HIGH <-> 60 <= riskScore profile < 80)
    /\ (riskLevel profile = CRITICAL <-> 80 <= riskScore profile)
    /\ (forall now', 
          riskScore (RiskEngine.evaluate sessionId subjectId signals now')
            = riskScore profile
          /\ riskLevel (RiskEngine.evaluate sessionId subjectId signals now')
            = riskLevel profile)
    /\ (forall e1 e2,
          let p := RiskEngine.evaluate sessionId subjectId
                     [mkSignal IP_ANOMALY 3 e1; mkSignal DEVICE_MISMATCH 7 e2]
                     now in
          riskScore p = 50 /\ riskLevel p = MEDIUM)
    /\ (let p := RiskEngine.evaluate sessionId subjectId [] now in
        riskScore p = 0 /\ riskLevel p = LOW).
Proof.
  intros sessionId subjectId signals now profile.
  assert (Hscore : riskScore profile = Z.min 100 (weightedSum signals)).
  { unfold profile, RiskEngine.evaluate; simpl.
    rewrite reduce_from. lia. }
  assert (Hlevel : riskLevel profile = RiskEngine.classify (riskScore profile))
    by reflexivity.
  destruct (classify_thresholds (riskScore profile)) as (Hl & Hm & Hh & Hc).
  split; [exact Hscore|].
  repeat split; try reflexivity.
  - intros Heq. rewrite Hlevel in Heq.
    destruct (Z_lt_ge_dec (riskScore profile) 30) as [|Hge]; [assumption|].
    destruct (Z_lt_ge_dec (riskScore profile) 60);
      [rewrite Hm in Heq by lia; discriminate|].
    destruct (Z_lt_ge_dec (riskScore profile) 80);
      [rewrite Hh in Heq by lia; discriminate|].
    rewrite Hc in Heq by lia; discriminate.
  - intros H. rewrite Hlevel. auto.
  - rewrite Hlevel in H.
    destruct (Z_lt_ge_dec (riskScore profile) 30);
      [rewrite Hl in H by lia; discriminate|lia].
  - rewrite Hlevel in H.
    destruct (Z_lt_ge_dec (riskScore profile) 60); [assumption|].
    destruct (Z_lt_ge_dec (riskScore profile) 80);
      [rewrite Hh in H by lia; discriminate|].
    rewrite Hc in H by lia; discriminate.
  - intros H. rewrite Hlevel. auto.
  - rewrite Hlevel in H.
    destruct (Z_lt_ge_dec (riskScore profile) 60); [|lia].
    destruct (Z_lt_ge_dec (riskScore profile) 30);
      [rewrite Hl in H by lia; discriminate|].
    rewrite Hm in H by lia; discriminate.
  - rewrite Hlevel in H.
    destruct (Z_lt_ge_dec (riskScore profile) 80); [assumption|].
    rewrite Hc in H by lia; discriminate.
  - intros H. rewrite Hlevel. auto.
  - intros Heq. rewrite Hlevel in Heq.
    destruct (Z_lt_ge_dec (riskScore profile) 80) as [Hlt|]; [|lia].
    destruct (Z_lt_ge_dec (riskScore profile) 30);
      [rewrite Hl in Heq by lia; discriminate|].
    destruct (Z_lt_ge_dec (riskScore profile) 60);
      [rewrite Hm in Heq by lia; discriminate|].
    rewrite Hh in Heq by lia; discriminate.
  - intros H. rewrite Hlevel. auto.
Qed.

(** *** The engine on doubles *)

(** Five times the sum of the magnitudes of the severities: what every
    partial sum of the engine stays within. *)
Definition magnitude (signals : list RiskSignal) : Z :=
  fold_right (fun s acc => Z.abs (severity s) * 5 + acc) 0 signals.

Lemma magnitude_nonneg signals : 0 <= magnitude signals.
Proof. unfold magnitude. induction signals as [|s rest IH]; cbn; lia. Qed.

Lemma magnitude_cons s rest :
  magnitude (s :: rest) = Z.abs (severity s) * 5 + magnitude rest.
Proof. reflexivity. Qed.

Lemma reduce_exact (signals : list RiskSignal) (start : Z) :
  Z.abs start + magnitude signals < 2 ^ 53 ->
  fold_left (fun sum s => Number.add sum (Number.mul (Binary64.severity s) (Number.ofZ 5)))
    (map Binary64.ofSignal signals) (Number.ofZ start)
  = Number.ofZ (fold_left (fun sum s => sum + severity s * 5) signals start).
Proof.
  revert start. induction signals as [|s rest IH]; intros start H; [reflexivity|].
  rewrite magnitude_cons in H. cbn [map fold_left].
  pose proof (magnitude_nonneg rest).
  cbn [Binary64.ofSignal Binary64.severity].
  rewrite mul_exact, add_exact by lia.
  apply IH. lia.
Qed.

Lemma classify_exact (n : Z) :
  Z.abs n < 2 ^ 53 -> Binary64.classify (Number.ofZ n) = RiskEngine.classify n.
Proof.
  intros H. unfold Binary64.classify, RiskEngine.classify.
  rewrite !ge_exact by lia. reflexivity.
Qed.

Lemma weightedSum_bound signals : Z.abs (weightedSum signals) <= magnitude signals.
Proof.
  unfold weightedSum, magnitude.
  induction signals as [|s rest IH]; cbn; lia.
Qed.

Lemma evaluate_exact sid subj (signals : list RiskSignal) now :
  magnitude signals < 2 ^ 53 ->
  Binary64.evaluate sid subj (map Binary64.ofSignal signals) now
  = Binary64.ofProfile (RiskEngine.evaluate sid subj signals now).
Proof.
  intros H. pose proof (weightedSum_bound signals).
  unfold Binary64.evaluate, RiskEngine.evaluate, Binary64.ofProfile.
  cbn [RiskModel.sessionId RiskModel.subjectId RiskModel.riskScore
       RiskModel.riskLevel RiskModel.signals RiskModel.evaluatedAt].
  rewrite reduce_exact by (cbn; lia).
  rewrite reduce_from, Z.add_0_l.
  rewrite min_exact by lia.
  rewrite classify_exact by lia. reflexivity.
Qed.

(** The thresholds as [classify] tests them, on any number. *)
Lemma ge_descends (x : Number.t) :
  (Number.ge x (Number.ofZ 80) = true -> Number.ge x (Number.ofZ 60) = true)
  /\ (Number.ge x (Number.ofZ 60) = true -> Number.ge x (Number.ofZ 30) = true).
Proof.
  change (Number.ofZ 80) with (S754_finite false 5629499534213120 (-46)).
  change (Number.ofZ 60) with (S754_finite false 8444249301319680 (-47)).
  change (Number.ofZ 30) with (S754_finite false 8444249301319680 (-48)).
  unfold Number.ge, SFleb, SFcompare.
  destruct x as [[|]|[|]| |[|] m e]; split; try discriminate; try reflexivity.
  - destruct (Z.compare_spec (-46) e), (Z.compare_spec (-47) e);
      try lia; try discriminate; reflexivity.
  - destruct (Z.compare_spec (-47) e), (Z.compare_spec (-48) e);
      try lia; try discriminate; reflexivity.
Qed.

Lemma classify_number (score : Number.t) :
  (Binary64.classify score = CRITICAL <-> Number.ge score (Number.ofZ 80) = true)
  /\ (Binary64.classify score = HIGH
      <-> Number.ge score (Number.ofZ 60) = true
          /\ Number.ge score (Number.ofZ 80) = false)
  /\ (Binary64.classify score = MEDIUM
      <-> Number.ge score (Number.ofZ 30) = true
          /\ Number.ge score (Number.ofZ 60) = false)
  /\ (Binary64.classify score = LOW <-> Number.ge score (Number.ofZ 30) = false).
Proof.
  destruct (ge_descends score) as [H1 H2]. unfold Binary64.classify.
  destruct (Number.ge score (Number.ofZ 80)) eqn:E80;
    destruct (Number.ge score (Number.ofZ 60)) eqn:E60;
    destruct (Number.ge score (Number.ofZ 30)) eqn:E30;
    try (specialize (H1 eq_refl)); try (specialize (H2 eq_refl));
    try discriminate;
    repeat split; try discriminate; try reflexivity;
    intros; try discriminate; intuition discriminate.
Qed.

(** The double a decimal literal [n/d] is: the one nearest to the quotient,
    which is what dividing the doubles [n] and [d] gives. *)
Definition literal (n d : Z) : Number.t := Number.div (Number.ofZ n) (Number.ofZ d).

(** A signal of severity [n/100], and one of integer severity [n]. *)
Definition fractional (n : Z) : Binary64.RiskSignal :=
  Binary64.mkSignal BEHAVIOR_ANOMALY (literal n 100) "".

Definition integral (n : Z) : RiskSignal := mkSignal BEHAVIOR_ANOMALY n "".

(** The severities 2^54, 5 and -2^54 sum to 5, so the claim has score 25 and
    LOW; the engine returns 32 and MEDIUM, the 25 being rounded when it is
    added to 5 × 2^54. Within [1,10]: the severities 1.76, 4.81 and 9.43 are
    classified CRITICAL in this order and HIGH in the order 4.81, 9.43,
    1.76, so no function of their sum gives the level. *)
Lemma evaluate_rounds :
  (let p := Binary64.evaluate "s1" "u1"
              (map Binary64.ofSignal [integral (2 ^ 54); integral 5; integral (- 2 ^ 54)]) 0 in
   Binary64.riskScore p = Number.ofZ 32 /\ Binary64.riskLevel p = MEDIUM)
  /\ Z.min 100 (weightedSum [integral (2 ^ 54); integral 5; integral (- 2 ^ 54)]) = 25
  /\ Number.ofZ 32 <> Number.ofZ 25
  /\ Binary64.riskLevel (Binary64.evaluate "s1" "u1" [fractional 176; fractional 481; fractional 943] 0)
     = CRITICAL
  /\ Binary64.riskLevel (Binary64.evaluate "s1" "u1" [fractional 481; fractional 943; fractional 176] 0)
     = HIGH.
Proof.
  split; [split; vm_compute; reflexivity|].
  split; [vm_compute; reflexivity|].
  split; [vm_compute; discriminate|].
  split; vm_compute; reflexivity.
Qed.

(** The three literals, spelt out. *)
Lemma literal_check :
  literal 176 100 = S754_finite false 7926335344172073 (-52)
  /\ literal 481 100 = S754_finite false 5415578551913021 (-50)
  /\ literal 943 100 = S754_finite false 5308618060762972 (-49).
Proof. repeat split; vm_compute; reflexivity. Qed.

(** C3 as the code has it. For every list of signals, of whatever severity,
    and every evaluation instant, [evaluate] returns a level classified from
    the score it returns: CRITICAL when the score is at least 80, HIGH when
    it is at least 60 but not 80, MEDIUM when at least 30 but not 60, LOW
    otherwise; and the result depends on the signals only (the instant
    changes nothing but [evaluatedAt]). When the severities are integers
    and five times the sum of their magnitudes is below 2^53, the score is
    min(100, Σ severity_i × 5) and the level is LOW below 30, MEDIUM in
    [30,60), HIGH in [60,80), CRITICAL from 80 on. Severities 3 and 7 give
    score 50 and MEDIUM, no signal gives score 0 and LOW. *)
Theorem evaluate_score_and_level :
  forall (sessionId subjectId : string) (signals : list Binary64.RiskSignal)
         (now : Z),
    let profile := Binary64.evaluate sessionId subjectId signals now in
    let score := Binary64.riskScore profile in
    (Binary64.riskLevel profile = CRITICAL
       <-> Number.ge score (Number.ofZ 80) = true)
    /\ (Binary64.riskLevel profile = HIGH
        <-> Number.ge score (Number.ofZ 60) = true
            /\ Number.ge score (Number.ofZ 80) = false)
    /\ (Binary64.riskLevel profile = MEDIUM
        <-> Number.ge score (Number.ofZ 30) = true
            /\ Number.ge score (Number.ofZ 60) = false)
    /\ (Binary64.riskLevel profile = LOW
        <-> Number.ge score (Number.ofZ 30) = false)
    /\ (forall now',
          Binary64.riskScore (Binary64.evaluate sessionId subjectId signals now') = score
          /\ Binary64.riskLevel (Binary64.evaluate sessionId subjectId signals now')
             = Binary64.riskLevel profile)
    /\ (forall integers : list RiskSignal,
          signals = map Binary64.ofSignal integers ->
          magnitude integers < 2 ^ 53 ->
          let sum := Z.min 100 (weightedSum integers) in
          score = Number.ofZ sum
          /\ (Binary64.riskLevel profile = LOW <-> sum < 30)
          /\ (Binary64.riskLevel profile = MEDIUM <-> 30 <= sum < 60)
          /\ (Binary64.riskLevel profile = HIGH <-> 60 <= sum < 80)
          /\ (Binary64.riskLevel profile = CRITICAL <-> 80 <= sum))
    /\ (forall e1 e2,
          let p := Binary64.evaluate sessionId subjectId
                     (map Binary64.ofSignal
                        [mkSignal IP_ANOMALY 3 e1;
                         mkSignal DEVICE_MISMATCH 7 e2]) now in
          Binary64.riskScore p = Number.ofZ 50 /\ Binary64.riskLevel p = MEDIUM)
    /\ (let p := Binary64.evaluate sessionId subjectId [] now in
        Binary64.riskScore p = Number.ofZ 0 /\ Binary64.riskLevel p = LOW).
Proof.
  intros sessionId subjectId signals now profile score.
  destruct (classify_number score) as (Hc & Hh & Hm & Hl).
  split; [exact Hc|]. split; [exact Hh|]. split; [exact Hm|].
  split; [exact Hl|]. split; [split; reflexivity|].
  split; [|split; [intros e1 e2; split; vm_compute; reflexivity
                  |split; vm_compute; reflexivity]].
  intros integers -> Hmag sum.
  subst score profile. rewrite evaluate_exact by assumption.
  cbn [Binary64.ofProfile Binary64.riskScore Binary64.riskLevel].
  destruct (evaluate_integers sessionId subjectId integers now)
    as (-> & H2 & H3 & H4 & H5 & _).
  fold sum in H2, H3, H4, H5. auto.
Qed.

Lemma evaluate_score_and_level_witness :
  Binary64.riskScore (Binary64.evaluate "s1" "u1"
                 (map Binary64.ofSignal [integral 3; integral 7; integral 6]) 0)
  = Number.ofZ 80
  /\ Binary64.riskLevel (Binary64.evaluate "s1" "u1"
                    (map Binary64.ofSignal [integral 3; integral 7; integral 6]) 0)
     = CRITICAL.
Proof.
  destruct (evaluate_score_and_level "s1" "u1"
              (map Binary64.ofSignal [integral 3; integral 7; integral 6]) 0)
    as (_ & _ & _ & _ & _ & Hint & _).
  destruct (Hint [integral 3; integral 7; integral 6] eq_refl
              ltac:(vm_compute; reflexivity)) as (Hs & _ & _ & _ & Hc).
  split; [exact Hs|]. apply Hc. vm_compute. discriminate.
Defined.

End RiskScoring.

(** ** Worlds the services can reach, and what holds in all of them *)

Module Trace.

(** One thing that happens to the world: time passing, or a call of one of
    the services or hooks with its arguments. *)
Inductive Op :=
| Advance (ms : N)
| Create (uuid subjectId : string) (deviceId : option string) (mfaVerified : bool)
| UpdateRisk (sessionId : string) (riskLevel : RiskModel.RiskLevel)
    (lastEvaluatedAt : Z)
| Get (sessionId : string)
| Revoke (sessionId : string)
| RevokeAllForSubject (subjectId : string)
| EnforceRateLimit (sessionId : string) (limit : Z)
| CaeHook (request : Http.Request)
| ThrottleHook (request : Http.Request)
| InsertEntitlement (row : Entitlement.t)
| RevokeEntitlement (entitlementId revokedBy reason : string).

Definition step (w : World.t) (op : Op) : World.t :=
  match op with
  | Advance ms => World.advance ms w
  | Create uuid subjectId deviceId mfaVerified =>
      (SessionService.create uuid subjectId deviceId mfaVerified w).2
  | UpdateRisk sessionId riskLevel lastEvaluatedAt =>
      (SessionService.updateRisk sessionId riskLevel lastEvaluatedAt w).2
  | Get sessionId => (SessionService.get sessionId w).2
  | Revoke sessionId => (SessionService.revoke sessionId w).2
  | RevokeAllForSubject subjectId =>
      (SessionService.revokeAllForSubject subjectId w).2
  | EnforceRateLimit sessionId limit =>
      (RateLimit.enforceRateLimit sessionId limit w).2
  | CaeHook request => (Cae.continuousAccessEvaluation request w).2
  | ThrottleHook request => (RiskThrottle.riskThrottle request w).2
  | InsertEntitlement row => (Prisma.create row w).2
  | RevokeEntitlement entitlementId revokedBy reason =>
      (EntitlementService.revoke entitlementId revokedBy reason w).2
  end.

Definition runFrom (w : World.t) (ops : list Op) : World.t :=
  fold_left step ops w.

(** The world after [ops], starting with an empty Redis at instant 0. *)
Definition run (ops : list Op) : World.t := runFrom World.empty ops.

End Trace.

Module Invariants.
Import World SessionService.

Definition TTL_MS : Z := SESSION_TTL_SECONDS * 1000.

(** What holds of the key of a session [id]: it is the JSON of a session with
    that id and no tenant, it expires no later than a full lifetime from now,
    and the subject's index lists it and outlives it. *)
Definition sessionEntryOk (w : World.t) (id : string) (e : Entry) : Prop :=
  exists s t,
    e = mkEntry (VJson s) (Some t)
    /\ Session.id s = id
    /\ Session.tenantId s = None
    /\ clock w < t <= clock w + TTL_MS
    /\ exists members ti,
         redis w !! indexKey (Session.subjectId s)
           = Some (mkEntry (VSet members) (Some ti))
         /\ id ∈ members /\ t < ti.

(** A subject index is a set that is not empty (SREM drops the key with the
    last member). *)
Definition indexEntryOk (e : Entry) : Prop :=
  exists members ttl, e = mkEntry (VSet members) ttl /\ members <> ∅.

Definition rateEntryOk (w : World.t) (e : Entry) : Prop :=
  exists n t,
    e = mkEntry (VInt n) (Some t) /\ 1 <= n /\ clock w < t <= clock w + 60000.

(** The invariant of the keyspace. *)
Record wf (w : World.t) : Prop := mkWf {
  wf_session : forall id e,
    redis w !! sessionKey id = Some e -> sessionEntryOk w id e;
  wf_index : forall subjectId e,
    redis w !! indexKey subjectId = Some e -> indexEntryOk e;
  wf_rate : forall sessionId e,
    redis w !! RateLimit.rateKey sessionId = Some e -> rateEntryOk w e
}.

(** Frames: what a call leaves alone. *)
Definition noNewSessions (w w' : World.t) : Prop :=
  forall id, redis w !! sessionKey id = None -> redis w' !! sessionKey id = None.

Definition sameRates (w w' : World.t) : Prop :=
  forall x, redis w' !! RateLimit.rateKey x = redis w !! RateLimit.rateKey x.

Definition sameBackground (w w' : World.t) : Prop :=
  clock w' = clock w /\ entitlementTable w' = entitlementTable w.

(** The session [create] writes at instant [now]. *)
Definition newSession (now : Z) (uuid subjectId : string)
    (deviceId : option string) (mfaVerified : bool) : Session.t :=
  {| Session.id := uuid;
     Session.subjectId := subjectId;
     Session.deviceId := deviceId;
     Session.tenantId := None;
     Session.createdAt := now;
     Session.expiresAt := now + SESSION_TTL_SECONDS * 1000;
     Session.revokedAt := None;
     Session.riskLevel := RiskModel.LOW;
     Session.mfaVerified := mfaVerified;
     Session.lastEvaluatedAt := now |}.

(** A session with the two fields [updateRisk] assigns. *)
Definition withRisk (level : RiskModel.RiskLevel) (evaluatedAt : Z)
    (s : Session.t) : Session.t :=
  {| Session.id := Session.id s;
     Session.subjectId := Session.subjectId s;
     Session.deviceId := Session.deviceId s;
     Session.tenantId := Session.tenantId s;
     Session.createdAt := Session.createdAt s;
     Session.expiresAt := Session.expiresAt s;
     Session.revokedAt := Session.revokedAt s;
     Session.riskLevel := level;
     Session.mfaVerified := Session.mfaVerified s;
     Session.lastEvaluatedAt := evaluatedAt |}.

(** The keyspace after DEL of [keys]. *)
Definition deleteAll (keys : list string) (r : gmap string Entry)
    : gmap string Entry :=
  fold_left (fun r k => delete k r) keys r.

(** The session stored under an id, if one is. *)
Definition sessionAt (w : World.t) (id : string) : option Session.t :=
  match redis w !! sessionKey id with
  | Some {| value := VJson s |} => Some s
  | _ => None
  end.

(** The members of a subject's index, empty without the key. *)
Definition indexOf (w : World.t) (subjectId : string) : gset string :=
  match redis w !! indexKey subjectId with
  | Some {| value := VSet members |} => members
  | _ => ∅
  end.

End Invariants.

(** *** Keys *)

Section Keys.
Import SessionService.

Lemma sessionKey_inj a b : sessionKey a = sessionKey b -> a = b.
Proof. unfold sessionKey; apply String.app_inj. Qed.

Lemma indexKey_inj a b : indexKey a = indexKey b -> a = b.
Proof. unfold indexKey; apply String.app_inj. Qed.

Lemma rateKey_inj a b : RateLimit.rateKey a = RateLimit.rateKey b -> a = b.
Proof. unfold RateLimit.rateKey; apply String.app_inj. Qed.

Lemma sessionKey_indexKey a b : sessionKey a <> indexKey b.
Proof. unfold sessionKey, indexKey; cbv [String.append]; congruence. Qed.

Lemma sessionKey_rateKey a b : sessionKey a <> RateLimit.rateKey b.
Proof. unfold sessionKey, RateLimit.rateKey; cbv [String.append]; congruence. Qed.

Lemma indexKey_rateKey a b : indexKey a <> RateLimit.rateKey b.
Proof. unfold indexKey, RateLimit.rateKey; cbv [String.append]; congruence. Qed.

Lemma sessionKey_ne a b : a <> b -> sessionKey a <> sessionKey b.
Proof. intros H E; apply H, sessionKey_inj, E. Qed.

Lemma indexKey_ne a b : a <> b -> indexKey a <> indexKey b.
Proof. intros H E; apply H, indexKey_inj, E. Qed.

Lemma rateKey_ne a b : a <> b -> RateLimit.rateKey a <> RateLimit.rateKey b.
Proof. intros H E; apply H, rateKey_inj, E. Qed.

End Keys.

Create HintDb keys discriminated.
#[export] Hint Resolve sessionKey_indexKey sessionKey_rateKey indexKey_rateKey
  sessionKey_ne indexKey_ne rateKey_ne : keys.
#[export] Hint Extern 1 (_ <> _) => apply not_eq_sym : keys.

(** *** The session service, call by call *)

Ltac run_unfold :=
  unfold Redis.get, Redis.setEX, Redis.setKEEPTTL, Redis.sadd, Redis.srem,
    Redis.smembers, Redis.expire, Redis.incr, Redis.store, Redis.remove,
    Redis.lookup, World.dateNow, audit.log, Js.throw,
    SessionService.parseSession, mbind, mret, Js.M_bind, Js.M_ret;
  cbn -[Redis.del].

Ltac other_key := rewrite lookup_insert_ne by auto with keys.

Section SessionStore.
Import World SessionService Invariants.

Lemma bind_ok {W A B} (m : Js.M W A) (k : A -> Js.M W B) w a w' :
  m w = (Js.Ok a, w') -> (m ≫= k) w = k a w'.
Proof. intros H. unfold mbind, Js.M_bind. rewrite H. reflexivity. Qed.

Lemma bind_throw {W A B} (m : Js.M W A) (k : A -> Js.M W B) w e w' :
  m w = (Js.Throw e, w') -> (m ≫= k) w = (Js.Throw e, w').
Proof. intros H. unfold mbind, Js.M_bind. rewrite H. reflexivity. Qed.

Lemma lookup_deleteAll keys (r : gmap string Entry) k :
  deleteAll keys r !! k = if decide (k ∈ keys) then None else r !! k.
Proof.
  revert r. induction keys as [|k' keys IH]; intros r; cbn.
  - case_decide as H; [by apply elem_of_nil in H|reflexivity].
  - rewrite IH. destruct (decide (k = k')) as [->|Hne].
    + rewrite lookup_delete_eq.
      repeat case_decide; try reflexivity; exfalso; set_solver.
    + rewrite lookup_delete_ne by auto.
      repeat case_decide; try reflexivity; exfalso; set_solver.
Qed.

Lemma del_run keys w :
  exists n, Redis.del keys w = (Js.Ok n, setRedis (deleteAll keys (redis w)) w).
Proof.
  revert w. induction keys as [|k keys IH]; intros w.
  - exists 0. destruct w; reflexivity.
  - cbn [Redis.del]. run_unfold. cbn.
    destruct (IH (setRedis (delete k (redis w)) w)) as (n & Hn).
    rewrite Hn. cbn. eexists. reflexivity.
Qed.

Lemma get_run w sid :
  wf w -> SessionService.get sid w = (Js.Ok (sessionAt w sid), w).
Proof.
  intros Hwf. unfold SessionService.get, sessionAt. run_unfold.
  destruct (redis w !! sessionKey sid) as [e|] eqn:E; [|reflexivity].
  destruct (wf_session w Hwf _ _ E) as (s & t & -> & _). reflexivity.
Qed.

Lemma create_run w uuid subj dev mfa :
  wf w ->
  exists w',
    create uuid subj dev mfa w
      = (Js.Ok (newSession (clock w) uuid subj dev mfa), w')
    /\ wf w'
    /\ sameBackground w w' /\ auditTrail w' = auditTrail w
    /\ sameRates w w'
    /\ redis w' !! sessionKey uuid
       = Some (mkEntry (VJson (newSession (clock w) uuid subj dev mfa))
                 (Some (clock w + TTL_MS)))
    /\ (forall id, id <> uuid ->
          redis w' !! sessionKey id = redis w !! sessionKey id)
    /\ indexOf w' subj = {[uuid]} ∪ indexOf w subj.
Proof.
  intros Hwf.
  set (s := newSession (clock w) uuid subj dev mfa).
  exists (setRedis
            (<[indexKey subj :=
                 mkEntry (VSet ({[uuid]} ∪ indexOf w subj))
                   (Some (clock w + (SESSION_TTL_SECONDS + 60) * 1000))]>
               (<[sessionKey uuid := mkEntry (VJson s) (Some (clock w + TTL_MS))]>
                  (redis w))) w).
  split.
  { unfold create, indexOf. run_unfold. other_key.
    destruct (redis w !! indexKey subj) as [e|] eqn:E.
    - destruct (wf_index w Hwf _ _ E) as (m & ttl & -> & _). cbn.
      rewrite lookup_insert_eq. cbn. rewrite insert_insert_eq. reflexivity.
    - cbn. rewrite lookup_insert_eq. cbn. rewrite insert_insert_eq.
      rewrite (right_id_L ∅ (∪)). reflexivity. }
  split.
  { constructor; cbn.
    - intros id e. other_key.
      destruct (decide (id = uuid)) as [->|Hne].
      + rewrite lookup_insert_eq. intros [= <-].
        exists s, (clock w + TTL_MS). cbn.
        do 4 (split; [first [reflexivity
                            | unfold TTL_MS, SESSION_TTL_SECONDS; lia]|]).
        exists ({[uuid]} ∪ indexOf w subj), (clock w + (28800 + 60) * 1000).
        rewrite lookup_insert_eq. split; [reflexivity|].
        split; [set_solver|unfold TTL_MS, SESSION_TTL_SECONDS; lia].
      + other_key. intros E.
        destruct (wf_session w Hwf _ _ E)
          as (s' & t' & -> & Hid & Hten & Ht & m & ti & Hm & Hin & Hlt).
        exists s', t'.
        do 4 (split; [first [reflexivity | assumption | cbn; lia]|]).
        destruct (decide (Session.subjectId s' = subj)) as [Hs|Hs].
        * cbn. rewrite Hs. rewrite lookup_insert_eq.
          eexists _, _. split; [reflexivity|].
          unfold indexOf. rewrite Hs in Hm. rewrite Hm.
          split; [set_solver|]. unfold TTL_MS, SESSION_TTL_SECONDS in *. lia.
        * cbn. other_key. other_key. exists m, ti. auto.
    - intros subj' e.
      destruct (decide (subj' = subj)) as [->|Hne].
      + rewrite lookup_insert_eq. intros [= <-]. eexists _, _.
        split; [reflexivity|set_solver].
      + other_key. other_key. apply (wf_index w Hwf).
    - intros x e. other_key. other_key. apply (wf_rate w Hwf). }
  cbn. split; [split; reflexivity|]. split; [reflexivity|].
  split; [|split; [|split]].
  - intros x. cbn. other_key. other_key. reflexivity.
  - other_key. rewrite lookup_insert_eq. reflexivity.
  - intros id Hne. other_key. other_key. reflexivity.
  - unfold indexOf at 1. cbn. rewrite lookup_insert_eq. reflexivity.
Qed.

Lemma updateRisk_run w sid level evaluatedAt :
  wf w ->
  exists w',
    updateRisk sid level evaluatedAt w = (Js.Ok tt, w')
    /\ wf w' /\ sameBackground w w' /\ auditTrail w' = auditTrail w
    /\ sameRates w w'
    /\ (forall id, id <> sid ->
          redis w' !! sessionKey id = redis w !! sessionKey id)
    /\ sessionAt w' sid = withRisk level evaluatedAt <$> sessionAt w sid
    /\ (forall subj, indexOf w' subj = indexOf w subj).
Proof.
  intros Hwf. unfold updateRisk, sessionAt. run_unfold.
  destruct (redis w !! sessionKey sid) as [e|] eqn:E.
  - destruct (wf_session w Hwf _ _ E)
      as (s & t & -> & Hid & Hten & Ht & m & ti & Hm & Hin & Hlt).
    subst sid. cbn. rewrite E. cbn.
    eexists. split; [reflexivity|].
    split.
    { constructor; cbn.
      - intros id e. destruct (decide (id = Session.id s)) as [->|Hne].
        + rewrite lookup_insert_eq. intros [= <-].
          exists (withRisk level evaluatedAt s), t. cbn.
          do 4 (split; [first [reflexivity | assumption]|]).
          other_key. eauto.
        + other_key. intros E'.
          destruct (wf_session w Hwf _ _ E')
            as (s' & t' & -> & Hid' & Hten' & Ht' & m' & ti' & Hm' & Hin' & Hlt').
          exists s', t'. cbn.
          do 4 (split; [first [reflexivity | assumption]|]).
          other_key. eauto.
      - intros subj e. other_key. apply (wf_index w Hwf).
      - intros x e. other_key. apply (wf_rate w Hwf). }
    cbn. split; [split; reflexivity|]. split; [reflexivity|].
    split; [|split; [|split]].
    + intros x. cbn. other_key. reflexivity.
    + intros id Hne. cbn. other_key. reflexivity.
    + cbn. rewrite lookup_insert_eq. reflexivity.
    + intros subj. unfold indexOf. cbn. other_key. reflexivity.
  - exists w. split; [reflexivity|]. split; [assumption|].
    split; [split; reflexivity|]. split; [reflexivity|].
    split; [intros x; reflexivity|]. split; [reflexivity|].
    rewrite E. split; reflexivity.
Qed.

End SessionStore.

Section SessionStoreRevocation.
Import World SessionService Invariants.

Definition revokedEntry (s : Session.t) (sid : string) : AuditEntry.t :=
  {| AuditEntry.action := "SESSION_REVOKED";
     AuditEntry.actorId := Session.subjectId s;
     AuditEntry.targetId := None;
     AuditEntry.metadata := [("sessionId", Js.JStr sid)] |}.

Lemma revoke_run w sid :
  wf w ->
  exists w',
    revoke sid w = (Js.Ok tt, w')
    /\ wf w' /\ sameBackground w w' /\ sameRates w w'
    /\ redis w' !! sessionKey sid = None
    /\ (forall id, id <> sid ->
          redis w' !! sessionKey id = redis w !! sessionKey id)
    /\ auditTrail w'
       = (auditTrail w
          ++ match sessionAt w sid with
             | Some s => [revokedEntry s sid]
             | None => []
             end)%list
    /\ (forall subj,
          indexOf w' subj
          = if bool_decide (Session.subjectId <$> sessionAt w sid = Some subj)
            then indexOf w subj ∖ {[sid]} else indexOf w subj).
Proof.
  intros Hwf. unfold revoke, sessionAt. run_unfold.
  destruct (redis w !! sessionKey sid) as [e|] eqn:E.
  - destruct (wf_session w Hwf _ _ E)
      as (s & t & -> & Hid & Hten & Ht & m & ti & Hm & Hin & Hlt).
    cbn -[Redis.del].
    destruct (del_run [sessionKey sid] w) as (n & ->).
    cbn. rewrite lookup_delete_ne by auto with keys. rewrite Hm.
    set (m' := m ∖ {[sid]}).
    set (r' := if bool_decide (m' = ∅)
               then delete (indexKey (Session.subjectId s))
                      (delete (sessionKey sid) (redis w))
               else <[indexKey (Session.subjectId s) :=
                        mkEntry (VSet m') (Some ti)]>
                      (delete (sessionKey sid) (redis w))).
    exists {| redis := r'; clock := clock w;
              auditTrail := (auditTrail w ++ [revokedEntry s sid])%list;
              entitlementTable := entitlementTable w |}.
    assert (Hsk : r' !! sessionKey sid = None).
    { subst r'. case_bool_decide.
      - rewrite lookup_delete_ne by auto with keys. apply lookup_delete_eq.
      - other_key. apply lookup_delete_eq. }
    assert (Hsk' : forall id, id <> sid ->
                     r' !! sessionKey id = redis w !! sessionKey id).
    { intros id Hne. subst r'. case_bool_decide.
      - rewrite !lookup_delete_ne by auto with keys. reflexivity.
      - other_key. rewrite lookup_delete_ne by auto with keys. reflexivity. }
    assert (Hik : r' !! indexKey (Session.subjectId s)
                  = if bool_decide (m' = ∅) then None
                    else Some (mkEntry (VSet m') (Some ti))).
    { subst r'. case_bool_decide.
      - apply lookup_delete_eq.
      - apply lookup_insert_eq. }
    assert (Hik' : forall subj, subj <> Session.subjectId s ->
                     r' !! indexKey subj = redis w !! indexKey subj).
    { intros subj Hne. subst r'. case_bool_decide.
      - rewrite !lookup_delete_ne by auto with keys. reflexivity.
      - other_key. rewrite lookup_delete_ne by auto with keys. reflexivity. }
    assert (Hrk : forall x, r' !! RateLimit.rateKey x
                            = redis w !! RateLimit.rateKey x).
    { intros x. subst r'. case_bool_decide.
      - rewrite !lookup_delete_ne by auto with keys. reflexivity.
      - other_key. rewrite lookup_delete_ne by auto with keys. reflexivity. }
    split.
    { subst r' m'. case_bool_decide; reflexivity. }
    clearbody r'.
    split.
    { constructor; cbn.
      - intros id e. destruct (decide (id = sid)) as [->|Hd].
        { rewrite Hsk. done. }
        rewrite Hsk' by assumption. intros E'.
        destruct (wf_session w Hwf _ _ E')
          as (s' & t' & -> & Hid' & Hten' & Ht' & m2 & ti' & Hm' & Hin' & Hlt').
        exists s', t'. cbn.
        do 4 (split; [first [reflexivity | assumption]|]).
        destruct (decide (Session.subjectId s' = Session.subjectId s)) as [Hs|Hs].
        + rewrite Hs. rewrite Hik. rewrite Hs in Hm'. rewrite Hm in Hm'.
          injection Hm' as <- <-.
          assert (id ∈ m') by (subst m'; set_solver).
          case_bool_decide as He; [set_solver|].
          eexists _, _. split; [reflexivity|]. split; assumption.
        + rewrite Hik' by assumption. eauto.
      - intros subj e.
        destruct (decide (subj = Session.subjectId s)) as [->|Hs].
        + rewrite Hik. case_bool_decide as He; [done|]. intros [= <-].
          eexists _, _. split; [reflexivity|assumption].
        + rewrite Hik' by assumption. apply (wf_index w Hwf).
      - intros x e. rewrite Hrk. apply (wf_rate w Hwf). }
    split; [split; reflexivity|].
    split; [exact Hrk|].
    split; [exact Hsk|].
    split; [exact Hsk'|].
    split; [reflexivity|].
    intros subj. unfold indexOf. cbn.
    destruct (decide (subj = Session.subjectId s)) as [->|Hs].
    + rewrite bool_decide_eq_true_2 by reflexivity.
      rewrite Hik, Hm. case_bool_decide as He; [|reflexivity].
      subst m'. rewrite He. reflexivity.
    + rewrite bool_decide_eq_false_2 by congruence.
      rewrite Hik' by assumption. reflexivity.
  - exists w. split; [reflexivity|]. split; [assumption|].
    split; [split; reflexivity|]. split; [intros x; reflexivity|].
    split; [assumption|]. split; [reflexivity|].
    split; [rewrite app_nil_r; reflexivity|].
    intros subj. cbn. reflexivity.
Qed.


Definition subjectRevokedEntry (subj : string) (count : Z) : AuditEntry.t :=
  {| AuditEntry.action := "SESSIONS_REVOKED_SUBJECT";
     AuditEntry.actorId := subj;
     AuditEntry.targetId := None;
     AuditEntry.metadata := [("revokedCount", Js.JNum count)] |}.

Lemma elem_of_sessionKeys id (ids : list string) :
  sessionKey id ∈ map sessionKey ids <-> id ∈ ids.
Proof.
  rewrite !list_elem_of_In, in_map_iff. split.
  - intros (x & Hx & Hin). apply sessionKey_inj in Hx. subst. assumption.
  - intros Hin. exists id. auto.
Qed.

Lemma indexKey_not_sessionKeys subj (ids : list string) :
  indexKey subj ∉ map sessionKey ids.
Proof.
  rewrite list_elem_of_In, in_map_iff. intros (x & Hx & _).
  revert Hx. apply sessionKey_indexKey.
Qed.

Lemma rateKey_not_sessionKeys x (ids : list string) :
  RateLimit.rateKey x ∉ map sessionKey ids.
Proof.
  rewrite list_elem_of_In, in_map_iff. intros (y & Hy & _).
  revert Hy. apply sessionKey_rateKey.
Qed.

Lemma revokeAllForSubject_run w subj :
  wf w ->
  exists w',
    revokeAllForSubject subj w = (Js.Ok Js.JUndefined, w')
    /\ wf w' /\ sameBackground w w' /\ sameRates w w'
    /\ redis w' !! indexKey subj = None
    /\ (forall id, id ∈ indexOf w subj -> redis w' !! sessionKey id = None)
    /\ (forall id, id ∉ indexOf w subj ->
          redis w' !! sessionKey id = redis w !! sessionKey id)
    /\ (forall subj', subj' <> subj ->
          redis w' !! indexKey subj' = redis w !! indexKey subj')
    /\ auditTrail w'
       = (auditTrail w
          ++ if decide (indexOf w subj = ∅) then []
             else [subjectRevokedEntry subj (Z.of_nat (size (indexOf w subj)))])%list.
Proof.
  intros Hwf. unfold revokeAllForSubject, indexOf. run_unfold.
  destruct (redis w !! indexKey subj) as [e|] eqn:E.
  - destruct (wf_index w Hwf _ _ E) as (m & ttl & -> & Hne).
    cbn -[Redis.del].
    assert (Hlen : length (elements m) <> 0%nat).
    { intros H0. apply Hne. apply size_empty_inv in H0.
      apply leibniz_equiv, H0. }
    destruct (Z.eqb_spec (Z.of_nat (length (elements m))) 0) as [H0|_]; [lia|].
    destruct (del_run (map (fun id => sessionKey id) (elements m)) w) as (n & ->).
    destruct (del_run [indexKey subj]
                (setRedis (deleteAll (map (fun id => sessionKey id) (elements m))
                             (redis w)) w)) as (n' & ->).
    cbn.
    set (r' := delete (indexKey subj)
                 (deleteAll (map (fun id => sessionKey id) (elements m)) (redis w))).
    assert (Hsk : forall id, r' !! sessionKey id
                  = if decide (id ∈ m) then None else redis w !! sessionKey id).
    { intros id. subst r'. rewrite lookup_delete_ne by auto with keys.
      rewrite lookup_deleteAll.
      destruct (decide (id ∈ m)) as [Hin|Hin];
        case_decide as Hd; try reflexivity; exfalso.
      - apply Hd, elem_of_sessionKeys, elem_of_elements, Hin.
      - apply Hin, elem_of_elements, elem_of_sessionKeys, Hd. }
    assert (Hik : r' !! indexKey subj = None) by apply lookup_delete_eq.
    assert (Hik' : forall subj', subj' <> subj ->
                     r' !! indexKey subj' = redis w !! indexKey subj').
    { intros subj' Hs. subst r'. rewrite lookup_delete_ne by auto with keys.
      rewrite lookup_deleteAll. case_decide as Hd; [|reflexivity].
      exfalso. revert Hd. apply indexKey_not_sessionKeys. }
    assert (Hrk : forall x, r' !! RateLimit.rateKey x
                            = redis w !! RateLimit.rateKey x).
    { intros x. subst r'. rewrite lookup_delete_ne by auto with keys.
      rewrite lookup_deleteAll. case_decide as Hd; [|reflexivity].
      exfalso. revert Hd. apply rateKey_not_sessionKeys. }
    clearbody r'.
    eexists. split; [reflexivity|].
    split.
    { constructor; cbn.
      - intros id e. rewrite Hsk.
        destruct (decide (id ∈ m)) as [Hin|Hin]; [done|]. intros E'.
        destruct (wf_session w Hwf _ _ E')
          as (s' & t' & -> & Hid' & Hten' & Ht' & m2 & ti' & Hm' & Hin' & Hlt').
        exists s', t'. cbn.
        do 4 (split; [first [reflexivity | assumption]|]).
        destruct (decide (Session.subjectId s' = subj)) as [Hs|Hs].
        + exfalso. rewrite Hs, E in Hm'. injection Hm' as ? ?. subst. auto.
        + rewrite Hik' by assumption. eauto.
      - intros subj' e.
        destruct (decide (subj' = subj)) as [->|Hs]; [rewrite Hik; done|].
        rewrite Hik' by assumption. apply (wf_index w Hwf).
      - intros x e. rewrite Hrk. apply (wf_rate w Hwf). }
    cbn.
    split; [split; reflexivity|].
    split; [exact Hrk|].
    split; [exact Hik|].
    split; [intros id Hin; rewrite Hsk; destruct (decide (id ∈ m)); done|].
    split; [intros id Hin; rewrite Hsk; destruct (decide (id ∈ m)); done|].
    split; [exact Hik'|].
    destruct (decide (m = ∅)) as [Hm|Hm]; [contradiction|]. reflexivity.
  - cbn. exists w. split; [reflexivity|]. split; [assumption|].
    split; [split; reflexivity|]. split; [intros x; reflexivity|].
    split; [assumption|]. split; [intros id Hin; set_solver|].
    split; [reflexivity|]. split; [reflexivity|].
    rewrite decide_True by reflexivity. rewrite app_nil_r. reflexivity.
Qed.

End SessionStoreRevocation.

Section RateWindow.
Import World SessionService Invariants.

(** The value INCR returns for a session's counter. *)
Definition nextCount (w : World.t) (sid : string) : Z :=
  match redis w !! RateLimit.rateKey sid with
  | Some {| value := VInt n |} => n + 1
  | _ => 1
  end.

(** When the counter's window closes: the expiry it has, or 60 s from now for
    a counter that starts. *)
Definition windowEnd (w : World.t) (sid : string) : Z :=
  match redis w !! RateLimit.rateKey sid with
  | Some {| expireAt := Some t |} => t
  | _ => clock w + 60000
  end.

Lemma enforceRateLimit_run w sid limit :
  wf w ->
  exists w',
    RateLimit.enforceRateLimit sid limit w
      = (if nextCount w sid >? limit
         then Js.Throw (Js.Error "RATE_LIMIT_EXCEEDED") else Js.Ok tt, w')
    /\ wf w' /\ sameBackground w w' /\ auditTrail w' = auditTrail w
    /\ redis w' !! RateLimit.rateKey sid
       = Some (mkEntry (VInt (nextCount w sid)) (Some (windowEnd w sid)))
    /\ (forall k, k <> RateLimit.rateKey sid -> redis w' !! k = redis w !! k).
Proof.
  intros Hwf. unfold RateLimit.enforceRateLimit, nextCount, windowEnd. run_unfold.
  destruct (redis w !! RateLimit.rateKey sid) as [e|] eqn:E.
  - destruct (wf_rate w Hwf _ _ E) as (n & t & -> & Hn & Ht).
    cbn. destruct (Z.eqb_spec (n + 1) 1) as [H1|_]; [lia|]. cbn.
    eexists. split; [destruct (n + 1 >? limit); reflexivity|].
    split.
    { constructor; cbn.
      - intros id e. other_key. intros E'.
        destruct (wf_session w Hwf _ _ E')
          as (s' & t' & -> & Hid' & Hten' & Ht' & m2 & ti' & Hm' & Hin' & Hlt').
        exists s', t'. cbn.
        do 4 (split; [first [reflexivity | assumption]|]).
        other_key. eauto.
      - intros subj e. other_key. apply (wf_index w Hwf).
      - intros x e. destruct (decide (x = sid)) as [->|Hx].
        + rewrite lookup_insert_eq. intros [= <-].
          exists (n + 1), t. cbn. split; [reflexivity|]. split; [lia|assumption].
        + other_key. apply (wf_rate w Hwf). }
    cbn. split; [split; reflexivity|]. split; [reflexivity|].
    split; [apply lookup_insert_eq|].
    intros k Hk. rewrite lookup_insert_ne by auto. reflexivity.
  - cbn. rewrite lookup_insert_eq. cbn. rewrite insert_insert_eq.
    eexists. split; [destruct (1 >? limit); reflexivity|].
    split.
    { constructor; cbn.
      - intros id e. other_key. intros E'.
        destruct (wf_session w Hwf _ _ E')
          as (s' & t' & -> & Hid' & Hten' & Ht' & m2 & ti' & Hm' & Hin' & Hlt').
        exists s', t'. cbn.
        do 4 (split; [first [reflexivity | assumption]|]).
        other_key. eauto.
      - intros subj e. other_key. apply (wf_index w Hwf).
      - intros x e. destruct (decide (x = sid)) as [->|Hx].
        + rewrite lookup_insert_eq. intros [= <-].
          exists 1, (clock w + 60 * 1000). cbn.
          split; [reflexivity|]. lia.
        + other_key. apply (wf_rate w Hwf). }
    cbn. split; [split; reflexivity|]. split; [reflexivity|].
    split; [apply lookup_insert_eq|].
    intros k Hk. rewrite lookup_insert_ne by auto. reflexivity.
Qed.

Lemma lookup_advance w ms k :
  redis (advance ms w) !! k
  = match redis w !! k with
    | Some e => if alive (clock w + Z.of_N ms) e then Some e else None
    | None => None
    end.
Proof.
  unfold advance. cbn. rewrite map_lookup_filter.
  destruct (redis w !! k) as [e|]; cbn; [|reflexivity].
  destruct (alive (clock w + Z.of_N ms) e) eqn:Ha.
  - rewrite option_guard_True by reflexivity. reflexivity.
  - rewrite option_guard_False by discriminate. reflexivity.
Qed.

Lemma advance_wf w ms : wf w -> wf (advance ms w).
Proof.
  intros Hwf. constructor.
  - intros id e. rewrite lookup_advance.
    destruct (redis w !! sessionKey id) as [e'|] eqn:E; [|done].
    destruct (alive (clock w + Z.of_N ms) e') eqn:Ha; [|done].
    intros [= <-].
    destruct (wf_session w Hwf _ _ E)
      as (s' & t' & -> & Hid' & Hten' & Ht' & m2 & ti' & Hm' & Hin' & Hlt').
    unfold alive in Ha. cbn in Ha. apply Z.ltb_lt in Ha.
    exists s', t'.
    do 3 (split; [first [reflexivity | assumption]|]).
    split; [cbn; lia|].
    exists m2, ti'. rewrite lookup_advance, Hm'. unfold alive. cbn.
    destruct (Z.ltb_spec (clock w + Z.of_N ms) ti'); [auto|lia].
  - intros subj e. rewrite lookup_advance.
    destruct (redis w !! indexKey subj) as [e'|] eqn:E; [|done].
    destruct (alive (clock w + Z.of_N ms) e'); [|done].
    intros [= <-]. apply (wf_index w Hwf _ _ E).
  - intros x e. rewrite lookup_advance.
    destruct (redis w !! RateLimit.rateKey x) as [e'|] eqn:E; [|done].
    destruct (alive (clock w + Z.of_N ms) e') eqn:Ha; [|done].
    intros [= <-].
    destruct (wf_rate w Hwf _ _ E) as (n & t & -> & Hn & Ht).
    unfold alive in Ha. cbn in Ha. apply Z.ltb_lt in Ha.
    exists n, t. cbn. split; [reflexivity|]. lia.
Qed.

Lemma empty_wf : wf World.empty.
Proof. constructor; intros ? ?; cbn; rewrite lookup_empty; done. Qed.

End RateWindow.

Section Composition.
Import World SessionService Invariants.

Lemma wf_ext w w' :
  redis w' = redis w -> clock w' = clock w -> wf w -> wf w'.
Proof.
  intros Hr Hc Hwf. constructor.
  - intros id e. rewrite Hr. intros E.
    destruct (wf_session w Hwf _ _ E)
      as (s' & t' & -> & Hid' & Hten' & Ht' & m2 & ti' & Hm' & Hin' & Hlt').
    exists s', t'. rewrite Hr, Hc. eauto 10.
  - intros subj e. rewrite Hr. apply (wf_index w Hwf).
  - intros x e. rewrite Hr. intros E.
    destruct (wf_rate w Hwf _ _ E) as (n & t & -> & Hn & Ht).
    exists n, t. rewrite Hc. auto.
Qed.

(** A computation is [safe] when, from a world where the invariant holds, it
    ends (resolved or rejected) in one where it holds, at the same instant,
    with no session key that was not there before. *)
Definition safe {A} (m : Js.M World.t A) : Prop :=
  forall w, wf w ->
    wf (m w).2 /\ clock (m w).2 = clock w /\ noNewSessions w (m w).2.

Lemma safe_ret {A} (a : A) : safe (mret a).
Proof. intros w Hwf. cbn. split; [|split]; auto. intros ? ?; assumption. Qed.

Lemma safe_throw {A} e : safe (@Js.throw World.t A e).
Proof. intros w Hwf. cbn. split; [|split]; auto. intros ? ?; assumption. Qed.

Lemma safe_bind {A B} (m : Js.M World.t A) (k : A -> Js.M World.t B) :
  safe m -> (forall a, safe (k a)) -> safe (m ≫= k).
Proof.
  intros Hm Hk w Hwf. destruct (Hm w Hwf) as (H1 & H2 & H3).
  unfold mbind, Js.M_bind. destruct (m w) as [[a|e] w1]; cbn in *.
  - destruct (Hk a w1 H1) as (H4 & H5 & H6).
    split; [assumption|]. split; [congruence|].
    intros id Hid. apply H6, H3, Hid.
  - auto.
Qed.

Lemma safe_dateNow : safe dateNow.
Proof. intros w Hwf. cbn. split; [|split]; auto. intros ? ?; assumption. Qed.

Lemma safe_log entry : safe (audit.log entry).
Proof.
  intros w Hwf. cbn. split; [|split; [reflexivity|intros ? ?; assumption]].
  eapply wf_ext; [| |exact Hwf]; reflexivity.
Qed.

Lemma safe_get sid : safe (SessionService.get sid).
Proof.
  intros w Hwf. rewrite get_run by assumption. cbn.
  split; [|split]; auto. intros ? ?; assumption.
Qed.

Lemma safe_updateRisk sid level evaluatedAt :
  safe (updateRisk sid level evaluatedAt).
Proof.
  intros w Hwf.
  destruct (updateRisk_run w sid level evaluatedAt Hwf)
    as (w' & -> & Hwf' & [Hc _] & _ & _ & Hother & Hat & _). cbn.
  split; [assumption|]. split; [assumption|].
  intros id Hid. destruct (decide (id = sid)) as [->|Hne].
  - unfold sessionAt in Hat. rewrite Hid in Hat. cbn in Hat.
    destruct (redis w' !! sessionKey sid) as [e|] eqn:E; [|reflexivity].
    destruct (wf_session w' Hwf' _ _ E) as (s & t & -> & _). discriminate.
  - rewrite Hother; assumption.
Qed.

Lemma safe_revoke sid : safe (revoke sid).
Proof.
  intros w Hwf.
  destruct (revoke_run w sid Hwf)
    as (w' & -> & Hwf' & [Hc _] & _ & Hsid & Hother & _). cbn.
  split; [assumption|]. split; [assumption|].
  intros id Hid. destruct (decide (id = sid)) as [->|Hne]; [assumption|].
  rewrite Hother; assumption.
Qed.

Lemma safe_revokeAllForSubject subj : safe (revokeAllForSubject subj).
Proof.
  intros w Hwf.
  destruct (revokeAllForSubject_run w subj Hwf)
    as (w' & -> & Hwf' & [Hc _] & _ & _ & Hin & Hout & _). cbn.
  split; [assumption|]. split; [assumption|].
  intros id Hid. destruct (decide (id ∈ indexOf w subj)) as [H|H].
  - apply Hin, H.
  - rewrite Hout; assumption.
Qed.

Lemma safe_enforceRateLimit sid limit :
  safe (RateLimit.enforceRateLimit sid limit).
Proof.
  intros w Hwf.
  destruct (enforceRateLimit_run w sid limit Hwf)
    as (w' & -> & Hwf' & [Hc _] & _ & _ & Hother). cbn.
  split; [assumption|]. split; [assumption|].
  intros id Hid. rewrite Hother by auto with keys. assumption.
Qed.

Lemma safe_prisma_update id f : safe (Prisma.update id f).
Proof.
  intros w Hwf. unfold Prisma.update.
  destruct (Prisma.updateRow id f (entitlementTable w)) as [[r rows]|]; cbn.
  - split; [|split; [reflexivity|intros ? ?; assumption]].
    eapply wf_ext; [| |exact Hwf]; reflexivity.
  - split; [|split]; auto. intros ? ?; assumption.
Qed.

Lemma safe_prisma_create row : safe (Prisma.create row).
Proof.
  intros w Hwf. cbn. split; [|split; [reflexivity|intros ? ?; assumption]].
  eapply wf_ext; [| |exact Hwf]; reflexivity.
Qed.

Lemma safe_assessSession sid subj signals :
  safe (RiskService.assessSession sid subj signals).
Proof.
  unfold RiskService.assessSession, SessionRevocation.revokeSession.
  apply safe_bind; [apply safe_dateNow|]. intros now.
  apply safe_bind; [|intros; apply safe_ret].
  case_bool_decide.
  - apply safe_bind; [apply safe_revoke|]. intros _. apply safe_log.
  - apply safe_ret.
Qed.

Lemma safe_cae request : safe (Cae.continuousAccessEvaluation request).
Proof.
  unfold Cae.continuousAccessEvaluation.
  apply safe_bind; [apply safe_assessSession|]. intros profile.
  apply safe_bind; [apply safe_dateNow|]. intros now.
  apply safe_bind; [apply safe_updateRisk|]. intros _.
  case_bool_decide.
  - apply safe_bind; [apply safe_revoke|]. intros _. apply safe_ret.
  - apply safe_ret.
Qed.

Lemma safe_riskThrottle request : safe (RiskThrottle.riskThrottle request).
Proof.
  unfold RiskThrottle.riskThrottle. case_bool_decide.
  - apply safe_throw.
  - destruct (Session.riskLevel (Http.session request)); cbn;
      (apply safe_bind; [apply safe_enforceRateLimit|]);
      intros _; apply safe_ret.
Qed.

Lemma safe_revokeSessionsForSubject subj :
  safe (SessionRevocation.revokeSessionsForSubject subj).
Proof.
  unfold SessionRevocation.revokeSessionsForSubject.
  apply safe_bind; [apply safe_revokeAllForSubject|]. intros _. apply safe_log.
Qed.

Lemma safe_entitlement_revoke id by_ reason :
  safe (EntitlementService.revoke id by_ reason).
Proof.
  unfold EntitlementService.revoke.
  apply safe_bind; [apply safe_dateNow|]. intros now.
  apply safe_bind; [apply safe_prisma_update|]. intros e.
  apply safe_bind; [apply safe_revokeSessionsForSubject|]. intros _.
  apply safe_bind; [apply safe_log|]. intros _. apply safe_ret.
Qed.

Lemma create_wf w uuid subj dev mfa :
  wf w -> wf (create uuid subj dev mfa w).2.
Proof.
  intros Hwf. destruct (create_run w uuid subj dev mfa Hwf) as (w' & -> & H & _).
  exact H.
Qed.

Lemma step_wf w op : wf w -> wf (Trace.step w op).
Proof.
  intros Hwf. destruct op; cbn [Trace.step].
  - apply advance_wf, Hwf.
  - apply create_wf, Hwf.
  - apply safe_updateRisk, Hwf.
  - apply safe_get, Hwf.
  - apply safe_revoke, Hwf.
  - apply safe_revokeAllForSubject, Hwf.
  - apply safe_enforceRateLimit, Hwf.
  - apply safe_cae, Hwf.
  - apply safe_riskThrottle, Hwf.
  - apply safe_prisma_create, Hwf.
  - apply safe_entitlement_revoke, Hwf.
Qed.

Lemma runFrom_wf w ops : wf w -> wf (Trace.runFrom w ops).
Proof.
  revert w. induction ops as [|op ops IH]; intros w Hwf; cbn; [assumption|].
  apply IH, step_wf, Hwf.
Qed.

(** Every world the services reach satisfies the invariant. *)
Lemma run_wf ops : wf (Trace.run ops).
Proof. apply runFrom_wf, empty_wf. Qed.

(** Only [create] with that very id brings a session key into being. *)
Definition creates (sid : string) (op : Trace.Op) : Prop :=
  match op with
  | Trace.Create uuid _ _ _ => uuid = sid
  | _ => False
  end.

Lemma step_absent w op sid :
  wf w -> ~ creates sid op ->
  redis w !! sessionKey sid = None ->
  redis (Trace.step w op) !! sessionKey sid = None.
Proof.
  intros Hwf Hop Habs. destruct op; cbn [Trace.step].
  - rewrite lookup_advance, Habs. reflexivity.
  - destruct (create_run w uuid subjectId deviceId mfaVerified Hwf)
      as (w' & -> & _ & _ & _ & _ & _ & Hother & _). cbn.
    rewrite Hother; [assumption|]. intros ->. apply Hop. reflexivity.
  - apply safe_updateRisk; assumption.
  - apply safe_get; assumption.
  - apply safe_revoke; assumption.
  - apply safe_revokeAllForSubject; assumption.
  - apply safe_enforceRateLimit; assumption.
  - apply safe_cae; assumption.
  - apply safe_riskThrottle; assumption.
  - apply safe_prisma_create; assumption.
  - apply safe_entitlement_revoke; assumption.
Qed.

Lemma runFrom_absent w ops sid :
  wf w -> Forall (fun op => ~ creates sid op) ops ->
  redis w !! sessionKey sid = None ->
  redis (Trace.runFrom w ops) !! sessionKey sid = None.
Proof.
  revert w. induction ops as [|op ops IH]; intros w Hwf Hops Habs; cbn;
    [assumption|].
  inversion Hops; subst.
  apply IH; [apply step_wf, Hwf|assumption|apply step_absent; assumption].
Qed.

End Composition.

Section ContinuousEvaluation.
Import World SessionService Invariants RiskModel.

Lemma updateRisk_absent w sid level evaluatedAt :
  redis w !! sessionKey sid = None ->
  updateRisk sid level evaluatedAt w = (Js.Ok tt, w).
Proof. intros H. unfold updateRisk. run_unfold. rewrite H. reflexivity. Qed.

Lemma revoke_absent w sid :
  redis w !! sessionKey sid = None -> revoke sid w = (Js.Ok tt, w).
Proof. intros H. unfold revoke. run_unfold. rewrite H. reflexivity. Qed.

Lemma get_absent w sid :
  redis w !! sessionKey sid = None -> SessionService.get sid w = (Js.Ok None, w).
Proof. intros H. unfold SessionService.get. run_unfold. rewrite H. reflexivity. Qed.

(** The audit entry [assessSession] writes for a CRITICAL profile. *)
Definition terminatedEntry (profile : SessionRiskProfile) : AuditEntry.t :=
  {| AuditEntry.action := "SESSION_TERMINATED_HIGH_RISK";
     AuditEntry.actorId := RiskModel.subjectId profile;
     AuditEntry.targetId := None;
     AuditEntry.metadata :=
       [("riskScore", Js.JNum (riskScore profile));
        ("signals",
         Js.JArr (map RiskService.signalJson (RiskModel.signals profile)))] |}.

(** The request context after the hook: the profile attached, the session's
    level overwritten. *)
Definition evaluated (request : Http.Request) (profile : SessionRiskProfile)
    : Http.Request :=
  {| Http.ip := Http.ip request;
     Http.headers := Http.headers request;
     Http.session :=
       Cae.setSessionRisk (riskLevel profile) (Http.session request);
     Http.tenant := Http.tenant request;
     Http.resource := Http.resource request;
     Http.action := Http.action request;
     Http.risk := Some profile;
     Http.opaInput := Http.opaInput request |}.

Definition sessionTerminated : Js.Response :=
  Js.mkResponse 403 (Js.JObj [("message", Js.JStr "Session terminated")]).

(** The profile the hook computes for a request at the world's instant. *)
Definition profileOf (w : World.t) (request : Http.Request)
    : SessionRiskProfile :=
  RiskEngine.evaluate (Session.id (Http.session request))
    (Session.subjectId (Http.session request))
    (RiskSignals.collectRiskSignals request (Http.session request))
    (clock w).

(** C1. In a world where the keyspace invariant holds, if the profile the
    hook computes for a request is CRITICAL then
    [continuousAccessEvaluation] resolves with the 403 reply "Session
    terminated"; the session was revoked through [SessionService.revoke]
    (its key deleted, its id taken out of the subject's index, SESSION_REVOKED
    written when it was stored), SESSION_TERMINATED_HIGH_RISK was written
    after that; the [updateRisk] the hook runs next finds no session and
    writes none; and [get] on the session id resolves with [null] then and
    after any further calls of the services other than a [create] that draws
    the same id. *)
Theorem cae_critical_terminates (w : World.t) (request : Http.Request) :
  wf w ->
  riskLevel (profileOf w request) = CRITICAL ->
  let sid := Session.id (Http.session request) in
  let profile := profileOf w request in
  exists w',
    Cae.continuousAccessEvaluation request w
      = (Js.Ok (evaluated request profile, Some sessionTerminated), w')
    /\ wf w'
    /\ redis w' !! sessionKey sid = None
    /\ (forall s, sessionAt w sid = Some s ->
          sid ∉ indexOf w' (Session.subjectId s))
    /\ auditTrail w'
       = (auditTrail w
          ++ match sessionAt w sid with
             | Some s => [revokedEntry s sid]
             | None => []
             end
          ++ [terminatedEntry profile])%list
    /\ forall ops,
         Forall (fun op => ~ creates sid op) ops ->
         SessionService.get sid (Trace.runFrom w' ops)
           = (Js.Ok None, Trace.runFrom w' ops).
Proof.
  intros Hwf Hcrit sid profile.
  destruct (revoke_run w sid Hwf)
    as (w1 & Hrev & Hwf1 & [Hc1 Ht1] & _ & Habs1 & _ & Haudit1 & Hidx1).
  set (w2 := {| redis := redis w1; clock := clock w1;
                auditTrail := (auditTrail w1 ++ [terminatedEntry profile])%list;
                entitlementTable := entitlementTable w1 |}).
  assert (Hwf2 : wf w2) by (eapply wf_ext; [| |exact Hwf1]; reflexivity).
  assert (Habs2 : redis w2 !! sessionKey sid = None) by exact Habs1.
  exists w2.
  split.
  { unfold Cae.continuousAccessEvaluation, RiskService.assessSession,
      SessionRevocation.revokeSession.
    fold sid.
    unfold mbind at 1. unfold Js.M_bind at 1.
    unfold mbind at 1. unfold Js.M_bind at 1.
    unfold dateNow at 1. cbn [fst snd].
    change (RiskEngine.evaluate sid (Session.subjectId (Http.session request))
              (RiskSignals.collectRiskSignals request (Http.session request))
              (clock w)) with profile.
    rewrite (bool_decide_eq_true_2 _ Hcrit).
    assert (Hlog : (SessionService.revoke (RiskModel.sessionId profile)
                    ≫= (fun _ => audit.log (terminatedEntry profile))) w
                   = (Js.Ok tt, w2)).
    { change (RiskModel.sessionId profile) with sid.
      erewrite bind_ok by exact Hrev. reflexivity. }
    unfold terminatedEntry in Hlog.
    erewrite bind_ok by exact Hlog.
    unfold mret at 1. unfold Js.M_ret at 1.
    unfold dateNow, mbind at 1. unfold Js.M_bind at 1.
    erewrite bind_ok by (apply updateRisk_absent; exact Habs2).
    rewrite (bool_decide_eq_true_2 _ Hcrit).
    erewrite bind_ok by (apply revoke_absent; exact Habs2).
    reflexivity. }
  split; [exact Hwf2|]. split; [exact Habs2|].
  split.
  { intros s Hs. change (indexOf w2 (Session.subjectId s))
      with (indexOf w1 (Session.subjectId s)).
    rewrite Hidx1, Hs. cbn. rewrite bool_decide_eq_true_2 by reflexivity.
    set_solver. }
  split.
  { cbn. rewrite Haudit1, <- app_assoc. reflexivity. }
  intros ops Hops. apply get_absent.
  apply runFrom_absent; assumption.
Qed.

End ContinuousEvaluation.

Section SubjectRevocation.
Import World SessionService Invariants.

Lemma sessionAt_None w sid :
  wf w -> sessionAt w sid = None -> redis w !! sessionKey sid = None.
Proof.
  intros Hwf. unfold sessionAt.
  destruct (redis w !! sessionKey sid) as [e|] eqn:E; [|reflexivity].
  destruct (wf_session w Hwf _ _ E) as (s & t & -> & _). discriminate.
Qed.

Lemma sessionAt_indexed w sid s :
  wf w -> sessionAt w sid = Some s ->
  Session.id s = sid /\ sid ∈ indexOf w (Session.subjectId s).
Proof.
  intros Hwf. unfold sessionAt, indexOf.
  destruct (redis w !! sessionKey sid) as [e|] eqn:E; [|discriminate].
  destruct (wf_session w Hwf _ _ E)
    as (s' & t' & -> & Hid' & Hten' & Ht' & m2 & ti' & Hm' & Hin' & Hlt').
  cbn. intros [= <-]. rewrite Hm'. auto.
Qed.

(** C5 as the code has it. In every world the services reach,
    [revokeAllForSubject] resolves with [undefined] (it returns no count);
    afterwards the subject's index key is gone, the key of every session id
    the index listed is gone and [get] on that id resolves with [null]; the
    keys of other sessions are untouched; it appends one
    SESSIONS_REVOKED_SUBJECT entry carrying the number of ids listed when the
    index had members, and nothing when there was no index; and calling it
    again changes nothing. *)
Theorem revokeAllForSubject_effect :
  forall (ops : list Trace.Op) (subjectId : string),
    let w := Trace.run ops in
    exists w',
      revokeAllForSubject subjectId w = (Js.Ok Js.JUndefined, w')
      /\ redis w' !! indexKey subjectId = None
      /\ (forall id, id ∈ indexOf w subjectId ->
            redis w' !! sessionKey id = None
            /\ SessionService.get id w' = (Js.Ok None, w'))
      /\ (forall id, id ∉ indexOf w subjectId ->
            redis w' !! sessionKey id = redis w !! sessionKey id)
      /\ auditTrail w'
         = (auditTrail w
            ++ if decide (indexOf w subjectId = ∅) then []
               else [subjectRevokedEntry subjectId
                       (Z.of_nat (size (indexOf w subjectId)))])%list
      /\ revokeAllForSubject subjectId w' = (Js.Ok Js.JUndefined, w').
Proof.
  intros ops subj w.
  assert (Hwf : wf w) by apply run_wf.
  destruct (revokeAllForSubject_run w subj Hwf)
    as (w' & Hrun & Hwf' & _ & _ & Hik & Hin & Hout & _ & Haudit).
  exists w'. split; [exact Hrun|]. split; [exact Hik|].
  split; [|split; [exact Hout|split; [exact Haudit|]]].
  - intros id Hid. split; [apply Hin, Hid|]. apply get_absent, Hin, Hid.
  - unfold revokeAllForSubject. run_unfold. rewrite Hik. reflexivity.
Qed.

Definition subjectNotedEntry (subj : string) : AuditEntry.t :=
  {| AuditEntry.action := "SESSIONS_REVOKED_SUBJECT";
     AuditEntry.actorId := subj;
     AuditEntry.targetId := None;
     AuditEntry.metadata := [("subjectId", Js.JStr subj)] |}.

Definition entitlementRevokedEntry (entitlementId revokedBy reason : string)
    : AuditEntry.t :=
  {| AuditEntry.action := "ENTITLEMENT_REVOKED";
     AuditEntry.actorId := revokedBy;
     AuditEntry.targetId := Some entitlementId;
     AuditEntry.metadata := [("reason", Js.JStr reason)] |}.

Lemma updateRow_found id f rows :
  (exists r, r ∈ rows /\ Entitlement.id r = id) ->
  exists r0 rows',
    Prisma.updateRow id f rows = Some (f r0, rows')
    /\ r0 ∈ rows /\ Entitlement.id r0 = id /\ f r0 ∈ rows'.
Proof.
  induction rows as [|r rows IH]; intros (x & Hx & Hid).
  - by apply elem_of_nil in Hx.
  - cbn. destruct (String.eqb_spec (Entitlement.id r) id) as [Heq|Hne].
    + exists r, (f r :: rows). repeat split; auto; constructor.
    + apply elem_of_cons in Hx as [->|Hx]; [contradiction|].
      destruct IH as (r0 & rows' & -> & Hin & Hid0 & Hin'); [eauto|].
      exists r0, (r :: rows'). repeat split; auto; by constructor.
Qed.

(** C4. In every world the services reach, [revoke] of an entitlement that
    is in the table resolves with that row marked REVOKED, [revokedAt] and
    [updatedAt] set to now, and leaves it so in the table; it runs
    [revokeAllForSubject] for the row's subject (through
    [revokeSessionsForSubject], which adds an audit entry of its own) and
    then appends the ENTITLEMENT_REVOKED entry; afterwards no session of that
    subject is in the store, and [get] on the id of any session the subject
    had resolves with [null]. *)
Theorem entitlement_revoke_forces_reauth :
  forall (ops : list Trace.Op) (entitlementId revokedBy reason : string),
    let w := Trace.run ops in
    (exists row, row ∈ entitlementTable w /\ Entitlement.id row = entitlementId) ->
    exists row e w',
      EntitlementService.revoke entitlementId revokedBy reason w = (Js.Ok e, w')
      /\ row ∈ entitlementTable w /\ Entitlement.id row = entitlementId
      /\ e = Prisma.markRevoked (clock w) row
      /\ Entitlement.status e = Entitlement.REVOKED
      /\ Entitlement.revokedAt e = Some (clock w)
      /\ Entitlement.updatedAt e = clock w
      /\ Entitlement.subjectId e = Entitlement.subjectId row
      /\ e ∈ entitlementTable w'
      /\ auditTrail w'
         = (auditTrail w
            ++ (if decide (indexOf w (Entitlement.subjectId row) = ∅) then []
                else [subjectRevokedEntry (Entitlement.subjectId row)
                        (Z.of_nat (size (indexOf w (Entitlement.subjectId row))))])
            ++ [subjectNotedEntry (Entitlement.subjectId row);
                entitlementRevokedEntry entitlementId revokedBy reason])%list
      /\ redis w' !! indexKey (Entitlement.subjectId row) = None
      /\ (forall sid s, sessionAt w' sid = Some s ->
            Session.subjectId s <> Entitlement.subjectId row)
      /\ (forall sid s, sessionAt w sid = Some s ->
            Session.subjectId s = Entitlement.subjectId row ->
            SessionService.get sid w' = (Js.Ok None, w')).
Proof.
  intros ops entitlementId revokedBy reason w Hrow.
  assert (Hwf : wf w) by apply run_wf.
  destruct (updateRow_found entitlementId (Prisma.markRevoked (clock w))
              (entitlementTable w) Hrow)
    as (row & rows' & Hupd & Hin & Hid & Hin').
  set (subj := Entitlement.subjectId row).
  set (w1 := Prisma.setTable rows' w).
  assert (Hwf1 : wf w1) by (eapply wf_ext; [| |exact Hwf]; reflexivity).
  destruct (revokeAllForSubject_run w1 subj Hwf1)
    as (w2 & Hrun & Hwf2 & [Hc2 Ht2] & _ & Hik & Hgone & Hkept & _ & Haudit).
  set (w3 := {| redis := redis w2; clock := clock w2;
                auditTrail := (auditTrail w2
                               ++ [subjectNotedEntry subj])%list;
                entitlementTable := entitlementTable w2 |}).
  set (w4 := {| redis := redis w3; clock := clock w3;
                auditTrail := (auditTrail w3
                               ++ [entitlementRevokedEntry entitlementId
                                     revokedBy reason])%list;
                entitlementTable := entitlementTable w3 |}).
  assert (Hwf4 : wf w4) by (eapply wf_ext; [| |exact Hwf2]; reflexivity).
  exists row, (Prisma.markRevoked (clock w) row), w4.
  split.
  { unfold EntitlementService.revoke,
      SessionRevocation.revokeSessionsForSubject.
    unfold mbind at 1. unfold Js.M_bind at 1. unfold dateNow at 1.
    assert (Hu : Prisma.update entitlementId (Prisma.markRevoked (clock w)) w
                 = (Js.Ok (Prisma.markRevoked (clock w) row), w1)).
    { unfold Prisma.update. rewrite Hupd. reflexivity. }
    erewrite bind_ok by exact Hu.
    change (Entitlement.subjectId (Prisma.markRevoked (clock w) row)) with subj.
    assert (Hs : (revokeAllForSubject subj
                  ≫= (fun _ => audit.log (subjectNotedEntry subj))) w1
                 = (Js.Ok tt, w3)).
    { erewrite bind_ok by exact Hrun. reflexivity. }
    unfold subjectNotedEntry in Hs.
    erewrite bind_ok by exact Hs.
    reflexivity. }
  do 7 (split; [first [assumption | reflexivity]|]).
  split.
  { change (entitlementTable w4) with (entitlementTable w2).
    rewrite Ht2. exact Hin'. }
  split.
  { cbn. rewrite Haudit. rewrite <- !app_assoc. reflexivity. }
  split; [exact Hik|].
  split.
  - intros sid s Hs Hsubj.
    destruct (sessionAt_indexed w4 sid s Hwf4 Hs) as (_ & Hidx).
    rewrite Hsubj in Hidx. unfold indexOf in Hidx.
    change (redis w4) with (redis w2) in Hidx. fold subj in Hidx.
    rewrite Hik in Hidx. set_solver.
  - intros sid s Hs Hsubj. apply get_absent.
    change (redis w4) with (redis w2). apply Hgone.
    destruct (sessionAt_indexed w sid s Hwf Hs) as (_ & Hidx).
    rewrite Hsubj in Hidx. exact Hidx.
Qed.

End SubjectRevocation.

Section Scenarios.
Import World SessionService Invariants.

(** Subject u2 with the two sessions s2 and s3 of scenario S6, and one
    active entitlement. *)
Definition grant_u2 : Entitlement.t :=
  {| Entitlement.id := "e1";
     Entitlement.subjectType := Entitlement.USER;
     Entitlement.subjectId := "u2";
     Entitlement.resourceType := "invoice";
     Entitlement.resourceId := "42";
     Entitlement.scopes := ["read:invoice"];
     Entitlement.status := Entitlement.ACTIVE;
     Entitlement.validFrom := 0;
     Entitlement.validUntil := None;
     Entitlement.grantedBy := "admin";
     Entitlement.grantReason := "onboarding";
     Entitlement.createdAt := 0;
     Entitlement.updatedAt := 0;
     Entitlement.revokedAt := None |}.

Definition scenario_u2 : list Trace.Op :=
  [Trace.InsertEntitlement grant_u2;
   Trace.Create "s2" "u2" (Some "d2") true;
   Trace.Advance 1000;
   Trace.Create "s3" "u2" None false].

Lemma revokeAllForSubject_returns_no_count :
  size (indexOf (Trace.run scenario_u2) "u2") = 2%nat
  /\ (revokeAllForSubject "u2" (Trace.run scenario_u2)).1 = Js.Ok Js.JUndefined
  /\ Js.JUndefined <> Js.JNum 2
  /\ auditTrail (revokeAllForSubject "u2" World.empty).2 = [].
Proof.
  split; [vm_compute; reflexivity|].
  split; [vm_compute; reflexivity|].
  split; [discriminate|]. vm_compute; reflexivity.
Qed.

Lemma entitlement_revoke_forces_reauth_witness :
  exists e w',
    EntitlementService.revoke "e1" "admin" "offboarding" (Trace.run scenario_u2)
      = (Js.Ok e, w')
    /\ Entitlement.status e = Entitlement.REVOKED
    /\ SessionService.get "s2" w' = (Js.Ok None, w')
    /\ SessionService.get "s3" w' = (Js.Ok None, w').
Proof.
  assert (Hex : exists row,
             row ∈ entitlementTable (Trace.run scenario_u2)
             /\ Entitlement.id row = "e1").
  { exists grant_u2. split; [apply list_elem_of_here|reflexivity]. }
  destruct (entitlement_revoke_forces_reauth scenario_u2
              "e1" "admin" "offboarding" Hex)
    as (row & e & w' & Hrun & Hin & Hid & He & Hst & _ & _ & Hsubj & _ & _ & _
        & _ & Hget).
  exists e, w'. split; [exact Hrun|]. split; [exact Hst|].
  assert (Hrow : Entitlement.subjectId row = "u2").
  { cbn in Hin. apply list_elem_of_singleton in Hin. subst row. reflexivity. }
  split.
  - eapply (Hget "s2"); [vm_compute; reflexivity|]. rewrite Hrow. reflexivity.
  - eapply (Hget "s3"); [vm_compute; reflexivity|]. rewrite Hrow. reflexivity.
Defined.

End Scenarios.

Section CriticalScenario.
Import World SessionService Invariants.

(** Scenario S4: session s1 of subject u1 bound to device d1; a request from
    another device with the automation header. *)
Definition scenario_s1 : list Trace.Op :=
  [Trace.Create "s1" "u1" (Some "d1") true; Trace.Advance 5000].

Definition request_critical : Http.Request :=
  {| Http.ip := "203.0.113.9";
     Http.headers := {[ "x-device-id" := "d2"; "x-automation" := "true" ]};
     Http.session := newSession 0 "s1" "u1" (Some "d1") true;
     Http.tenant := None;
     Http.resource := Js.JStr "/api/x";
     Http.action := Js.JStr "GET";
     Http.risk := None;
     Http.opaInput := None |}.

Lemma cae_critical_terminates_witness :
  SessionService.get "s1" (Trace.run scenario_s1)
    = (Js.Ok (Some (newSession 0 "s1" "u1" (Some "d1") true)),
       Trace.run scenario_s1)
  /\ exists r w',
       Cae.continuousAccessEvaluation request_critical (Trace.run scenario_s1)
         = (Js.Ok (r, Some sessionTerminated), w')
       /\ SessionService.get "s1" w' = (Js.Ok None, w').
Proof.
  split; [vm_compute; reflexivity|].
  destruct (cae_critical_terminates (Trace.run scenario_s1) request_critical
              (run_wf scenario_s1) eq_refl)
    as (w' & Hrun & _ & _ & _ & _ & Hget).
  eexists _, w'. split; [exact Hrun|]. apply (Hget []). constructor.
Defined.

End CriticalScenario.

Section TenantAbsent.
Import World SessionService Invariants.

(** The request context [buildOpaInput] leaves for a loaded tenant. *)
Definition withOpaInput (request : Http.Request) (input : Http.OpaInput)
    : Http.Request :=
  {| Http.ip := Http.ip request;
     Http.headers := Http.headers request;
     Http.session := Http.session request;
     Http.tenant := Http.tenant request;
     Http.resource := Http.resource request;
     Http.action := Http.action request;
     Http.risk := Http.risk request;
     Http.opaInput := Some input |}.

(** The policy input built from a request and its tenant. *)
Definition opaInputOf (request : Http.Request) (tenant : Http.Tenant)
    : Http.OpaInput :=
  {| Http.tenant_id := Session.tenantId (Http.session request);
     Http.tenant_plan := Http.plan tenant;
     Http.tenant_throttled := Http.isThrottled tenant;
     Http.subject_id := Session.subjectId (Http.session request);
     Http.subject_mfa_verified := Session.mfaVerified (Http.session request);
     Http.risk_riskLevel := Session.riskLevel (Http.session request);
     Http.input_resource := Http.resource request;
     Http.input_action := Http.action request |}.

Lemma buildOpaInput_run request w :
  OpaInputHook.buildOpaInput request w
  = match Http.tenant request with
    | Some tenant =>
        (Js.Ok (withOpaInput request (opaInputOf request tenant), None), w)
    | None =>
        (Js.Throw (Js.mkExn "TypeError"
                     "Cannot read properties of undefined (reading 'plan')"), w)
    end.
Proof.
  unfold OpaInputHook.buildOpaInput, withOpaInput.
  destruct (Http.tenant request); reflexivity.
Qed.

(** C10. In every world the services reach, [create] resolves with a session
    whose [tenantId] is absent and stores that record; every session found
    in the store at any later point has no [tenantId] either (nothing else
    writes sessions, and [updateRisk] copies the field); and for a request
    carrying such a session, [buildOpaInput] attaches a policy input whose
    [tenant.id] is [undefined]. *)
Theorem created_session_has_no_tenant :
  forall (ops : list Trace.Op) (uuid subjectId : string)
         (deviceId : option string) (mfaVerified : bool),
    let w := Trace.run ops in
    exists s w',
      create uuid subjectId deviceId mfaVerified w = (Js.Ok s, w')
      /\ Session.tenantId s = None
      /\ SessionService.get uuid w' = (Js.Ok (Some s), w')
      /\ forall (later : list Trace.Op) (sid : string) (s' : Session.t),
           SessionService.get sid (Trace.runFrom w' later)
             = (Js.Ok (Some s'), Trace.runFrom w' later) ->
           Session.tenantId s' = None
           /\ forall (request : Http.Request) (tenant : Http.Tenant) w'',
                Http.session request = s' ->
                Http.tenant request = Some tenant ->
                exists input,
                  OpaInputHook.buildOpaInput request w''
                    = (Js.Ok (withOpaInput request input, None), w'')
                  /\ Http.tenant_id input = None.
Proof.
  intros ops uuid subj dev mfa w.
  assert (Hwf : wf w) by apply run_wf.
  destruct (create_run w uuid subj dev mfa Hwf)
    as (w' & Hrun & Hwf' & _ & _ & _ & Hsk & _).
  exists (newSession (clock w) uuid subj dev mfa), w'.
  split; [exact Hrun|]. split; [reflexivity|].
  split.
  { rewrite get_run by assumption. unfold sessionAt. rewrite Hsk. reflexivity. }
  intros later sid s' Hget.
  assert (Hwf'' : wf (Trace.runFrom w' later)) by (apply runFrom_wf, Hwf').
  rewrite get_run in Hget by assumption.
  injection Hget as Hat.
  assert (Hten : Session.tenantId s' = None).
  { unfold sessionAt in Hat.
    destruct (redis (Trace.runFrom w' later) !! sessionKey sid) as [e|] eqn:E;
      [|discriminate].
    destruct (wf_session _ Hwf'' _ _ E) as (s0 & t0 & -> & _ & Hten & _).
    cbn in Hat. congruence. }
  split; [exact Hten|].
  intros request tenant w'' Hs Ht.
  rewrite buildOpaInput_run, Ht.
  eexists. split; [reflexivity|]. cbn. rewrite Hs. exact Hten.
Qed.

End TenantAbsent.

(** ** Risk-adaptive throttling *)

Module Throttling.
Import World.

(** What happens at the limiter for one session: time passes, or a request
    reaches [riskThrottle]. *)
Inductive Tick :=
| Wait (ms : N)
| Hit (request : Http.Request).

(** A request is admitted when the hook neither replies nor throws. *)
Definition admitted (r : Js.Result (Http.Request * option Js.Response)) : bool :=
  match r with
  | Js.Ok (_, None) => true
  | _ => false
  end.

(** The limiter's log: for each request the instant it came and whether it
    was admitted. *)
Fixpoint serve (w : World.t) (events : list Tick) : list (Z * bool) :=
  match events with
  | [] => []
  | Wait ms :: rest => serve (advance ms w) rest
  | Hit request :: rest =>
      let (r, w') := RiskThrottle.riskThrottle request w in
      (clock w, admitted r) :: serve w' rest
  end.

Definition admittedCount (log : list (Z * bool)) : Z :=
  Z.of_nat (length (filter (fun p => p.2 = true) log)).

(** Requests admitted in the 60 seconds that start at [start]. *)
Definition admittedIn (start : Z) (log : list (Z * bool)) : Z :=
  Z.of_nat (length (filter (fun p => p.2 = true
                                     /\ start <= p.1 < start + 60000) log)).

Fixpoint hits (events : list Tick) : Z :=
  match events with
  | [] => 0
  | Wait _ :: rest => hits rest
  | Hit _ :: rest => 1 + hits rest
  end.

Fixpoint totalWait (events : list Tick) : Z :=
  match events with
  | [] => 0
  | Wait ms :: rest => Z.of_N ms + totalWait rest
  | Hit _ :: rest => totalWait rest
  end.

(** Every request of the trace is of session [sid] at level [level]. *)
Definition allOf (sid : string) (level : RiskModel.RiskLevel)
    (events : list Tick) : Prop :=
  Forall (fun ev => match ev with
                    | Hit request =>
                        Session.id (Http.session request) = sid
                        /\ Session.riskLevel (Http.session request) = level
                    | Wait _ => True
                    end) events.

End Throttling.

Section ThrottlingFacts.
Import World SessionService Invariants Throttling RiskModel.

(** The cap of each level of the enumeration. *)
Definition capOf (level : RiskLevel) : Z :=
  match level with
  | LOW => 1000
  | MEDIUM => 200
  | HIGH => 20
  | CRITICAL => 10
  end.

Lemma limitFor_level level :
  RiskThrottle.limitFor (levelName level) = RiskThrottle.Cap (capOf level).
Proof. destruct level; reflexivity. Qed.

Lemma riskThrottle_run w request :
  wf w ->
  Session.riskLevel (Http.session request) <> CRITICAL ->
  let sid := Session.id (Http.session request) in
  let limit := capOf (Session.riskLevel (Http.session request)) in
  exists w',
    RiskThrottle.riskThrottle request w
      = (if nextCount w sid >? limit
         then Js.Throw (Js.Error "RATE_LIMIT_EXCEEDED")
         else Js.Ok (request, None), w')
    /\ wf w' /\ clock w' = clock w
    /\ redis w' !! RateLimit.rateKey sid
       = Some (mkEntry (VInt (nextCount w sid)) (Some (windowEnd w sid))).
Proof.
  intros Hwf Hlevel sid limit.
  destruct (enforceRateLimit_run w sid limit Hwf)
    as (w' & Hrun & Hwf' & [Hc _] & _ & Hk & _).
  exists w'. split; [|auto].
  unfold RiskThrottle.riskThrottle.
  rewrite bool_decide_eq_false_2 by assumption.
  rewrite limitFor_level.
  fold sid limit. unfold mbind, Js.M_bind. rewrite Hrun.
  destruct (nextCount w sid >? limit); reflexivity.
Qed.

Lemma hits_nonneg events : 0 <= hits events.
Proof. induction events as [|[ms|r] rest IH]; cbn; lia. Qed.

Lemma totalWait_nonneg events : 0 <= totalWait events.
Proof. induction events as [|[ms|r] rest IH]; cbn; lia. Qed.

Lemma admittedCount_cons t b log :
  admittedCount ((t, b) :: log) = (if b then 1 else 0) + admittedCount log.
Proof.
  unfold admittedCount. rewrite filter_cons. cbn.
  destruct b; [rewrite decide_True by reflexivity
              |rewrite decide_False by discriminate]; cbn; lia.
Qed.

(** Inside a window that is open, with the counter at [n]. *)
Lemma serve_open_window sid level events :
  level <> CRITICAL ->
  allOf sid level events ->
  forall w n T,
    wf w ->
    redis w !! RateLimit.rateKey sid = Some (mkEntry (VInt n) (Some T)) ->
    clock w + totalWait events < T ->
    admittedCount (serve w events)
    = Z.max 0 (Z.min (hits events) (capOf level - n)).
Proof.
  intros Hlevel Hall.
  remember (capOf level) as L eqn:HL.
  induction Hall as [|ev rest Hev Hrest IH]; intros w n T Hwf Hk Hin.
  - unfold admittedCount. cbn. lia.
  - destruct ev as [ms|request]; cbn [serve hits totalWait] in *.
    + apply (IH (advance ms w) n T).
      * apply advance_wf, Hwf.
      * rewrite lookup_advance, Hk. unfold alive. cbn.
        pose proof (totalWait_nonneg rest).
        destruct (Z.ltb_spec (clock w + Z.of_N ms) T); [reflexivity|lia].
      * cbn. lia.
    + destruct Hev as (Hsid & Hlv).
      assert (Hlevel' : Session.riskLevel (Http.session request) <> CRITICAL)
        by congruence.
      destruct (riskThrottle_run w request Hwf Hlevel')
        as (w' & Hrun & Hwf' & Hc & Hk').
      rewrite Hsid, Hlv in *.
      assert (Hnext : nextCount w sid = n + 1)
        by (unfold nextCount; rewrite Hk; reflexivity).
      assert (Hend : windowEnd w sid = T)
        by (unfold windowEnd; rewrite Hk; reflexivity).
      rewrite Hnext, Hend, <- HL in *. rewrite Hrun.
      rewrite admittedCount_cons.
      rewrite (IH w' (n + 1) T Hwf' Hk') by lia.
      pose proof (hits_nonneg rest).
      destruct (Z.gtb_spec (n + 1) L); cbn [admitted]; lia.
Qed.

(** From a counter that is not there: the first request opens the window. *)
Lemma serve_fresh_window sid level events :
  level <> CRITICAL ->
  allOf sid level events ->
  forall w,
    wf w ->
    redis w !! RateLimit.rateKey sid = None ->
    totalWait events < 60000 ->
    admittedCount (serve w events)
    = Z.max 0 (Z.min (hits events) (capOf level)).
Proof.
  intros Hlevel Hall.
  remember (capOf level) as L eqn:HL.
  induction Hall as [|ev rest Hev Hrest IH]; intros w Hwf Hk Hin.
  - unfold admittedCount. cbn. lia.
  - destruct ev as [ms|request]; cbn [serve hits totalWait] in *.
    + apply (IH (advance ms w)).
      * apply advance_wf, Hwf.
      * rewrite lookup_advance, Hk. reflexivity.
      * lia.
    + destruct Hev as (Hsid & Hlv).
      assert (Hlevel' : Session.riskLevel (Http.session request) <> CRITICAL)
        by congruence.
      destruct (riskThrottle_run w request Hwf Hlevel')
        as (w' & Hrun & Hwf' & Hc & Hk').
      rewrite Hsid, Hlv in *.
      assert (Hnext : nextCount w sid = 1)
        by (unfold nextCount; rewrite Hk; reflexivity).
      assert (Hend : windowEnd w sid = clock w + 60000)
        by (unfold windowEnd; rewrite Hk; reflexivity).
      rewrite Hnext, Hend, <- HL in *. rewrite Hrun.
      rewrite admittedCount_cons.
      rewrite (serve_open_window sid level rest Hlevel Hrest w' 1
                 (clock w + 60000) Hwf' Hk') by lia.
      rewrite <- HL.
      pose proof (hits_nonneg rest).
      destruct (Z.gtb_spec 1 L); cbn [admitted]; lia.
Qed.

Lemma limitFor_listed :
  RiskThrottle.limitFor "LOW" = RiskThrottle.Cap 1000
  /\ RiskThrottle.limitFor "MEDIUM" = RiskThrottle.Cap 200
  /\ RiskThrottle.limitFor "HIGH" = RiskThrottle.Cap 20.
Proof. repeat split; reflexivity. Qed.

Lemma limitFor_unlisted key :
  key <> "LOW" -> key <> "MEDIUM" -> key <> "HIGH" ->
  RiskThrottle.limitFor key
  = if bool_decide (key ∈ RiskThrottle.inherited)
    then RiskThrottle.Member key else RiskThrottle.Cap 10.
Proof.
  intros H1 H2 H3. unfold RiskThrottle.limitFor, RiskThrottle.LIMITS.
  cbn [RiskThrottle.prop].
  rewrite (proj2 (String.eqb_neq "LOW" key)) by congruence.
  rewrite (proj2 (String.eqb_neq "MEDIUM" key)) by congruence.
  rewrite (proj2 (String.eqb_neq "HIGH" key)) by congruence.
  reflexivity.
Qed.

End ThrottlingFacts.

Section ThrottlingClaims.
Import World SessionService Invariants Throttling RiskModel.

(** A request of session s1 at level HIGH. *)
Definition request_high : Http.Request :=
  {| Http.ip := "198.51.100.7";
     Http.headers := {[ "x-device-id" := "d1" ]};
     Http.session := withRisk HIGH 0 (newSession 0 "s1" "u1" (Some "d1") true);
     Http.tenant := None;
     Http.resource := Js.JStr "/api/x";
     Http.action := Js.JStr "GET";
     Http.risk := None;
     Http.opaInput := None |}.

(** One request, 59 seconds, nineteen requests, one second, twenty requests. *)
Definition burst : list Tick :=
  ([Hit request_high; Wait 59000] ++ replicate 19 (Hit request_high)
   ++ [Wait 1000] ++ replicate 20 (Hit request_high))%list.

(** The 60 seconds that start at 59 s see 39 requests of one HIGH session
    admitted, against a cap of 20: the counter that opened at 0 s expires at
    60 s and a new one starts. A level name that the table does not list
    need not get the default either: "constructor" names a member every
    object inherits, and the limit is then that member, no number. And the
    reply sent for a CRITICAL session is not a 403: building it throws. *)
Lemma burst_straddles_two_counters :
  admittedIn 59000 (serve World.empty burst) = 39
  /\ RiskThrottle.limitFor (levelName HIGH) = RiskThrottle.Cap 20
  /\ forallb (fun p => p.2 && (59000 <=? p.1) && (p.1 <? 59000 + 60000))
        (skipn 1 (serve World.empty burst)) = true
  /\ length (skipn 1 (serve World.empty burst)) = 39%nat
  /\ RiskThrottle.limitFor "constructor" = RiskThrottle.Member "constructor"
  /\ RiskThrottle.riskThrottle
       (Http.mkRequest "198.51.100.7" ∅
          (withRisk CRITICAL 0 (newSession 0 "s1" "u1" (Some "d1") true))
          None Js.JNull Js.JNull None None)
       World.empty
     = (Js.Throw
          (Js.mkExn "TypeError" "reply.status(...).json is not a function"),
        World.empty).
Proof.
  split; [vm_compute; reflexivity|]. split; [reflexivity|].
  split; [vm_compute; reflexivity|]. split; [vm_compute; reflexivity|].
  split; reflexivity.
Qed.

(** C6 as the code has it. In every world the services reach, [riskThrottle]
    admits no request of a CRITICAL session and leaves the counters alone;
    for any other level it increments the counter at rate:{sessionId} (a
    counter that starts expires 60 s later, one that exists keeps its
    expiry) and throws RATE_LIMIT_EXCEEDED, which the pipeline maps to 429,
    exactly when the new count exceeds the cap; the caps are LOW 1000,
    MEDIUM 200, HIGH 20, and 10 for a name that is neither listed in the
    table nor a member every object inherits; and in 60 seconds that begin
    with no counter for the session, requests of one level are admitted up
    to the cap and no further. *)
Theorem riskThrottle_admission :
  forall (ops : list Trace.Op) (request : Http.Request),
    let w := Trace.run ops in
    let sid := Session.id (Http.session request) in
    let level := Session.riskLevel (Http.session request) in
    let limit := capOf level in
    RiskThrottle.limitFor (levelName level) = RiskThrottle.Cap limit
    /\ (level = CRITICAL ->
          admitted (RiskThrottle.riskThrottle request w).1 = false
          /\ (RiskThrottle.riskThrottle request w).2 = w)
    /\ (level <> CRITICAL ->
          exists w',
            RiskThrottle.riskThrottle request w
              = (if nextCount w sid >? limit
                 then Js.Throw (Js.Error "RATE_LIMIT_EXCEEDED")
                 else Js.Ok (request, None), w')
            /\ redis w' !! RateLimit.rateKey sid
               = Some (mkEntry (VInt (nextCount w sid))
                         (Some (windowEnd w sid))))
    /\ RiskThrottle.pipelineStatus (Js.Error "RATE_LIMIT_EXCEEDED") = Some 429
    /\ (RiskThrottle.limitFor "LOW" = RiskThrottle.Cap 1000
        /\ RiskThrottle.limitFor "MEDIUM" = RiskThrottle.Cap 200
        /\ RiskThrottle.limitFor "HIGH" = RiskThrottle.Cap 20
        /\ forall key, key <> "LOW" -> key <> "MEDIUM" -> key <> "HIGH" ->
             key ∉ RiskThrottle.inherited ->
             RiskThrottle.limitFor key = RiskThrottle.Cap 10)
    /\ (forall events : list Tick,
          level <> CRITICAL ->
          allOf sid level events ->
          redis w !! RateLimit.rateKey sid = None ->
          totalWait events < 60000 ->
          admittedCount (serve w events) = Z.min (hits events) limit
          /\ admittedIn (clock w) (serve w events) <= limit).
Proof.
  intros ops request w sid level limit.
  assert (Hwf : wf w) by apply run_wf.
  split; [apply limitFor_level|].
  split.
  { intros Hc. unfold RiskThrottle.riskThrottle. fold level.
    rewrite bool_decide_eq_true_2 by assumption. split; reflexivity. }
  split.
  { intros Hc. destruct (riskThrottle_run w request Hwf Hc)
      as (w' & Hrun & _ & _ & Hk). eauto. }
  split; [reflexivity|].
  split.
  { destruct limitFor_listed as (H1 & H2 & H3).
    repeat split; auto. intros key K1 K2 K3 Hin.
    rewrite limitFor_unlisted by assumption.
    rewrite bool_decide_eq_false_2 by assumption. reflexivity. }
  intros events Hc Hall Hk Hwait.
  pose proof (serve_fresh_window sid level events Hc Hall w Hwf Hk Hwait) as Hn.
  pose proof (hits_nonneg events) as Hh.
  assert (Hpos : 0 < limit) by (subst limit; destruct level; cbn; lia).
  fold limit in Hn.
  split; [lia|].
  transitivity (admittedCount (serve w events)); [|lia].
  unfold admittedIn, admittedCount. apply inj_le.
  generalize (serve w events) as log. intros log.
  induction log as [|p log IH]; [reflexivity|].
  rewrite !filter_cons.
  destruct (decide (p.2 = true /\ clock w <= p.1 < clock w + 60000)) as [[H _]|H].
  - rewrite decide_True by assumption. cbn. lia.
  - destruct (decide (p.2 = true)); cbn; lia.
Qed.

Lemma riskThrottle_admission_witness :
  admittedCount (serve World.empty
                   [Hit request_high; Hit request_high; Wait 1000;
                    Hit request_high]) = 3
  /\ admitted (RiskThrottle.riskThrottle
                 (Http.mkRequest "198.51.100.7" ∅
                    (withRisk CRITICAL 0
                       (newSession 0 "s1" "u1" (Some "d1") true))
                    None Js.JNull Js.JNull None None)
                 World.empty).1 = false
  /\ RiskThrottle.limitFor "VERY_HIGH" = RiskThrottle.Cap 10.
Proof.
  split; [|split].
  - destruct (riskThrottle_admission [] request_high)
      as (_ & _ & _ & _ & _ & Hwin).
    destruct (Hwin [Hit request_high; Hit request_high; Wait 1000;
                    Hit request_high]) as [Hcount _].
    + discriminate.
    + repeat constructor.
    + reflexivity.
    + reflexivity.
    + exact Hcount.
  - apply (riskThrottle_admission []
             (Http.mkRequest "198.51.100.7" ∅
                (withRisk CRITICAL 0
                   (newSession 0 "s1" "u1" (Some "d1") true))
                None Js.JNull Js.JNull None None)).
    reflexivity.
  - apply (riskThrottle_admission [] request_high);
      [discriminate| discriminate| discriminate|].
    apply (bool_decide_unpack _). vm_compute. exact I.
Defined.

End ThrottlingClaims.

(** ** Entitlements in force *)

Section ActiveEntitlements.
Import World.

(** An entitlement of u1 that runs out at the very instant it is asked for. *)
Definition expiring_now : Entitlement.t :=
  {| Entitlement.id := "e7";
     Entitlement.subjectType := Entitlement.USER;
     Entitlement.subjectId := "u1";
     Entitlement.resourceType := "report";
     Entitlement.resourceId := "7";
     Entitlement.scopes := ["read:report"];
     Entitlement.status := Entitlement.ACTIVE;
     Entitlement.validFrom := 0;
     Entitlement.validUntil := Some 1000;
     Entitlement.grantedBy := "admin";
     Entitlement.grantReason := "audit";
     Entitlement.createdAt := 0;
     Entitlement.updatedAt := 0;
     Entitlement.revokedAt := None |}.

Definition scenario_expiring : list Trace.Op :=
  [Trace.InsertEntitlement expiring_now; Trace.Advance 1000].

Lemma validUntil_now_is_returned :
  clock (Trace.run scenario_expiring) = 1000
  /\ Entitlement.validUntil expiring_now = Some 1000
  /\ (EntitlementService.getActiveForSubject "u1" (Trace.run scenario_expiring)).1
     = Js.Ok [expiring_now].
Proof. repeat split; vm_compute; reflexivity. Qed.

(** The validity test of [isEntitlementActive], as a proposition: ACTIVE, and
    now within the closed interval from [validFrom] to [validUntil]. *)
Definition inForce (now : Z) (e : Entitlement.t) : Prop :=
  Entitlement.status e = Entitlement.ACTIVE
  /\ Entitlement.validFrom e <= now
  /\ match Entitlement.validUntil e with
     | Some untilMs => now <= untilMs
     | None => True
     end.

#[local] Instance inForce_dec now e : Decision (inForce now e).
Proof. unfold inForce. destruct (Entitlement.validUntil e); apply _. Defined.

Lemma isEntitlementActive_inForce now e :
  Entitlement.isEntitlementActive now e = true <-> inForce now e.
Proof.
  unfold Entitlement.isEntitlementActive, inForce.
  destruct (decide (Entitlement.status e = Entitlement.ACTIVE)) as [Hs|Hs].
  - rewrite bool_decide_eq_true_2 by assumption. cbn.
    destruct (Z.gtb_spec (Entitlement.validFrom e) now) as [Hf|Hf].
    { split; [discriminate|]. intros (_ & H & _). lia. }
    destruct (Entitlement.validUntil e) as [u|].
    + destruct (Z.ltb_spec u now) as [Hu|Hu].
      * split; [discriminate|]. intros (_ & _ & H). lia.
      * split; [|reflexivity]. intros _. split; [assumption|]. split; lia.
    + split; [|reflexivity]. intros _. split; [assumption|]. split; [lia|exact I].
  - rewrite bool_decide_eq_false_2 by assumption. cbn.
    split; [discriminate|]. intros (H & _). contradiction.
Qed.

(** C8 as the code has it. [getActiveForSubject] changes nothing and resolves
    with the rows of the table, in table order, that are the subject's, are
    ACTIVE, and have now in the closed interval from [validFrom] to
    [validUntil] (no upper end without [validUntil]): a row whose [validFrom]
    is now is returned, and so is one whose [validUntil] is now. *)
Theorem getActiveForSubject_closed_window :
  forall (w : World.t) (subjectId : string),
    exists rows,
      EntitlementService.getActiveForSubject subjectId w = (Js.Ok rows, w)
      /\ rows = filter (fun e => Entitlement.subjectId e = subjectId
                                 /\ inForce (clock w) e) (entitlementTable w)
      /\ (forall e, e ∈ rows <->
            e ∈ entitlementTable w
            /\ Entitlement.subjectId e = subjectId
            /\ Entitlement.status e = Entitlement.ACTIVE
            /\ Entitlement.validFrom e <= clock w
            /\ (forall untilMs, Entitlement.validUntil e = Some untilMs ->
                  clock w <= untilMs))
      /\ (forall e, e ∈ entitlementTable w ->
            Entitlement.subjectId e = subjectId ->
            Entitlement.status e = Entitlement.ACTIVE ->
            Entitlement.validFrom e <= clock w ->
            Entitlement.validUntil e = Some (clock w) -> e ∈ rows).
Proof.
  intros w subj.
  set (rows := filter (fun e => Entitlement.subjectId e = subj
                                /\ inForce (clock w) e) (entitlementTable w)).
  assert (Hmem : forall e, e ∈ rows <->
            e ∈ entitlementTable w
            /\ Entitlement.subjectId e = subj
            /\ Entitlement.status e = Entitlement.ACTIVE
            /\ Entitlement.validFrom e <= clock w
            /\ (forall untilMs, Entitlement.validUntil e = Some untilMs ->
                  clock w <= untilMs)).
  { intros e. subst rows. rewrite list_elem_of_filter. unfold inForce.
    split.
    - intros ((Hs & Ha & Hf & Hu) & Hin). repeat split; auto.
      intros u Hu'. rewrite Hu' in Hu. exact Hu.
    - intros (Hin & Hs & Ha & Hf & Hu). repeat split; auto.
      destruct (Entitlement.validUntil e); auto. }
  exists rows. split; [|split; [reflexivity|split; [exact Hmem|]]].
  - unfold EntitlementService.getActiveForSubject, Prisma.findMany.
    unfold mbind, mret, Js.M_bind, Js.M_ret, dateNow. cbn.
    f_equal. f_equal. subst rows. clear Hmem.
    induction (entitlementTable w) as [|e l IH]; [reflexivity|].
    rewrite !filter_cons.
    destruct (decide (Entitlement.subjectId e = subj
                      /\ Entitlement.status e = Entitlement.ACTIVE))
      as [[Hs Ha]|Hn].
    + rewrite filter_cons.
      destruct (decide (Entitlement.isEntitlementActive (clock w) e = true))
        as [Hact|Hact].
      * rewrite decide_True
          by (split; [assumption|apply isEntitlementActive_inForce, Hact]).
        rewrite IH. reflexivity.
      * rewrite decide_False; [exact IH|].
        intros (_ & Hf). apply Hact, isEntitlementActive_inForce, Hf.
    + rewrite decide_False; [exact IH|].
      intros (Hs & Ha & _). apply Hn. auto.
  - intros e Hin Hs Ha Hf Hu. apply Hmem. repeat split; auto.
    intros u Hu'. rewrite Hu in Hu'. injection Hu' as <-. lia.
Qed.

End ActiveEntitlements.

(** ** Device binding *)

Section DeviceBindingClaims.
Import World.

(** Scenario S2: session s1 bound to d1, request from d2. *)
Definition request_d2 : Http.Request :=
  {| Http.ip := "198.51.100.7";
     Http.headers := {[ "x-device-id" := "d2" ]};
     Http.session := Invariants.newSession 0 "s1" "u1" (Some "d1") true;
     Http.tenant := None;
     Http.resource := Js.JStr "/api/x";
     Http.action := Js.JStr "GET";
     Http.risk := None;
     Http.opaInput := None |}.

(** C9. The claim asks for a 401 reply when the X-Device-Id header is
    missing or differs from the session's device id. The hook never gets
    that far: its parameters are [request] and [reply], its body reads
    [req], and so every call, whatever the header and the session, throws
    a ReferenceError and leaves the world as it found it. In particular the
    request of scenario S2 (session bound to d1, header d2) gets no 401. *)
Theorem enforceDeviceBinding_throws :
  (forall (request : Http.Request) (w : World.t),
     DeviceBinding.enforceDeviceBinding request w
       = (Js.Throw (Js.mkExn "ReferenceError" "req is not defined"), w))
  /\ Session.deviceId (Http.session request_d2) = Some "d1"
  /\ Http.headers request_d2 !! "x-device-id" = Some "d2"
  /\ DeviceBinding.enforceDeviceBinding request_d2 World.empty
     <> (Js.Ok (request_d2,
                Some (Js.mkResponse 401
                        (Js.JObj [("error", Js.JStr "Device mismatch")]))),
         World.empty).
Proof.
  assert (H : forall request w,
             DeviceBinding.enforceDeviceBinding request w
             = (Js.Throw (Js.mkExn "ReferenceError" "req is not defined"), w))
    by reflexivity.
  split; [exact H|]. split; [reflexivity|]. split; [reflexivity|].
  rewrite H. discriminate.
Qed.

End DeviceBindingClaims.

(** ** The policy engine out of reach *)

Section PolicyFailure.
Import World.

(** An engine that answers every request with 503. *)
Definition engine_503 : Opa.Engine :=
  fun _ => Opa.Responded 503 "Service Unavailable" None.

(** An engine that never answers. *)
Definition engine_silent : Opa.Engine := fun _ => Opa.Silent.

(** A 503 from the engine makes [opaClient.decide] reject with the HTTP
    client's error: an exception, and no decision. An engine that does not
    answer within the time allowed makes [evaluatePolicyHttp] reject as
    well. *)
Lemma policy_outage_raises :
  Opa.decide engine_503 (Js.JObj [("input", Js.JNull)]) World.empty
    = (Opa.Settled
         (Js.Throw (Js.mkExn "AxiosError"
                      "Request failed with status code 503")),
       World.empty)
  /\ Opa.evaluatePolicyHttp "http://opa:8181/v1/data/authz/allow" engine_silent
       Js.JNull World.empty
     = (Js.Throw
          (Js.mkExn "FetchError"
             "network timeout at: http://opa:8181/v1/data/authz/allow"),
        World.empty).
Proof. split; reflexivity. Qed.

(** C7 as the code has it. For every policy input: [evaluatePolicyHttp],
    with a URL configured, turns a response outside 2xx into allow = false
    with the status and body text as explanation, and raises nothing; when
    the engine does not answer within the time allowed it rejects with the
    fetch error. [opaClient.decide] rejects with the HTTP client's error,
    which names the status, for a response outside 2xx; it sets no timeout,
    so while the engine does not answer it neither returns nor throws. None
    of them changes the world. *)
Theorem policy_failure_outcomes :
  forall (engine : Opa.Engine) (OPA_URL : string) (input : Js.Json)
         (w : World.t),
    OPA_URL <> "" ->
    let posted := engine (Js.JObj [("input", input)]) in
    (forall status text json,
       posted = Opa.Responded status text json -> Opa.ok status = false ->
       Opa.evaluatePolicyHttp OPA_URL engine input w
         = (Js.Ok {| Opa.allow := false;
                     Opa.details := Js.JObj [("status", Js.JNum status);
                                             ("text", Js.JStr text)] |}, w)
       /\ Opa.decide engine (Js.JObj [("input", input)]) w
          = (Opa.Settled
               (Js.Throw
                  (Js.mkExn "AxiosError"
                     ("Request failed with status code "
                      ++ NilZero.string_of_int (Z.to_int status)))), w))
    /\ (posted = Opa.Silent ->
          (exists message,
             Opa.evaluatePolicyHttp OPA_URL engine input w
               = (Js.Throw (Js.mkExn "FetchError" message), w))
          /\ Opa.decide engine (Js.JObj [("input", input)]) w
             = (Opa.Pending, w)).
Proof.
  intros engine url input w Hurl posted.
  assert (Hne : String.eqb url "" = false) by (apply String.eqb_neq, Hurl).
  split.
  - intros status text json Hp Hok. split.
    + unfold Opa.evaluatePolicyHttp, Opa.fetch. rewrite Hne. fold posted.
      rewrite Hp. unfold mbind, mret, Js.M_bind, Js.M_ret. cbn.
      rewrite Hok. reflexivity.
    + unfold Opa.decide, Opa.andThen, Opa.axios_post. fold posted.
      rewrite Hp, Hok. reflexivity.
  - intros Hp. split.
    + unfold Opa.evaluatePolicyHttp, Opa.fetch. rewrite Hne.
      fold posted. rewrite Hp. eexists. reflexivity.
    + unfold Opa.decide, Opa.andThen, Opa.axios_post. fold posted.
      rewrite Hp. reflexivity.
Qed.

Lemma policy_failure_outcomes_witness :
  Opa.evaluatePolicyHttp "http://opa:8181/v1/data/authz/allow" engine_503
    Js.JNull World.empty
  = (Js.Ok {| Opa.allow := false;
              Opa.details := Js.JObj [("status", Js.JNum 503);
                                      ("text", Js.JStr "Service Unavailable")] |},
     World.empty)
  /\ Opa.decide engine_silent (Js.JObj [("input", Js.JNull)]) World.empty
     = (Opa.Pending, World.empty).
Proof.
  split.
  - apply (proj1 (policy_failure_outcomes engine_503
                    "http://opa:8181/v1/data/authz/allow" Js.JNull
                    World.empty ltac:(discriminate))
             503 "Service Unavailable" None); reflexivity.
  - apply (proj2 (policy_failure_outcomes engine_silent
                    "http://opa:8181/v1/data/authz/allow" Js.JNull
                    World.empty ltac:(discriminate))); reflexivity.
Defined.

End PolicyFailure.

(** ** The hash-chained audit log *)

Section AuditChain.
Import Js JSON ImmutableAuditLog.

(** The log after appending [events] in order. *)
Definition appendAll (events : list Obj) (log : ImmutableAuditLog.t)
    : ImmutableAuditLog.t :=
  fold_left (fun log event => (append event log).2) events log.

(** The value [prev] holds after the loop of [verify] has passed [events]. *)
Fixpoint headOf (prev : Json) (events : list Obj) : Json :=
  match events with
  | [] => prev
  | event :: rest => headOf (lookupField "eventId" event) rest
  end.

(** The object literal of [append] has no [eventId] of its own
    ([Omit<AuditEvent, 'eventId'>]). *)
Definition withoutId (event : Obj) : Prop :=
  lookupField "eventId" event = JUndefined.

(** No two of these strings have the same digest. *)
Definition noCollision (x y : string) : Prop :=
  Sha256.sha256hex x = Sha256.sha256hex y -> x = y.

(** The properties [JSON.stringify] writes: those whose value is defined. *)
Definition defined (obj : Obj) : Obj :=
  omap (fun kv : string * Json =>
          match kv.2 with
          | JUndefined => None
          | _ => Some kv
          end) obj.

Lemma stringify_defined obj : stringify obj = stringify (defined obj).
Proof.
  unfold stringify, defined. cbn [serialize]. do 3 f_equal.
  induction obj as [|[k x] rest IH]; [reflexivity|].
  destruct x; cbn; rewrite ?IH; reflexivity.
Qed.

Lemma defined_unset key x obj :
  lookupField key obj = JUndefined ->
  defined (setProp key JUndefined (setProp key x obj)) = defined obj.
Proof.
  induction obj as [|[k y] rest IH]; cbn [lookupField setProp].
  - intros _. rewrite String.eqb_refl. reflexivity.
  - destruct (String.eqb_spec k key) as [->|Hne].
    + intros ->. cbn [setProp]. rewrite String.eqb_refl. reflexivity.
    + intros H. cbn [setProp].
      rewrite (proj2 (String.eqb_neq k key)) by assumption.
      unfold defined in *. cbn. rewrite (IH H). reflexivity.
Qed.

Lemma defined_setProp_unset key other v x obj :
  key <> other ->
  lookupField key obj = JUndefined ->
  defined (setProp other v (setProp key JUndefined (setProp key x obj)))
  = defined (setProp other v obj).
Proof.
  intros Hko. induction obj as [|[k y] rest IH]; cbn [lookupField setProp].
  - intros _. rewrite String.eqb_refl. cbn [setProp].
    rewrite (proj2 (String.eqb_neq key other)) by assumption.
    reflexivity.
  - destruct (String.eqb_spec k key) as [->|Hne].
    + intros ->. cbn [setProp]. rewrite String.eqb_refl. reflexivity.
    + intros H. cbn [setProp].
      rewrite (proj2 (String.eqb_neq k key)) by assumption. cbn [setProp].
      destruct (String.eqb_spec k other) as [->|Hne'].
      * unfold defined. cbn [omap list_omap].
        change (omap ?f ?l) with (defined l) at 1.
        fold (defined (setProp key JUndefined (setProp key x rest))).
        fold (defined rest).
        rewrite (defined_unset key x rest H). reflexivity.
      * unfold defined in *. cbn. rewrite (IH H). reflexivity.
Qed.

(** What [verify] hashes for a record [append] wrote is what [append]
    hashed. *)
Lemma canonical_appended (prev : string) (event : Obj) (id : string) :
  withoutId event ->
  canonical (JStr prev) (setProp "eventId" (JStr id) event)
  = stringify (setProp "previousHash" (JStr prev) event).
Proof.
  intros H. unfold canonical.
  rewrite stringify_defined, (stringify_defined (setProp _ _ event)).
  rewrite defined_setProp_unset; [reflexivity|discriminate|exact H].
Qed.

Lemma lookupField_setProp key v obj :
  lookupField key (setProp key v obj) = v.
Proof.
  induction obj as [|[k y] rest IH]; cbn.
  - rewrite String.eqb_refl. reflexivity.
  - destruct (String.eqb_spec k key) as [->|Hne]; cbn.
    + rewrite String.eqb_refl. reflexivity.
    + rewrite (proj2 (String.eqb_neq k key)) by assumption. exact IH.
Qed.

Lemma verifyFrom_app prev l1 l2 :
  verifyFrom prev (l1 ++ l2)
  = verifyFrom prev l1 && verifyFrom (headOf prev l1) l2.
Proof.
  revert prev. induction l1 as [|event rest IH]; intros prev; cbn.
  - reflexivity.
  - destruct (differs _ _); [reflexivity|]. apply IH.
Qed.

Lemma headOf_app prev l1 l2 :
  headOf prev (l1 ++ l2) = headOf (headOf prev l1) l2.
Proof.
  revert prev. induction l1 as [|event rest IH]; intros prev; cbn; auto.
Qed.

(** The chain invariant of a log: it verifies, and [lastHash] is the id the
    chain ends in. *)
Definition chained (log : ImmutableAuditLog.t) : Prop :=
  verify log = true
  /\ headOf (JStr "GENESIS") (events log) = JStr (lastHash log).

Lemma new_chained : chained new.
Proof. split; reflexivity. Qed.

Lemma append_chained event log :
  withoutId event -> chained log -> chained (append event log).2.
Proof.
  intros Hev (Hv & Hh). unfold chained, verify, append. cbn [snd events lastHash].
  rewrite verifyFrom_app, headOf_app. fold (verify log). rewrite Hv, Hh.
  cbn [andb verifyFrom headOf].
  rewrite lookupField_setProp.
  rewrite canonical_appended by assumption.
  cbn [differs]. rewrite String.eqb_refl. split; reflexivity.
Qed.

Lemma appendAll_chained events log :
  Forall withoutId events -> chained log -> chained (appendAll events log).
Proof.
  intros Hall. revert log. induction Hall as [|event rest Hev _ IH];
    intros log Hlog; cbn; [assumption|].
  apply IH, append_chained; assumption.
Qed.

End AuditChain.

(** *** [JSON.stringify] tells two previous hashes apart *)

Section QuoteInjective.
Import Js JSON.

Lemma append_cons (x : ascii) (a b : string) :
  String x a +:+ b = String x (a +:+ b).
Proof. reflexivity. Qed.

Lemma append_nil_l (b : string) : "" +:+ b = b.
Proof. reflexivity. Qed.

Lemma append_assoc (a b c : string) : (a +:+ b) +:+ c = a +:+ (b +:+ c).
Proof.
  induction a as [|x a IH]; [reflexivity|].
  rewrite !append_cons, IH. reflexivity.
Qed.

Lemma append_nil_r (a : string) : a +:+ "" = a.
Proof.
  induction a as [|x a IH]; [reflexivity|]. rewrite append_cons, IH. reflexivity.
Qed.

Definition hexValue (c : ascii) : N :=
  let n := N_of_ascii c in
  if (n <? 58)%N then (n - 48)%N else (n - 87)%N.

(** Reads one quoted code unit back from the front of a string; [None] at
    the closing quote. *)
Definition unquote1 (s : string) : option (ascii * string) :=
  match s with
  | EmptyString => None
  | String c rest =>
      if Ascii.eqb c dquote then None
      else if Ascii.eqb c backslash then
        match rest with
        | String e rest' =>
            if Ascii.eqb e "u" then
              match rest' with
              | String _ (String _ (String h (String l r))) =>
                  Some (ascii_of_N (16 * hexValue h + hexValue l), r)
              | _ => None
              end
            else if Ascii.eqb e "b" then Some (ascii_of_nat 8, rest')
            else if Ascii.eqb e "f" then Some (ascii_of_nat 12, rest')
            else if Ascii.eqb e "n" then Some (ascii_of_nat 10, rest')
            else if Ascii.eqb e "r" then Some (ascii_of_nat 13, rest')
            else if Ascii.eqb e "t" then Some (ascii_of_nat 9, rest')
            else Some (e, rest')
        | EmptyString => None
        end
      else Some (c, rest)
  end.

Lemma unquote1_quoteChar (c : ascii) (rest : string) :
  unquote1 (quoteChar c +:+ rest) = Some (c, rest).
Proof.
  destruct c as [[] [] [] [] [] [] [] []]; vm_compute; reflexivity.
Qed.

Lemma quoteChars_inj (a b rest1 rest2 : string) :
  quoteChars a +:+ String dquote rest1 = quoteChars b +:+ String dquote rest2 ->
  a = b /\ rest1 = rest2.
Proof.
  revert b. induction a as [|c a IH]; intros [|c' b]; cbn [quoteChars].
  - rewrite !append_nil_l. intros [= ->]. auto.
  - rewrite append_assoc, append_nil_l. intros H.
    apply (f_equal unquote1) in H.
    rewrite unquote1_quoteChar in H. discriminate.
  - rewrite append_assoc, append_nil_l. intros H.
    apply (f_equal unquote1) in H.
    rewrite unquote1_quoteChar in H. discriminate.
  - rewrite !append_assoc. intros H. apply (f_equal unquote1) in H.
    rewrite !unquote1_quoteChar in H. injection H as -> H.
    destruct (IH _ H) as [-> ->]. auto.
Qed.

(** Where [setProp] puts the value does not depend on the value. *)
Lemma setProp_split key (obj : Obj) :
  exists pre post, forall v, setProp key v obj = (pre ++ (key, v) :: post)%list.
Proof.
  induction obj as [|[k x] rest (pre & post & IH)].
  - exists [], []. reflexivity.
  - destruct (String.eqb_spec k key) as [->|Hne].
    + exists [], rest. intros v. cbn. rewrite String.eqb_refl. reflexivity.
    + exists ((k, x) :: pre), post. intros v. cbn.
      rewrite (proj2 (String.eqb_neq k key)) by assumption.
      rewrite IH. reflexivity.
Qed.

Lemma concat_split (before after : list string) :
  exists P S, forall x,
    String.concat "," (before ++ x :: after)%list = P +:+ x +:+ S.
Proof.
  induction before as [|y before (P & S & IH)].
  - destruct after as [|z after].
    + exists "", "". intros x. cbn. rewrite append_nil_r. reflexivity.
    + exists "", ("," +:+ String.concat "," (z :: after)). intros x. reflexivity.
  - exists (y +:+ "," +:+ P), S. intros x.
    change ((y :: before) ++ x :: after)%list
      with (y :: (before ++ x :: after))%list.
    assert (Hne : exists h t, (before ++ x :: after)%list = h :: t).
    { destruct before; cbn; eauto. }
    destruct Hne as (h & t & Hne).
    cbn [String.concat]. rewrite Hne, <- Hne, IH.
    rewrite !append_assoc. reflexivity.
Qed.

(** The string hashed for a record is a fixed text around the quoted
    previous hash. *)
Lemma canonical_shape (event : Obj) :
  exists P S, forall prev : string,
    ImmutableAuditLog.canonical (JStr prev) event
    = P +:+ quoteChars prev +:+ String dquote S.
Proof.
  unfold ImmutableAuditLog.canonical, stringify.
  destruct (setProp_split "previousHash" (setProp "eventId" JUndefined event))
    as (pre & post & Hset).
  set (member := fun kv : string * Json =>
                   let (k, x) := kv in
                   match x with
                   | JUndefined => None
                   | _ => Some (quote k +:+ ":" +:+ serialize x)
                   end).
  destruct (concat_split (omap member pre) (omap member post)) as (P & S & Hcat).
  exists ("{" +:+ P +:+ quote "previousHash" +:+ ":" +:+ String dquote ""),
    (S +:+ "}").
  intros prev. rewrite Hset. cbn [serialize]. fold member.
  rewrite omap_app. cbn [omap list_omap member]. fold (omap member post).
  cbn [serialize]. rewrite Hcat. unfold quote at 2.
  repeat (rewrite ?append_cons, ?append_nil_l, ?append_assoc). reflexivity.
Qed.

Lemma canonical_prev_inj (event : Obj) (a b : string) :
  ImmutableAuditLog.canonical (JStr a) event
  = ImmutableAuditLog.canonical (JStr b) event ->
  a = b.
Proof.
  destruct (canonical_shape event) as (P & S & H). rewrite !H.
  intros E. apply String.app_inj in E. apply quoteChars_inj in E. tauto.
Qed.

End QuoteInjective.

(** *** Verification of honest and of tampered logs *)

Section TamperEvidence.
Import Js JSON ImmutableAuditLog.

Lemma differs_false (reconstructed : string) (v : Json) :
  differs reconstructed v = false <-> v = JStr reconstructed.
Proof.
  unfold differs. destruct v; try (split; [discriminate|congruence]).
  destruct (String.eqb_spec reconstructed s) as [->|Hne]; cbn.
  - split; reflexivity.
  - split; [discriminate|]. intros [= ->]. contradiction.
Qed.

Lemma verifyFrom_cons prev event rest :
  verifyFrom prev (event :: rest) = true <->
  lookupField "eventId" event = JStr (Sha256.sha256hex (canonical prev event))
  /\ verifyFrom (lookupField "eventId" event) rest = true.
Proof.
  cbn [verifyFrom].
  destruct (differs _ _) eqn:Hd.
  - split; [discriminate|]. intros (H & _).
    apply differs_false in H. congruence.
  - apply differs_false in Hd. tauto.
Qed.

(** The first two events of a key's life, as [KeyRotationService] writes
    them. *)
Definition key_created : Obj :=
  [("timestamp", JNum 1700000000000); ("actor", JStr "alice");
   ("action", JStr "KEY_CREATED"); ("keyId", JStr "k1");
   ("keyVersion", JNum 1); ("contextHash", JStr "5f2c")].

Definition key_used : Obj :=
  [("timestamp", JNum 1700000060000); ("actor", JStr "bob");
   ("action", JStr "KEY_USED"); ("keyId", JStr "k1");
   ("keyVersion", JNum 1); ("contextHash", JStr "5f2c")].

Definition honest_log : ImmutableAuditLog.t :=
  appendAll [key_created; key_used] new.

(** The last record rewritten to name another actor, its id recomputed over
    the rewritten record. *)
Definition forged_record : Obj :=
  let first := nth 0 (events honest_log) [] in
  let content := setProp "actor" (JStr "mallory") (nth 1 (events honest_log) []) in
  setProp "eventId"
    (JStr (Sha256.sha256hex (canonical (lookupField "eventId" first) content)))
    content.

Definition forged_log : ImmutableAuditLog.t :=
  {| events := [nth 0 (events honest_log) []; forged_record];
     lastHash := lastHash honest_log |}.

(** C2. The claim has verification fail for any log in which a single
    record is mutated, and the class documents [verify] as detecting
    modified records. [verify] misses the mutation of the last record: in
    the log of two appended events, the second record rewritten to name
    another actor, with its id recomputed over the rewritten record, is the
    only record changed, and [verify] returns true. The loop compares each
    stored id with the recomputed one and each record with its predecessor,
    but never the last id with [lastHash], which still holds the id of the
    record as it was appended. *)
Theorem forged_last_record_verifies :
  verify honest_log = true
  /\ length (events forged_log) = length (events honest_log)
  /\ nth 0 (events forged_log) [] = nth 0 (events honest_log) []
  /\ lookupField "actor" (nth 1 (events honest_log) []) = JStr "bob"
  /\ lookupField "actor" (nth 1 (events forged_log) []) = JStr "mallory"
  /\ lookupField "eventId" (nth 1 (events honest_log) [])
     = JStr (lastHash forged_log)
  /\ lookupField "eventId" (nth 1 (events forged_log) [])
     <> JStr (lastHash forged_log)
  /\ verify forged_log = true.
Proof.
  do 6 (split; [vm_compute; reflexivity|]).
  split; [vm_compute; discriminate|vm_compute; reflexivity].
Qed.

(** X24. What [verify] does establish. Appending any events (object
    literals without an [eventId]) to a new log gives a log whose every
    prefix verifies: recomputing each digest from the record without its id
    and the previous id (GENESIS first) gives the stored id. A record whose
    stored id is not the digest of what it now holds makes verification
    fail, whatever follows it. And a mutation of a record that is followed
    by another, changing what is hashed or the id, makes verification fail,
    provided SHA-256 does not collide on the two texts of the record, nor on
    the two texts of the record after it. *)
Theorem audit_chain_tamper_evidence :
  (forall evs : list Obj,
     Forall withoutId evs ->
     verify (appendAll evs new) = true
     /\ forall n,
          verifyFrom (JStr "GENESIS") (take n (events (appendAll evs new)))
          = true)
  /\ (forall (prev0 : Json) (before : list Obj) (r' : Obj) (rest : list Obj),
        lookupField "eventId" r'
          <> JStr (Sha256.sha256hex (canonical (headOf prev0 before) r')) ->
        verifyFrom prev0 (before ++ r' :: rest) = false)
  /\ (forall (prev0 : Json) (before : list Obj) (r r' s : Obj)
             (rest : list Obj),
        verifyFrom prev0 (before ++ r :: s :: rest) = true ->
        let prev := headOf prev0 before in
        (canonical prev r' <> canonical prev r
         \/ lookupField "eventId" r' <> lookupField "eventId" r) ->
        noCollision (canonical prev r') (canonical prev r) ->
        noCollision (canonical (lookupField "eventId" r') s)
                    (canonical (lookupField "eventId" r) s) ->
        verifyFrom prev0 (before ++ r' :: s :: rest) = false).
Proof.
  assert (Hstale : forall prev0 before r' rest,
            lookupField "eventId" r'
              <> JStr (Sha256.sha256hex (canonical (headOf prev0 before) r')) ->
            verifyFrom prev0 (before ++ r' :: rest) = false).
  { intros prev0 before r' rest Hne. rewrite verifyFrom_app. cbn [verifyFrom].
    destruct (differs _ _) eqn:Hd; [apply andb_false_r|].
    apply differs_false in Hd. contradiction. }
  split; [|split; [exact Hstale|]].
  - intros evs Hall.
    destruct (appendAll_chained evs new Hall new_chained) as (Hv & _).
    split; [exact Hv|]. intros n. unfold verify in Hv.
    rewrite <- (take_drop n (events (appendAll evs new))) in Hv.
    rewrite verifyFrom_app in Hv. apply andb_true_iff in Hv. tauto.
  - intros prev0 before r r' s rest Hok prev Hmut Hc1 Hc2.
    rewrite verifyFrom_app in Hok. apply andb_true_iff in Hok as (Hb & Hok).
    apply verifyFrom_cons in Hok as (Hr & Hok).
    apply verifyFrom_cons in Hok as (Hs & _).
    fold prev in Hr.
    destruct (differs (Sha256.sha256hex (canonical prev r'))
                (lookupField "eventId" r')) eqn:Hr'.
    { apply Hstale. fold prev. intros E. apply differs_false in E. congruence. }
    apply differs_false in Hr'.
    rewrite verifyFrom_app, Hb. cbn [andb].
    destruct (verifyFrom (headOf prev0 before) (r' :: s :: rest)) eqn:Hv;
      [exfalso|reflexivity].
    apply verifyFrom_cons in Hv as (_ & Hv).
    apply verifyFrom_cons in Hv as (Hs' & _).
    rewrite Hs in Hs'. injection Hs' as Hs'. symmetry in Hs'.
    apply Hc2 in Hs'.
    rewrite Hr, Hr' in Hs'.
    apply canonical_prev_inj in Hs'.
    destruct Hmut as [Hmut|Hmut].
    + apply Hmut, Hc1. fold prev. exact Hs'.
    + apply Hmut. rewrite Hr, Hr'. fold prev. congruence.
Qed.

(** The first record of the honest log rewritten, id recomputed: the second
    record gives it away. *)
Definition forged_first : Obj :=
  let content := setProp "actor" (JStr "mallory") (nth 0 (events honest_log) []) in
  setProp "eventId"
    (JStr (Sha256.sha256hex (canonical (JStr "GENESIS") content))) content.

Lemma audit_chain_tamper_evidence_witness :
  verify (appendAll [key_created; key_used] new) = true
  /\ verifyFrom (JStr "GENESIS")
       ([] ++ forged_first :: nth 1 (events honest_log) [] :: []) = false.
Proof.
  destruct audit_chain_tamper_evidence as (Hhonest & _ & Hsucc).
  split.
  - refine (proj1 (Hhonest [key_created; key_used] _)).
    constructor; [reflexivity|]. constructor; [reflexivity|]. constructor.
  - refine (Hsucc (JStr "GENESIS") [] (nth 0 (events honest_log) [])
              forged_first (nth 1 (events honest_log) []) [] _ _ _ _).
    + vm_compute. reflexivity.
    + right. vm_compute. discriminate.
    + intros H. vm_compute in H. discriminate.
    + intros H. vm_compute in H. discriminate.
Defined.

End TamperEvidence.

(* ===================================================================== *)
(** * Part III. Further properties of the services                        *)
(* ===================================================================== *)

(** ** The session store over time *)

Section SessionLifetime.
Import World SessionService Invariants.

(** X1. In every world the services reach, a key [session:<id>] holds the
    JSON of a session whose own id is [id]; the key expires within eight
    hours; and the session's subject has an index set that lists [id] and
    expires strictly later than the session does. *)
Theorem reachable_sessions_are_indexed (ops : list Trace.Op) (id : string)
    (e : Entry) :
  redis (Trace.run ops) !! sessionKey id = Some e ->
  exists s t members ti,
    e = mkEntry (VJson s) (Some t)
    /\ Session.id s = id
    /\ clock (Trace.run ops) < t
       <= clock (Trace.run ops) + SESSION_TTL_SECONDS * 1000
    /\ redis (Trace.run ops) !! indexKey (Session.subjectId s)
       = Some (mkEntry (VSet members) (Some ti))
    /\ id ∈ members /\ t < ti.
Proof.
  intros E.
  destruct (wf_session _ (run_wf ops) _ _ E)
    as (s & t & -> & Hid & _ & Ht & m & ti & Hm & Hin & Hlt).
  exists s, t, m, ti. unfold TTL_MS in Ht. auto 10.
Qed.

Lemma reachable_sessions_are_indexed_witness :
  exists s t members ti,
    mkEntry (VJson (newSession 0 "s1" "u1" None true)) (Some 28800000)
      = mkEntry (VJson s) (Some t)
    /\ Session.id s = "s1"
    /\ clock (Trace.run [Trace.Create "s1" "u1" None true]) < t
       <= clock (Trace.run [Trace.Create "s1" "u1" None true])
          + SESSION_TTL_SECONDS * 1000
    /\ redis (Trace.run [Trace.Create "s1" "u1" None true])
         !! indexKey (Session.subjectId s)
       = Some (mkEntry (VSet members) (Some ti))
    /\ "s1" ∈ members /\ t < ti.
Proof.
  apply (reachable_sessions_are_indexed [Trace.Create "s1" "u1" None true]).
  vm_compute. reflexivity.
Defined.

(** X2. A session [create] stores is what [get] returns for its id for
    eight hours, and [null] from then on: after [ms] milliseconds with no
    other call, [get] resolves with the created session when [ms] is below
    28 800 000 and with [null] otherwise. *)
Theorem created_session_lives_eight_hours (ops : list Trace.Op)
    (uuid subjectId : string) (deviceId : option string) (mfaVerified : bool)
    (ms : N) :
  let w := Trace.run ops in
  let w1 := (create uuid subjectId deviceId mfaVerified w).2 in
  (SessionService.get uuid (advance ms w1)).1
  = Js.Ok (if Z.of_N ms <? SESSION_TTL_SECONDS * 1000
           then Some (newSession (clock w) uuid subjectId deviceId mfaVerified)
           else None).
Proof.
  intros w w1. subst w1.
  destruct (create_run w uuid subjectId deviceId mfaVerified (run_wf ops))
    as (w' & -> & Hwf' & [Hc _] & _ & _ & Hkey & _). cbn [snd].
  rewrite (get_run _ _ (advance_wf w' ms Hwf')). cbn [fst]. f_equal.
  unfold sessionAt. rewrite lookup_advance, Hkey. unfold alive. cbn.
  rewrite Hc. unfold TTL_MS.
  replace (clock w + Z.of_N ms <? clock w + SESSION_TTL_SECONDS * 1000)
    with (Z.of_N ms <? SESSION_TTL_SECONDS * 1000).
  - destruct (Z.of_N ms <? SESSION_TTL_SECONDS * 1000); reflexivity.
  - destruct (Z.ltb_spec (Z.of_N ms) (SESSION_TTL_SECONDS * 1000));
      destruct (Z.ltb_spec (clock w + Z.of_N ms)
                  (clock w + SESSION_TTL_SECONDS * 1000)); try reflexivity; lia.
Qed.

(** X3. [updateRisk] on a stored session rewrites its key with the two
    fields it assigns and the expiry the key had: a risk update neither
    extends nor shortens a session's life, writes no audit entry and touches
    no other key. *)
Theorem updateRisk_keeps_expiry (ops : list Trace.Op) (sessionId : string)
    (riskLevel : RiskModel.RiskLevel) (lastEvaluatedAt : Z)
    (s : Session.t) (ttl : option Z) :
  let w := Trace.run ops in
  redis w !! sessionKey sessionId = Some (mkEntry (VJson s) ttl) ->
  updateRisk sessionId riskLevel lastEvaluatedAt w
  = (Js.Ok tt,
     setRedis (<[sessionKey sessionId :=
                   mkEntry (VJson (withRisk riskLevel lastEvaluatedAt s)) ttl]>
                 (redis w)) w).
Proof.
  intros w E. assert (Hwf : wf w) by apply run_wf. clearbody w.
  destruct (wf_session _ Hwf _ _ E) as (s' & t & [= <- ->] & Hid & _).
  subst sessionId.
  revert E. unfold updateRisk. run_unfold. intros E. rewrite E. cbn.
  rewrite E. reflexivity.
Qed.

Lemma updateRisk_keeps_expiry_witness :
  updateRisk "s1" RiskModel.HIGH 5
    (Trace.run [Trace.Create "s1" "u1" None true])
  = (Js.Ok tt,
     setRedis
       (<[sessionKey "s1" :=
            mkEntry (VJson (withRisk RiskModel.HIGH 5
                              (newSession 0 "s1" "u1" None true)))
              (Some 28800000)]>
          (redis (Trace.run [Trace.Create "s1" "u1" None true])))
       (Trace.run [Trace.Create "s1" "u1" None true])).
Proof.
  apply (updateRisk_keeps_expiry [Trace.Create "s1" "u1" None true] "s1"
           RiskModel.HIGH 5 (newSession 0 "s1" "u1" None true) (Some 28800000)).
  vm_compute. reflexivity.
Defined.

(** X4. [revoke] is idempotent and local: after one [revoke] of a session
    id, a second one changes nothing (no key, no audit entry), [get] of that
    id resolves with [null], and [get] of every other id resolves with what
    it resolved with before. *)
Theorem revoke_idempotent_and_local (ops : list Trace.Op) (sessionId : string) :
  let w := Trace.run ops in
  let w1 := (revoke sessionId w).2 in
  revoke sessionId w1 = (Js.Ok tt, w1)
  /\ (SessionService.get sessionId w1).1 = Js.Ok None
  /\ forall other, other <> sessionId ->
       (SessionService.get other w1).1 = (SessionService.get other w).1.
Proof.
  intros w w1. subst w1.
  destruct (revoke_run w sessionId (run_wf ops))
    as (w' & -> & Hwf' & _ & _ & Habs & Hother & _). cbn [snd].
  split; [apply revoke_absent, Habs|].
  split; [rewrite (get_absent _ _ Habs); reflexivity|].
  intros other Hne.
  rewrite (get_run _ _ Hwf'), (get_run _ _ (run_wf ops)). cbn [fst].
  unfold sessionAt. rewrite (Hother _ Hne). reflexivity.
Qed.

End SessionLifetime.

(** ** The rate counter over time *)

Section RateRecovery.
Import World SessionService Invariants.

(** X5. However many requests a session has made, sixty seconds without
    one leave it no counter: the first request after that counts as 1, and
    is admitted exactly when the limit is at least 1. *)
Theorem rate_limit_recovers_after_window (ops : list Trace.Op)
    (sessionId : string) (limit : Z) (ms : N) :
  60000 <= Z.of_N ms ->
  (RateLimit.enforceRateLimit sessionId limit (advance ms (Trace.run ops))).1
  = if 1 >? limit then Js.Throw (Js.Error "RATE_LIMIT_EXCEEDED")
    else Js.Ok tt.
Proof.
  intros Hms. set (w := Trace.run ops).
  assert (Hwf : wf w) by apply run_wf.
  assert (Hgone : redis (advance ms w) !! RateLimit.rateKey sessionId = None).
  { rewrite lookup_advance.
    destruct (redis w !! RateLimit.rateKey sessionId) as [e|] eqn:E;
      [|reflexivity].
    destruct (wf_rate w Hwf _ _ E) as (n & t & -> & _ & Ht).
    unfold alive. cbn.
    destruct (Z.ltb_spec (clock w + Z.of_N ms) t); [lia|reflexivity]. }
  destruct (enforceRateLimit_run (advance ms w) sessionId limit
              (advance_wf w ms Hwf)) as (w' & -> & _).
  cbn [fst]. unfold nextCount. rewrite Hgone. reflexivity.
Qed.

Lemma rate_limit_recovers_after_window_witness :
  (RateLimit.enforceRateLimit "s1" 1
     (advance 60000
        (Trace.run [Trace.EnforceRateLimit "s1" 1;
                    Trace.EnforceRateLimit "s1" 1]))).1
  = Js.Ok tt.
Proof.
  apply (rate_limit_recovers_after_window
           [Trace.EnforceRateLimit "s1" 1; Trace.EnforceRateLimit "s1" 1]
           "s1" 1 60000).
  vm_compute. discriminate.
Defined.

End RateRecovery.

(** ** The risk engine as a function of its signals *)

Section RiskOrder.
Import RiskModel RiskEngine.

(** The levels in the order [classify] ranks them. *)
Definition levelRank (l : RiskLevel) : Z :=
  match l with
  | LOW => 0 | MEDIUM => 1 | HIGH => 2 | CRITICAL => 3
  end.

Lemma classify_monotone (a b : Z) :
  a <= b -> levelRank (classify a) <= levelRank (classify b).
Proof.
  intros H. unfold classify.
  repeat match goal with
         | |- context [?x >=? ?y] => destruct (Z.geb_spec x y)
         end; cbn; lia.
Qed.

Lemma weightedSum_app (xs ys : list RiskSignal) :
  weightedSum (xs ++ ys) = weightedSum xs + weightedSum ys.
Proof.
  unfold weightedSum. induction xs as [|x l IH]; cbn; [reflexivity|].
  rewrite IH. lia.
Qed.

Lemma weightedSum_nonneg (xs : list RiskSignal) :
  Forall (fun s => 0 <= severity s) xs -> 0 <= weightedSum xs.
Proof.
  unfold weightedSum. induction 1 as [|x l Hx _ IH]; cbn; lia.
Qed.

Lemma evaluate_score sid subj signals now :
  riskScore (evaluate sid subj signals now) = Z.min (weightedSum signals) 100.
Proof.
  unfold evaluate. cbn [riskScore]. rewrite (reduce_from signals 0).
  rewrite Z.add_0_l. reflexivity.
Qed.

Lemma evaluate_level sid subj signals now :
  riskLevel (evaluate sid subj signals now)
  = classify (Z.min (weightedSum signals) 100).
Proof.
  unfold evaluate. cbn [riskLevel]. rewrite (reduce_from signals 0).
  rewrite Z.add_0_l. reflexivity.
Qed.

(** On integers, signals of non-negative severity added to a session's
    signals never lower the score nor the level. *)
Lemma evaluate_monotone_integers (sessionId subjectId : string)
    (signals more : list RiskSignal) (now : Z) :
  Forall (fun s => 0 <= severity s) more ->
  riskScore (evaluate sessionId subjectId signals now)
    <= riskScore (evaluate sessionId subjectId (signals ++ more) now)
  /\ levelRank (riskLevel (evaluate sessionId subjectId signals now))
     <= levelRank (riskLevel (evaluate sessionId subjectId (signals ++ more) now)).
Proof.
  intros Hmore. rewrite !evaluate_score, !evaluate_level, weightedSum_app.
  pose proof (weightedSum_nonneg more Hmore).
  split; [lia|]. apply classify_monotone. lia.
Qed.

(** On integers, signal lists that are permutations of each other get the
    same score and the same level. *)
Lemma evaluate_permutation_integers (sessionId subjectId : string)
    (signals signals' : list RiskSignal) (now : Z) :
  Permutation signals signals' ->
  riskScore (evaluate sessionId subjectId signals now)
    = riskScore (evaluate sessionId subjectId signals' now)
  /\ riskLevel (evaluate sessionId subjectId signals now)
     = riskLevel (evaluate sessionId subjectId signals' now).
Proof.
  intros Hperm. rewrite !evaluate_score, !evaluate_level.
  assert (Hsum : weightedSum signals = weightedSum signals').
  { unfold weightedSum.
    induction Hperm as [|x l l' _ IH|x y l|l l' l'' _ IH1 _ IH2]; cbn in *; lia. }
  rewrite Hsum. split; reflexivity.
Qed.

Lemma magnitude_app xs ys : magnitude (xs ++ ys) = magnitude xs + magnitude ys.
Proof.
  unfold magnitude. induction xs as [|x l IH]; cbn; [reflexivity|].
  rewrite IH. lia.
Qed.

Lemma magnitude_perm xs ys : Permutation xs ys -> magnitude xs = magnitude ys.
Proof.
  unfold magnitude.
  induction 1 as [|x l l' _ IH|x y l|l l' l'' _ IH1 _ IH2]; cbn in *; lia.
Qed.

Lemma score_bound sid subj signals now :
  magnitude signals < 2 ^ 53 ->
  Z.abs (riskScore (RiskEngine.evaluate sid subj signals now)) < 2 ^ 53.
Proof.
  intros H. pose proof (weightedSum_bound signals).
  rewrite evaluate_score. lia.
Qed.

(** X6. Evidence only ever raises risk: for signals of integer severity,
    five times the sum of whose magnitudes stays below 2^53, signals of
    non-negative severity added to a session's signals never lower the
    score [evaluate] gives nor the level it classifies the session at. *)
Theorem evaluate_more_signals_never_lower (sessionId subjectId : string)
    (signals more : list RiskSignal) (now : Z) :
  magnitude (signals ++ more) < 2 ^ 53 ->
  Forall (fun s => 0 <= severity s) more ->
  let before := Binary64.evaluate sessionId subjectId (map Binary64.ofSignal signals) now in
  let after :=
    Binary64.evaluate sessionId subjectId (map Binary64.ofSignal (signals ++ more)) now in
  Number.ge (Binary64.riskScore after) (Binary64.riskScore before) = true
  /\ levelRank (Binary64.riskLevel before) <= levelRank (Binary64.riskLevel after).
Proof.
  intros Hmag Hmore before after. subst before after.
  pose proof (magnitude_nonneg more). pose proof Hmag as Hmag'.
  rewrite magnitude_app in Hmag'.
  rewrite !evaluate_exact by lia.
  cbn [Binary64.ofProfile Binary64.riskScore Binary64.riskLevel].
  rewrite ge_exact by (apply score_bound; lia).
  destruct (evaluate_monotone_integers sessionId subjectId signals more
              now Hmore) as [Hs Hl].
  split; [apply Z.geb_le; exact Hs|exact Hl].
Qed.

Lemma evaluate_more_signals_never_lower_witness :
  Number.ge
    (Binary64.riskScore
       (Binary64.evaluate "s1" "u1"
          (map Binary64.ofSignal
             ([mkSignal IP_ANOMALY 3 "ip"]
              ++ [mkSignal DEVICE_MISMATCH 7 "device"])) 0))
    (Binary64.riskScore
       (Binary64.evaluate "s1" "u1"
          (map Binary64.ofSignal [mkSignal IP_ANOMALY 3 "ip"]) 0))
  = true.
Proof.
  apply (evaluate_more_signals_never_lower "s1" "u1"
           [mkSignal IP_ANOMALY 3 "ip"] [mkSignal DEVICE_MISMATCH 7 "device"] 0).
  - vm_compute. reflexivity.
  - constructor; [simpl; lia|constructor].
Defined.

(** X7. The order in which signals were collected does not matter when
    their severities are integers and five times the sum of their
    magnitudes stays below 2^53: two such signal lists that are
    permutations of each other get the same score and the same level. *)
Theorem evaluate_order_irrelevant (sessionId subjectId : string)
    (signals signals' : list RiskSignal) (now : Z) :
  Permutation signals signals' ->
  magnitude signals < 2 ^ 53 ->
  Binary64.riskScore (Binary64.evaluate sessionId subjectId (map Binary64.ofSignal signals) now)
  = Binary64.riskScore (Binary64.evaluate sessionId subjectId (map Binary64.ofSignal signals') now)
  /\ Binary64.riskLevel (Binary64.evaluate sessionId subjectId (map Binary64.ofSignal signals) now)
     = Binary64.riskLevel
         (Binary64.evaluate sessionId subjectId (map Binary64.ofSignal signals') now).
Proof.
  intros Hperm Hmag.
  pose proof (magnitude_perm _ _ Hperm) as Heq.
  rewrite !evaluate_exact by lia.
  cbn [Binary64.ofProfile Binary64.riskScore Binary64.riskLevel].
  destruct (evaluate_permutation_integers sessionId subjectId signals signals' now
              Hperm) as [-> ->].
  split; reflexivity.
Qed.

Lemma evaluate_order_irrelevant_witness :
  Binary64.riskLevel
    (Binary64.evaluate "s1" "u1"
       (map Binary64.ofSignal
          [mkSignal IP_ANOMALY 3 "ip"; mkSignal DEVICE_MISMATCH 7 "d"]) 0)
  = Binary64.riskLevel
      (Binary64.evaluate "s1" "u1"
         (map Binary64.ofSignal
            [mkSignal DEVICE_MISMATCH 7 "d"; mkSignal IP_ANOMALY 3 "ip"]) 0).
Proof.
  apply (evaluate_order_irrelevant "s1" "u1"
           [mkSignal IP_ANOMALY 3 "ip"; mkSignal DEVICE_MISMATCH 7 "d"]
           [mkSignal DEVICE_MISMATCH 7 "d"; mkSignal IP_ANOMALY 3 "ip"] 0).
  - apply perm_swap.
  - vm_compute. reflexivity.
Defined.

(** X23. The signals the collectors produce have severities 3, 7 and 6, so
    five times the sum of their magnitudes is at most 80, and the engine's
    arithmetic on them is exact: the profile computed on doubles is the
    profile computed on integers, field by field. *)
Theorem collected_signals_are_exact (request : Http.Request)
    (session : Session.t) (sessionId subjectId : string) (now : Z) :
  let signals := RiskSignals.collectRiskSignals request session in
  magnitude signals <= 80
  /\ Binary64.evaluate sessionId subjectId (map Binary64.ofSignal signals) now
     = Binary64.ofProfile (RiskEngine.evaluate sessionId subjectId signals now).
Proof.
  intros signals.
  assert (H : magnitude signals <= 80).
  { subst signals. unfold RiskSignals.collectRiskSignals. cbv zeta.
    repeat match goal with
           | |- context [if ?b then _ else _] => destruct b
           end; vm_compute; discriminate. }
  split; [exact H|]. apply evaluate_exact.
  assert (80 < 2 ^ 53) by (vm_compute; reflexivity). lia.
Qed.

End RiskOrder.

(** ** What the per-request hook can conclude *)

Section CollectedSignals.
Import World SessionService Invariants RiskModel.

(** The session is bound to a device and the request's [x-device-id] header
    is not that device. *)
Definition deviceSignal (req : Http.Request) (session : Session.t) : bool :=
  match Session.deviceId session with
  | Some d => negb (String.eqb d "")
  | None => false
  end && bool_decide (Http.headers req !! "x-device-id" ≠ Session.deviceId session).

Definition automationSignal (req : Http.Request) : bool :=
  bool_decide (Http.headers req !! "x-automation" = Some "true").

(** X8. The signals [collectRiskSignals] derives from a request score 15,
    plus 35 for a device mismatch, plus 30 for the automation header. So the
    profile is CRITICAL exactly when both are present, MEDIUM when one is,
    LOW when none is, and never HIGH. *)
Theorem collected_signals_levels (req : Http.Request) (session : Session.t)
    (now : Z) :
  let profile :=
    RiskEngine.evaluate (Session.id session) (Session.subjectId session)
      (RiskSignals.collectRiskSignals req session) now in
  riskScore profile
  = 15 + (if deviceSignal req session then 35 else 0)
       + (if automationSignal req then 30 else 0)
  /\ riskLevel profile
     = (if deviceSignal req session && automationSignal req then CRITICAL
        else if deviceSignal req session || automationSignal req then MEDIUM
        else LOW)
  /\ riskLevel profile <> HIGH.
Proof.
  intros profile. subst profile.
  unfold RiskSignals.collectRiskSignals, deviceSignal, automationSignal.
  cbv zeta.
  rewrite (bool_decide_eq_true_2 (Some (Http.ip req) ≠ None)) by discriminate.
  destruct (match Session.deviceId session with
            | Some d => negb (String.eqb d "")
            | None => false
            end
            && bool_decide (Http.headers req !! "x-device-id"
                            ≠ Session.deviceId session));
    destruct (bool_decide (Http.headers req !! "x-automation" = Some "true"));
    cbn; (split; [reflexivity|split; [reflexivity|discriminate]]).
Qed.

(** X9. When the profile computed for a request is not CRITICAL, the hook
    lets the request through with the profile attached and the session's
    level overwritten, writes nothing to the audit trail, and stores the
    level and the instant of evaluation in the session if it is still
    stored, leaving every other session as it was. The request handed on is
    the one received but for two fields: [risk] holds the profile, and the
    [riskLevel] of its session is the profile's. The stored session differs
    from what it was in its [riskLevel], now the profile's, and its
    [lastEvaluatedAt], now the instant of the call, and in nothing else. *)
Theorem cae_passes_below_critical (ops : list Trace.Op)
    (request : Http.Request) :
  let w := Trace.run ops in
  let sid := Session.id (Http.session request) in
  let profile := profileOf w request in
  riskLevel profile <> CRITICAL ->
  exists w',
    Cae.continuousAccessEvaluation request w
      = (Js.Ok (evaluated request profile, None), w')
    /\ auditTrail w' = auditTrail w
    /\ sessionAt w' sid
       = withRisk (riskLevel profile) (clock w) <$> sessionAt w sid
    /\ (forall id, id <> sid ->
          redis w' !! sessionKey id = redis w !! sessionKey id)
    /\ evaluated request profile
       = {| Http.ip := Http.ip request;
            Http.headers := Http.headers request;
            Http.session :=
              {| Session.id := Session.id (Http.session request);
                 Session.subjectId := Session.subjectId (Http.session request);
                 Session.deviceId := Session.deviceId (Http.session request);
                 Session.tenantId := Session.tenantId (Http.session request);
                 Session.createdAt := Session.createdAt (Http.session request);
                 Session.expiresAt := Session.expiresAt (Http.session request);
                 Session.revokedAt := Session.revokedAt (Http.session request);
                 Session.riskLevel := riskLevel profile;
                 Session.mfaVerified :=
                   Session.mfaVerified (Http.session request);
                 Session.lastEvaluatedAt :=
                   Session.lastEvaluatedAt (Http.session request) |};
            Http.tenant := Http.tenant request;
            Http.resource := Http.resource request;
            Http.action := Http.action request;
            Http.risk := Some profile;
            Http.opaInput := Http.opaInput request |}
    /\ (forall s, sessionAt w sid = Some s ->
          sessionAt w' sid
          = Some {| Session.id := Session.id s;
                    Session.subjectId := Session.subjectId s;
                    Session.deviceId := Session.deviceId s;
                    Session.tenantId := Session.tenantId s;
                    Session.createdAt := Session.createdAt s;
                    Session.expiresAt := Session.expiresAt s;
                    Session.revokedAt := Session.revokedAt s;
                    Session.riskLevel := riskLevel profile;
                    Session.mfaVerified := Session.mfaVerified s;
                    Session.lastEvaluatedAt := clock w |}).
Proof.
  intros w sid profile Hlevel.
  assert (Hwf : wf w) by apply run_wf. clearbody w.
  destruct (updateRisk_run w sid (riskLevel profile) (clock w) Hwf)
    as (w' & Hupd & _ & [Hc _] & Haudit & _ & Hother & Hat & _).
  assert (Hsess : sessionAt w' sid
                  = withRisk (riskLevel profile) (clock w) <$> sessionAt w sid)
    by auto.
  exists w'.
  split; [|split; [auto|split; [exact Hsess|split; [auto|
           split; [reflexivity|]]]]].
  2: { intros s Hs. rewrite Hsess, Hs. reflexivity. }
  unfold Cae.continuousAccessEvaluation, RiskService.assessSession.
  fold sid.
  unfold mbind at 1. unfold Js.M_bind at 1.
  unfold mbind at 1. unfold Js.M_bind at 1.
  unfold dateNow at 1. cbn [fst snd].
  change (RiskEngine.evaluate sid (Session.subjectId (Http.session request))
            (RiskSignals.collectRiskSignals request (Http.session request))
            (clock w)) with profile.
  rewrite (bool_decide_eq_false_2 _ Hlevel).
  unfold mret at 1. unfold Js.M_ret at 1.
  unfold mbind at 1. unfold Js.M_bind at 1.
  unfold mret at 1. unfold Js.M_ret at 1.
  unfold dateNow, mbind at 1. unfold Js.M_bind at 1.
  erewrite bind_ok by exact Hupd.
  rewrite (bool_decide_eq_false_2 _ Hlevel). reflexivity.
Qed.

Lemma cae_passes_below_critical_witness :
  exists w',
    Cae.continuousAccessEvaluation
      (Http.mkRequest "10.0.0.1" ∅ (newSession 0 "s1" "u1" None true) None
         Js.JNull Js.JNull None None)
      (Trace.run [Trace.Create "s1" "u1" None true])
    = (Js.Ok
         (evaluated
            (Http.mkRequest "10.0.0.1" ∅ (newSession 0 "s1" "u1" None true)
               None Js.JNull Js.JNull None None)
            (profileOf (Trace.run [Trace.Create "s1" "u1" None true])
               (Http.mkRequest "10.0.0.1" ∅ (newSession 0 "s1" "u1" None true)
                  None Js.JNull Js.JNull None None)),
          None), w').
Proof.
  destruct (cae_passes_below_critical [Trace.Create "s1" "u1" None true]
              (Http.mkRequest "10.0.0.1" ∅ (newSession 0 "s1" "u1" None true)
                 None Js.JNull Js.JNull None None))
    as (w' & H & _).
  - vm_compute. discriminate.
  - exists w'. exact H.
Defined.

End CollectedSignals.

(** ** When the policy clients let a request through *)

Section PolicyGrants.
Import World Js.

(** The value of [v.key] where reading it does not throw, [undefined]
    elsewhere. *)
Definition field (v : Json) (key : string) : Json :=
  match v with
  | JObj fields => lookupField key fields
  | _ => JUndefined
  end.

Lemma getProp_ok (v : Json) (key : string) (w : World.t) (x : Json) (w' : World.t) :
  Opa.getProp v key w = (Ok x, w') -> x = field v key /\ w' = w.
Proof. destruct v; cbn; intros [= <- <-]; auto. Qed.

Lemma getProp_world (v : Json) (key : string) (w : World.t) :
  (Opa.getProp v key w).2 = w.
Proof. destruct v; reflexivity. Qed.

Lemma getProp_truthy (v : Json) (key : string) (w : World.t) :
  truthy (field v key) = true -> Opa.getProp v key w = (Ok (field v key), w).
Proof. destruct v; cbn; try discriminate; reflexivity. Qed.

(** X10. [opaAuthorize] reads [opaClient], which its module neither imports
    nor declares: on every request, whatever the policy input, the call
    throws a ReferenceError before anything is sent to the policy engine;
    it lets no request through, writes no 403 and changes nothing
    stored. *)
Theorem opaAuthorize_throws (request : Http.Request) (w : World.t) :
  Opa.opaAuthorize request w
  = (Opa.Settled (Throw (mkExn "ReferenceError" "opaClient is not defined")),
     w)
  /\ forall passed w',
       Opa.opaAuthorize request w <> (Opa.Settled (Ok passed), w').
Proof.
  assert (H : Opa.opaAuthorize request w
              = (Opa.Settled
                   (Throw (mkExn "ReferenceError" "opaClient is not defined")),
                 w)) by reflexivity.
  split; [exact H|]. intros passed w'. rewrite H. discriminate.
Qed.

(** X22. [opaClient.decide] never changes the stored state. It resolves
    exactly when the engine answers the POST with a 2xx status and a body
    that is neither [null] nor [undefined], and then with that body's
    [result] ([undefined] when the body has none, as for a body that is no
    object). *)
Theorem decide_resolves_iff_answered (engine : Opa.Engine) (payload : Json)
    (w : World.t) :
  (Opa.decide engine payload w).2 = w
  /\ forall decision,
       (Opa.decide engine payload w).1 = Opa.Settled (Ok decision)
       <-> exists status text json,
             engine payload = Opa.Responded status text json
             /\ Opa.ok status = true
             /\ default (JStr text) json <> JNull
             /\ default (JStr text) json <> JUndefined
             /\ decision = field (default (JStr text) json) "result".
Proof.
  unfold Opa.decide, Opa.andThen, Opa.axios_post, Opa.settle.
  destruct (engine payload) as [status text json|]; cbn.
  - destruct (Opa.ok status) eqn:Hok; cbn.
    + set (data := default (JStr text) json).
      destruct (Opa.getProp data "result" w) as [[v|e] w1] eqn:Hres.
      * pose proof (getProp_ok _ _ _ _ _ Hres) as [-> ->]. cbn.
        split; [reflexivity|]. intros decision. split.
        -- intros [= <-]. exists status, text, json. fold data.
           split; [reflexivity|]. split; [exact Hok|].
           split; [|split; [|reflexivity]];
             intros Hd; rewrite Hd in Hres; discriminate.
        -- intros (s & t & j & [= <- <- <-] & _ & _ & _ & ->). reflexivity.
      * pose proof (getProp_world data "result" w) as Hw.
        rewrite Hres in Hw. cbn in Hw. subst w1. cbn.
        split; [reflexivity|]. intros decision. split; [discriminate|].
        intros (s & t & j & [= <- <- <-] & _ & Hn & Hu & _). fold data in Hn, Hu.
        destruct data; cbn in Hres; try discriminate; congruence.
    + split; [reflexivity|]. intros decision. split; [discriminate|].
      intros (s & t & j & [= <- <- <-] & H & _). congruence.
  - split; [reflexivity|]. intros decision. split; [discriminate|].
    intros (s & t & j & H & _). discriminate.
Qed.

(** X11. [evaluatePolicy] never changes the stored state, and it resolves
    with [allow: true] exactly when OPA_URL is set and the engine answered
    the POST of [{ input }] with a 2xx status and a JSON body whose [result]
    is truthy. In particular, without OPA_URL every input is denied, whether
    or not a WASM policy was loaded. *)
Theorem evaluatePolicy_allows_iff_engine_says_so (OPA_URL : string)
    (loaded : bool) (engine : Opa.Engine) (input : Json) (w : World.t) :
  (PolicyRuntime.evaluatePolicy OPA_URL loaded engine input w).2 = w
  /\ ((exists ev,
         (PolicyRuntime.evaluatePolicy OPA_URL loaded engine input w).1 = Ok ev
         /\ Opa.allow ev = true)
      <-> OPA_URL <> ""
          /\ exists status text json,
               engine (JObj [("input", input)])
                 = Opa.Responded status text (Some json)
               /\ Opa.ok status = true
               /\ truthy (field json "result") = true).
Proof.
  unfold PolicyRuntime.evaluatePolicy, PolicyRuntime.evaluatePolicyWasm,
    Opa.evaluatePolicyHttp, Opa.fetch.
  destruct (String.eqb_spec OPA_URL "") as [->|Hurl]; cbn.
  - split; [destruct loaded; reflexivity|]. split.
    + intros (ev & H & Hallow). destruct loaded; cbn in H;
        injection H as <-; discriminate.
    + intros [H _]. contradiction.
  - destruct (engine _) as [status text json|];
      unfold mbind, M_bind, mret, M_ret; cbn.
    + destruct (Opa.ok status) eqn:Hok; cbn.
      * destruct json as [json|]; cbn.
        -- destruct (Opa.getProp json "result" w) as [[result|e] w1] eqn:Hres.
           ++ apply getProp_ok in Hres as [-> ->]. cbn.
              split; [reflexivity|]. split.
              ** intros (ev & [= <-] & Hallow). cbn in Hallow.
                 split; [assumption|]. exists status, text, json. auto.
              ** intros (_ & s & t & j & [= <- <- <-] & _ & H).
                 eexists. split; [reflexivity|exact H].
           ++ pose proof (getProp_world json "result" w) as Hw.
              rewrite Hres in Hw. cbn in Hw. subst w1. cbn.
              split; [reflexivity|]. split.
              ** intros (ev & H & _). discriminate.
              ** intros (_ & s & t & j & [= <- <- <-] & _ & H).
                 rewrite (getProp_truthy _ _ w H) in Hres. discriminate.
        -- split; [reflexivity|]. split.
           ++ intros (ev & H & _). discriminate.
           ++ intros (_ & s & t & j & H & _). discriminate.
      * split; [reflexivity|]. split.
        -- intros (ev & [= <-] & H). discriminate.
        -- intros (_ & s & t & j & Heq & H & _).
           injection Heq as ? ? ?. subst. congruence.
    + split; [reflexivity|]. split.
      * intros (ev & H & _). discriminate.
      * intros (_ & s & t & j & H & _). discriminate.
Qed.

End PolicyGrants.

(** ** Granting and revoking entitlements *)

Section EntitlementLifecycle.
Import World.

(** The entitlement is one [isEntitlementActive] accepts at the instant it
    was created: it has no end, or its end has not passed. *)
Definition stillValid (now : Z) (validUntil : option Z) : bool :=
  match validUntil with
  | Some u => negb (u <? now)
  | None => true
  end.

Definition grantedEntry (uuid : string) (params : Entitlement.Params)
    : AuditEntry.t :=
  {| AuditEntry.action := "ENTITLEMENT_GRANTED";
     AuditEntry.actorId := Entitlement.p_grantedBy params;
     AuditEntry.targetId := Some uuid;
     AuditEntry.metadata :=
       [("subjectType",
         Js.JStr (Entitlement.subjectTypeName (Entitlement.p_subjectType params)));
        ("subjectId", Js.JStr (Entitlement.p_subjectId params));
        ("scopes", Js.JArr (map Js.JStr (Entitlement.p_scopes params)));
        ("resource",
         Js.JStr (Entitlement.p_resourceType params +:+ ":"
                  +:+ Entitlement.p_resourceId params))] |}.

Definition factOf (e : Entitlement.t) : EntitlementService.PolicyFact :=
  {| EntitlementService.fact_resource :=
       Entitlement.resourceType e +:+ ":" +:+ Entitlement.resourceId e;
     EntitlementService.fact_scopes := Entitlement.scopes e;
     EntitlementService.fact_validUntil := Entitlement.validUntil e |}.

Lemma getActiveForSubject_run (subjectId : string) (w : World.t) :
  EntitlementService.getActiveForSubject subjectId w
  = (Js.Ok
       (filter (fun r => Entitlement.isEntitlementActive (clock w) r = true)
          (filter (fun r => Entitlement.subjectId r = subjectId
                            /\ Entitlement.status r = Entitlement.ACTIVE)
             (entitlementTable w))), w).
Proof. reflexivity. Qed.

Lemma buildPolicyInput_run (subjectId : string) (w : World.t) :
  EntitlementService.buildPolicyInput subjectId w
  = (Js.Ok (map factOf
              match (EntitlementService.getActiveForSubject subjectId w).1 with
              | Js.Ok l => l
              | Js.Throw _ => []
              end), w).
Proof. reflexivity. Qed.

(** X12. Granting and reading back. For an id no row has yet, [grant]
    resolves with the entitlement [createEntitlement] builds (ACTIVE, valid
    from now), adds it as the last row, and writes one ENTITLEMENT_GRANTED
    entry. Right after it, [getActiveForSubject] of the grantee resolves with
    what it resolved with before followed by the new entitlement (unless its
    [validUntil] is already past, in which case nothing is added),
    [buildPolicyInput] ends with the fact [resourceType:resourceId] with its
    scopes, and every other subject's answer is unchanged. *)
Theorem grant_then_active (w : World.t) (uuid : string)
    (params : Entitlement.Params) :
  Forall (fun r => Entitlement.id r <> uuid) (entitlementTable w) ->
  let e := Entitlement.createEntitlement uuid (clock w) params in
  let w1 := (EntitlementService.grant uuid params w).2 in
  let added := if stillValid (clock w) (Entitlement.p_validUntil params)
               then [e] else [] in
  let active subj w :=
    match (EntitlementService.getActiveForSubject subj w).1 with
    | Js.Ok l => l
    | Js.Throw _ => []
    end in
  (EntitlementService.grant uuid params w).1 = Js.Ok e
  /\ entitlementTable w1 = (entitlementTable w ++ [e])%list
  /\ auditTrail w1 = (auditTrail w ++ [grantedEntry uuid params])%list
  /\ redis w1 = redis w /\ clock w1 = clock w
  /\ (EntitlementService.getActiveForSubject (Entitlement.p_subjectId params) w1).1
     = Js.Ok (active (Entitlement.p_subjectId params) w ++ added)%list
  /\ (EntitlementService.buildPolicyInput (Entitlement.p_subjectId params) w1).1
     = Js.Ok (map factOf (active (Entitlement.p_subjectId params) w)
              ++ map factOf added)%list
  /\ forall other, other <> Entitlement.p_subjectId params ->
       (EntitlementService.getActiveForSubject other w1).1
       = (EntitlementService.getActiveForSubject other w).1.
Proof.
  intros _ e w1 added active.
  assert (Hw1 : w1 = {| redis := redis w; clock := clock w;
                        auditTrail := (auditTrail w ++ [grantedEntry uuid params])%list;
                        entitlementTable := (entitlementTable w ++ [e])%list |})
    by reflexivity.
  assert (Hact : forall subj,
            (EntitlementService.getActiveForSubject subj w1).1
            = Js.Ok (active subj w
                     ++ if bool_decide (subj = Entitlement.p_subjectId params)
                        then added else [])%list).
  { intros subj. rewrite Hw1. subst active. cbn beta.
    rewrite !getActiveForSubject_run. cbn [fst clock entitlementTable].
    rewrite !filter_app. f_equal. f_equal.
    rewrite filter_cons, filter_nil. subst added e. cbn.
    destruct (decide (Entitlement.p_subjectId params = subj
                      /\ Entitlement.ACTIVE = Entitlement.ACTIVE)) as [[<- _]|Hne].
    - rewrite bool_decide_eq_true_2 by reflexivity.
      rewrite filter_cons, filter_nil.
      unfold Entitlement.isEntitlementActive, stillValid. cbn.
      rewrite Z.gtb_ltb, Z.ltb_irrefl.
      destruct (Entitlement.p_validUntil params) as [u|]; cbn.
      + destruct (u <? clock w); cbn.
        * rewrite decide_False by discriminate. reflexivity.
        * rewrite decide_True by reflexivity. reflexivity.
      + rewrite decide_True by reflexivity. reflexivity.
    - rewrite bool_decide_eq_false_2; [rewrite filter_nil; reflexivity|].
      intros ->. apply Hne. auto. }
  split; [reflexivity|]. split; [reflexivity|]. split; [reflexivity|].
  split; [reflexivity|]. split; [reflexivity|].
  split; [|split].
  - rewrite Hact, bool_decide_eq_true_2 by reflexivity. reflexivity.
  - rewrite buildPolicyInput_run. cbn [fst].
    rewrite Hact, bool_decide_eq_true_2 by reflexivity.
    rewrite map_app. reflexivity.
  - intros other Hne. rewrite Hact, bool_decide_eq_false_2 by assumption.
    rewrite app_nil_r. subst active. cbn beta.
    rewrite getActiveForSubject_run. reflexivity.
Qed.

Definition params_u7 : Entitlement.Params :=
  Entitlement.mkParams Entitlement.USER "u7" "invoice" "42" ["read:*"]
    "admin" "onboarding" None.

Lemma grant_then_active_witness :
  (EntitlementService.grant "e7" params_u7 World.empty).1
    = Js.Ok (Entitlement.createEntitlement "e7" 0 params_u7)
  /\ (EntitlementService.getActiveForSubject "u7"
        (EntitlementService.grant "e7" params_u7 World.empty).2).1
     = Js.Ok [Entitlement.createEntitlement "e7" 0 params_u7].
Proof.
  destruct (grant_then_active World.empty "e7" params_u7)
    as (Hres & _ & _ & _ & _ & Hactive & _).
  - constructor.
  - split; [exact Hres|exact Hactive].
Defined.

Lemma updateRow_missing id f rows :
  Forall (fun r => Entitlement.id r <> id) rows ->
  Prisma.updateRow id f rows = None.
Proof.
  induction 1 as [|r rest Hr _ IH]; cbn; [reflexivity|].
  rewrite (proj2 (String.eqb_neq _ _)) by assumption. rewrite IH. reflexivity.
Qed.

(** X13. Revoking an entitlement nobody holds: when no row has the id,
    [revoke] rejects with Prisma's record-not-found error and nothing has
    happened: no row changed, no session revoked, no audit entry written. *)
Theorem entitlement_revoke_missing_rejects (w : World.t)
    (entitlementId revokedBy reason : string) :
  Forall (fun r => Entitlement.id r <> entitlementId) (entitlementTable w) ->
  EntitlementService.revoke entitlementId revokedBy reason w
  = (Js.Throw (Js.mkExn "PrismaClientKnownRequestError"
                 "Record to update not found"), w).
Proof.
  intros Hnone. unfold EntitlementService.revoke, Prisma.update.
  unfold mbind, Js.M_bind, dateNow. cbn.
  rewrite (updateRow_missing _ _ _ Hnone). reflexivity.
Qed.

Lemma entitlement_revoke_missing_rejects_witness :
  EntitlementService.revoke "e9" "admin" "offboarding"
    (Trace.run [Trace.Create "s1" "u1" None true])
  = (Js.Throw (Js.mkExn "PrismaClientKnownRequestError"
                 "Record to update not found"),
     Trace.run [Trace.Create "s1" "u1" None true]).
Proof.
  apply (entitlement_revoke_missing_rejects
           (Trace.run [Trace.Create "s1" "u1" None true]) "e9" "admin"
           "offboarding").
  vm_compute. constructor.
Defined.

Lemma updateRow_unique id f rows :
  NoDup (map Entitlement.id rows) ->
  forall r rows', Prisma.updateRow id f rows = Some (r, rows') ->
  (forall x, Entitlement.id (f x) = Entitlement.id x) ->
  forall x, x ∈ rows' -> Entitlement.id x = id -> x = r.
Proof.
  intros Hnd r rows' Hupd Hf. revert rows' Hupd.
  induction rows as [|y rest IH]; cbn; [discriminate|].
  intros rows'. apply NoDup_cons in Hnd as [Hy Hnd].
  destruct (String.eqb_spec (Entitlement.id y) id) as [Hid|Hid].
  - intros [= <- <-] x Hx Hxid. apply elem_of_cons in Hx as [->|Hx];
      [reflexivity|].
    exfalso. apply Hy. rewrite Hid, <- Hxid.
    apply list_elem_of_fmap. exists x. auto.
  - destruct (Prisma.updateRow id f rest) as [[r' rest']|]; [|discriminate].
    intros [= <- <-] x Hx Hxid. apply elem_of_cons in Hx as [->|Hx];
      [contradiction|].
    apply (IH Hnd rest' eq_refl x Hx Hxid).
Qed.

(** Calls that leave the entitlement table alone. *)
Definition keepsTable {A} (m : Js.M World.t A) : Prop :=
  forall w, entitlementTable (m w).2 = entitlementTable w.

Lemma keepsTable_bind {A B} (m : Js.M World.t A) (k : A -> Js.M World.t B) :
  keepsTable m -> (forall a, keepsTable (k a)) -> keepsTable (m ≫= k).
Proof.
  intros Hm Hk w. unfold mbind, Js.M_bind. specialize (Hm w).
  destruct (m w) as [[a|e] w']; cbn in *; [rewrite Hk|]; assumption.
Qed.

Lemma keepsTable_del keys : keepsTable (Redis.del keys).
Proof.
  induction keys as [|k keys IH]; [intros w; reflexivity|].
  cbn [Redis.del].
  apply keepsTable_bind; [intros w; reflexivity|]. intros e.
  apply keepsTable_bind; [intros w; reflexivity|]. intros _.
  apply keepsTable_bind; [exact IH|]. intros n w. reflexivity.
Qed.

Lemma keepsTable_revokeSessionsForSubject subj :
  keepsTable (SessionRevocation.revokeSessionsForSubject subj).
Proof.
  unfold SessionRevocation.revokeSessionsForSubject,
    SessionService.revokeAllForSubject.
  apply keepsTable_bind; [|intros _ w; reflexivity].
  apply keepsTable_bind.
  - unfold Redis.smembers. apply keepsTable_bind; [intros w; reflexivity|].
    intros [[[]]|]; intros w; reflexivity.
  - intros ids. destruct (_ =? _); [intros w; reflexivity|].
    apply keepsTable_bind; [apply keepsTable_del|]. intros _.
    apply keepsTable_bind; [apply keepsTable_del|]. intros _.
    apply keepsTable_bind; intros; intros w; reflexivity.
Qed.

Lemma updateRow_revoked id now rows r rows' :
  Prisma.updateRow id (Prisma.markRevoked now) rows = Some (r, rows') ->
  Entitlement.status r = Entitlement.REVOKED.
Proof.
  revert rows'. induction rows as [|y rest IH]; cbn; [discriminate|].
  intros rows'. destruct (String.eqb _ _).
  - intros [= <- _]. reflexivity.
  - destruct (Prisma.updateRow _ _ rest) as [[r' rest']|]; [|discriminate].
    intros [= <- _]. apply (IH rest' eq_refl).
Qed.

(** X14. A revoked entitlement is never handed to the policy engine again:
    when entitlement ids are unique in the table, after [revoke] of an id
    has resolved, [getActiveForSubject] (whatever the subject and however
    much time has passed) returns no entitlement with that id. *)
Theorem revoked_entitlement_is_never_active (w : World.t)
    (entitlementId revokedBy reason : string) (e : Entitlement.t)
    (w1 : World.t) (ms : N) (subjectId : string) :
  NoDup (map Entitlement.id (entitlementTable w)) ->
  EntitlementService.revoke entitlementId revokedBy reason w = (Js.Ok e, w1) ->
  exists active,
    (EntitlementService.getActiveForSubject subjectId (advance ms w1)).1
      = Js.Ok active
    /\ Forall (fun x => Entitlement.id x <> entitlementId) active.
Proof.
  intros Hnd Hrev. eexists. split; [rewrite getActiveForSubject_run; reflexivity|].
  apply Forall_forall. intros x Hx Hxid.
  apply list_elem_of_filter in Hx as [_ Hx].
  apply list_elem_of_filter in Hx as [[_ Hstatus] Hx].
  cbn [entitlementTable advance] in Hx.
  revert Hrev. unfold EntitlementService.revoke, Prisma.update.
  unfold mbind at 1. unfold Js.M_bind at 1. unfold dateNow. cbn [fst snd].
  unfold mbind at 1. unfold Js.M_bind at 1.
  destruct (Prisma.updateRow entitlementId (Prisma.markRevoked (clock w))
              (entitlementTable w)) as [[r rows]|] eqn:Hupd; [|discriminate].
  intros Hrest.
  assert (Htable : entitlementTable w1 = rows).
  { apply (f_equal snd) in Hrest. cbn [snd] in Hrest. rewrite <- Hrest.
    match goal with
    | |- entitlementTable (?m ?w0).2 = _ =>
        assert (Hk : keepsTable m); [|rewrite (Hk w0); reflexivity]
    end.
    apply keepsTable_bind; [apply keepsTable_revokeSessionsForSubject|].
    intros _. apply keepsTable_bind; intros; intros w0; reflexivity. }
  rewrite Htable in Hx.
  pose proof (updateRow_unique _ _ _ Hnd _ _ Hupd (fun _ => eq_refl) x Hx Hxid)
    as ->.
  apply updateRow_revoked in Hupd. congruence.
Qed.

Definition grant_u7 : Entitlement.t :=
  Entitlement.createEntitlement "e7" 0 params_u7.

Lemma revoked_entitlement_is_never_active_witness :
  exists active,
    (EntitlementService.getActiveForSubject "u7"
       (advance 1000
          (Trace.run [Trace.InsertEntitlement grant_u7;
                      Trace.RevokeEntitlement "e7" "admin" "offboarding"]))).1
      = Js.Ok active
    /\ Forall (fun x => Entitlement.id x <> "e7") active.
Proof.
  refine (revoked_entitlement_is_never_active
            (Trace.run [Trace.InsertEntitlement grant_u7]) "e7" "admin"
            "offboarding" (Prisma.markRevoked 0 grant_u7) _ 1000 "u7" _ _).
  - vm_compute. repeat constructor. set_solver.
  - vm_compute. reflexivity.
Defined.

End EntitlementLifecycle.

(** ** The key-rotation service *)

Module KeyTrace.
Import KeyRotationService.

(** One thing that happens to an instance of the service: time passing, or a
    call of one of its methods. *)
Inductive Call :=
| Tick (ms : N)
| CreateKey (uuid algorithm : string) (purpose : Purpose) (ttlMs : Z)
    (actor : string)
| RotateKey (keyId : string) (ttlMs : Z) (actor : string)
| AssertUsable (key : Ref) (actor : string).

Definition resolved {A} (r : Js.Result A) : bool :=
  match r with
  | Js.Ok _ => true
  | Js.Throw _ => false
  end.

Definition step (st : t) (c : Call) : t :=
  match c with
  | Tick ms => advance ms st
  | CreateKey uuid algorithm purpose ttlMs actor =>
      (createKey uuid algorithm purpose ttlMs actor st).2
  | RotateKey keyId ttlMs actor => (rotateKey keyId ttlMs actor st).2
  | AssertUsable key actor => (assertUsable key actor st).2
  end.

(** Whether the call returned rather than threw. *)
Definition served (st : t) (c : Call) : bool :=
  match c with
  | Tick ms => false
  | CreateKey uuid algorithm purpose ttlMs actor =>
      resolved (createKey uuid algorithm purpose ttlMs actor st).1
  | RotateKey keyId ttlMs actor => resolved (rotateKey keyId ttlMs actor st).1
  | AssertUsable key actor => resolved (assertUsable key actor st).1
  end.

Definition runFrom (st : t) (calls : list Call) : t := fold_left step calls st.

(** The instance after [calls], created at instant [now]. *)
Definition run (now : Z) (calls : list Call) : t := runFrom (new now) calls.

(** How many of the calls returned. *)
Fixpoint servedCount (st : t) (calls : list Call) : nat :=
  match calls with
  | [] => 0
  | c :: rest => ((if served st c then 1 else 0) + servedCount (step st c) rest)%nat
  end.

(** A lineage as the service keeps it: versions 1, 2, ... of one key, all
    rotated but the last, which is active. *)
Definition lineageOk (st : t) (k : string) (l : list Ref) : Prop :=
  l <> []
  /\ forall (i : nat) r, l !! i = Some r ->
       exists m, heap st !! r = Some m
         /\ keyId m = k
         /\ version m = Z.of_nat i + 1
         /\ status m = if decide (S i = length l) then active else rotated.

Record inv (st : t) : Prop := mkInv {
  inv_keys : forall k l, keys st !! k = Some l -> lineageOk st k l;
  inv_log : chained (auditLog st)
}.

(** The object [createKey] allocates, and the one [rotateKey] does. *)
Definition firstVersion (st : t) (uuid algorithm : string) (purpose : Purpose)
    (ttlMs : Z) : CryptoKeyMetadata :=
  {| keyId := uuid; version := 1; createdAt := clock st;
     expiresAt := clock st + ttlMs; algorithm := algorithm;
     purpose := purpose; status := active |}.

Definition nextVersion (st : t) (ttlMs : Z) (m : CryptoKeyMetadata)
    : CryptoKeyMetadata :=
  {| keyId := keyId m; version := version m + 1; createdAt := clock st;
     expiresAt := clock st + ttlMs; algorithm := algorithm m;
     purpose := purpose m; status := active |}.

Definition logged (event : JSON.Obj) (st : t) : ImmutableAuditLog.t :=
  (ImmutableAuditLog.append event (auditLog st)).2.

End KeyTrace.

Section KeyRotation.
Import Js KeyRotationService KeyTrace.

#[local] Arguments contextHash : simpl never.
#[local] Arguments ImmutableAuditLog.append : simpl never.
#[local] Arguments Sha256.sha256hex : simpl never.

Lemma createKey_run st uuid alg p ttl actor :
  createKey uuid alg p ttl actor st
  = (Ok (length (heap st)),
     {| heap := (heap st ++ [firstVersion st uuid alg p ttl])%list;
        keys := <[uuid := [length (heap st)]]> (keys st);
        auditLog :=
          logged (auditEvent (clock st) actor "KEY_CREATED" uuid 1
                    (contextHash (firstVersion st uuid alg p ttl))) st;
        clock := clock st |}).
Proof.
  unfold createKey, alloc, setLineage, deref, appendAudit, dateNow,
    mbind, mret, M_bind, M_ret. cbn.
  rewrite list_lookup_middle by reflexivity. reflexivity.
Qed.

Lemma rotateKey_run st k ttl actor l r m :
  keys st !! k = Some l -> last l = Some r -> heap st !! r = Some m ->
  rotateKey k ttl actor st
  = (Ok (length (heap st)),
     {| heap := (alter (withStatus rotated) r (heap st)
                 ++ [nextVersion st ttl m])%list;
        keys := <[k := (l ++ [length (heap st)])%list]> (keys st);
        auditLog :=
          logged (auditEvent (clock st) actor "KEY_ROTATED" k (version m + 1)
                    (contextHash (nextVersion st ttl m))) st;
        clock := clock st |}).
Proof.
  unfold rotateKey, getLineage, setStatus, alloc, setLineage, deref,
    appendAudit, dateNow, mbind, mret, M_bind, M_ret. cbn.
  intros Hk Hlast Hr.
  rewrite Hk, Hlast. cbn.
  rewrite list_lookup_alter_eq, Hr. cbn.
  rewrite list_lookup_middle by reflexivity.
  rewrite length_alter. reflexivity.
Qed.

Lemma rotateKey_missing st k ttl actor :
  keys st !! k = None ->
  rotateKey k ttl actor st = (Throw (Error "Key not found"), st).
Proof.
  unfold rotateKey, getLineage, mbind, M_bind. cbn.
  intros Hk. rewrite Hk. reflexivity.
Qed.

Lemma assertUsable_run st key actor m :
  heap st !! key = Some m ->
  assertUsable key actor st
  = if negb (bool_decide (status m = active)) then
      (Throw (Error "Key is not active"), st)
    else if clock st >? expiresAt m then (Throw (Error "Key expired"), st)
    else
      (Ok tt,
       {| heap := heap st; keys := keys st;
          auditLog :=
            logged (auditEvent (clock st) actor "KEY_USED" (keyId m)
                      (version m) (contextHash m)) st;
          clock := clock st |}).
Proof.
  unfold assertUsable, deref, appendAudit, dateNow,
    mbind, mret, M_bind, M_ret, throw. cbn. intros Hm. rewrite Hm.
  destruct (negb _); [reflexivity|].
  destruct (_ >? _); reflexivity.
Qed.

Lemma assertUsable_undefined st key actor :
  heap st !! key = None ->
  assertUsable key actor st
  = (Throw (mkExn "TypeError" "Cannot read properties of undefined"), st).
Proof.
  unfold assertUsable, deref, mbind, M_bind. cbn. intros Hm. rewrite Hm.
  reflexivity.
Qed.

Lemma logged_chained event st :
  withoutId event -> chained (auditLog st) -> chained (logged event st).
Proof. apply append_chained. Qed.

Lemma lineage_last st k l :
  lineageOk st k l ->
  exists r m, last l = Some r /\ heap st !! r = Some m
    /\ keyId m = k /\ version m = Z.of_nat (length l) /\ status m = active.
Proof.
  intros (Hne & Hl).
  destruct l as [|x l' _] using rev_ind; [contradiction|].
  rewrite last_snoc. exists x.
  destruct (Hl (length l') x) as (m & Hm & Hk & Hv & Hs).
  { apply list_lookup_middle. reflexivity. }
  exists m. rewrite length_app in *. cbn [length] in *.
  rewrite decide_True in Hs by lia.
  repeat split; try assumption. lia.
Qed.

Lemma new_inv now : inv (new now).
Proof.
  split; [intros k l; cbn; rewrite lookup_empty; discriminate|].
  apply new_chained.
Qed.

Lemma step_inv st c : inv st -> inv (step st c).
Proof.
  intros [Hkeys Hlog]. destruct c as [ms|uuid alg p ttl actor|k ttl actor|key actor];
    cbn [step].
  - split; assumption.
  - rewrite createKey_run. cbn [snd]. split; cbn [keys heap auditLog].
    + intros k l. destruct (decide (k = uuid)) as [->|Hne].
      * rewrite lookup_insert_eq. intros [= <-]. split; [discriminate|].
        intros [|i] r; cbn; [|intros H; destruct i; discriminate].
        intros [= <-]. eexists. split; [apply list_lookup_middle; reflexivity|].
        cbn. auto.
      * rewrite lookup_insert_ne by auto. intros Hl.
        destruct (Hkeys k l Hl) as (Hnil & Hall). split; [assumption|].
        intros i r Hr. destruct (Hall i r Hr) as (m & Hm & Hrest).
        exists m. split; [|assumption].
        apply lookup_app_l_Some, Hm.
    + apply logged_chained; [reflexivity|assumption].
  - destruct (keys st !! k) as [l|] eqn:Hk;
      [|rewrite rotateKey_missing by assumption; split; assumption].
    destruct (lineage_last st k l (Hkeys k l Hk))
      as (r & m & Hlast & Hm & Hmk & Hmv & Hms).
    rewrite (rotateKey_run st k ttl actor l r m Hk Hlast Hm). cbn [snd].
    assert (Hold : forall k' l' (i : nat) r',
              keys st !! k' = Some l' -> l' !! i = Some r' ->
              (k' <> k \/ S i <> length l') ->
              r' <> r).
    { intros k' l' i r' Hk' Hr' Hdiff ->.
      destruct (Hkeys k' l' Hk') as (_ & Hall).
      destruct (Hall i r Hr') as (m' & Hm' & Hk2 & Hv2 & _).
      rewrite Hm in Hm'. injection Hm' as <-.
      destruct Hdiff as [Hd|Hd]; [congruence|].
      assert (l' = l) by congruence. subst l'. lia. }
    split; cbn [keys heap auditLog].
    + intros k' l'. destruct (decide (k' = k)) as [->|Hne].
      * rewrite lookup_insert_eq. intros [= <-].
        split; [destruct l; discriminate|].
        intros i r' Hr'. rewrite length_app. cbn [length].
        destruct (decide (i = length l)) as [->|Hi].
        -- rewrite list_lookup_middle in Hr' by reflexivity.
           injection Hr' as <-.
           eexists. split.
           { apply list_lookup_middle. rewrite length_alter. reflexivity. }
           cbn. rewrite decide_True by lia. repeat split; [assumption|lia].
        -- assert (Hr2 : l !! i = Some r').
           { rewrite lookup_app_l in Hr'; [assumption|].
             apply lookup_lt_Some in Hr'. rewrite length_app in Hr'.
             cbn in Hr'. lia. }
           destruct (Hkeys k l Hk) as (_ & Hall).
           destruct (Hall i r' Hr2) as (m' & Hm' & Hk2 & Hv2 & Hs2).
           rewrite decide_False by lia.
           destruct (decide (S i = length l)) as [Hlasti|Hnot].
           ++ assert (r' = r).
              { rewrite last_lookup in Hlast.
                replace (pred (length l)) with i in Hlast by lia. congruence. }
              subst r'. exists (withStatus rotated m).
              split; [|cbn; rewrite Hm in Hm'; injection Hm' as <-; auto].
              apply lookup_app_l_Some. rewrite list_lookup_alter_eq, Hm.
              reflexivity.
           ++ exists m'. split; [|auto].
              apply lookup_app_l_Some.
              rewrite list_lookup_alter_ne; [assumption|].
              apply not_eq_sym. apply (Hold k l i r' Hk Hr2). auto.
      * rewrite lookup_insert_ne by auto. intros Hl'.
        destruct (Hkeys k' l' Hl') as (Hnil & Hall). split; [assumption|].
        intros i r' Hr'. destruct (Hall i r' Hr') as (m' & Hm' & Hrest).
        exists m'. split; [|assumption].
        apply lookup_app_l_Some.
        rewrite list_lookup_alter_ne; [assumption|].
        apply not_eq_sym. apply (Hold k' l' i r' Hl' Hr'). auto.
    + apply logged_chained; [reflexivity|assumption].
  - destruct (heap st !! key) as [m|] eqn:Hm;
      [|rewrite assertUsable_undefined by assumption; split; assumption].
    rewrite (assertUsable_run st key actor m Hm).
    destruct (negb _); [split; assumption|].
    destruct (_ >? _); [split; assumption|].
    split; cbn [snd keys heap auditLog]; [assumption|].
    apply logged_chained; [reflexivity|assumption].
Qed.

Lemma runFrom_inv st calls : inv st -> inv (runFrom st calls).
Proof.
  revert st. induction calls as [|c calls IH]; intros st Hinv; cbn;
    [assumption|].
  apply IH, step_inv, Hinv.
Qed.

Lemma run_inv now calls : inv (run now calls).
Proof. apply runFrom_inv, new_inv. Qed.

(** X15. Versioned lineage. Whatever calls were made on the service, the
    lineage kept for a key id is not empty, its [i]-th entry (from 0) is an
    object of that key id with version [i + 1], the last entry is the only
    one whose status is [active], and every earlier one is [rotated]. *)
Theorem key_lineage_is_versioned (now : Z) (calls : list Call)
    (keyId : string) (lineage : list Ref) :
  keys (run now calls) !! keyId = Some lineage ->
  lineage <> []
  /\ forall (i : nat) r, lineage !! i = Some r ->
       exists m, heap (run now calls) !! r = Some m
         /\ KeyRotationService.keyId m = keyId
         /\ version m = Z.of_nat i + 1
         /\ status m = if decide (S i = length lineage) then active
                       else rotated.
Proof. apply (inv_keys _ (run_inv now calls)). Qed.

Definition two_versions : list Call :=
  [CreateKey "k1" "aes-256-gcm" encryption 1000 "alice";
   Tick 500;
   RotateKey "k1" 1000 "alice"].

Lemma key_lineage_is_versioned_witness :
  [0%nat; 1%nat] <> []
  /\ forall (i : nat) r, [0%nat; 1%nat] !! i = Some r ->
       exists m, heap (run 0 two_versions) !! r = Some m
         /\ KeyRotationService.keyId m = "k1"
         /\ version m = Z.of_nat i + 1
         /\ status m = if decide (S i = length [0%nat; 1%nat]) then active
                       else rotated.
Proof.
  apply (key_lineage_is_versioned 0 two_versions "k1" [0%nat; 1%nat]).
  vm_compute. reflexivity.
Defined.

Lemma step_log st c :
  inv st ->
  length (ImmutableAuditLog.events (auditLog (step st c)))
  = ((if served st c then 1 else 0)
     + length (ImmutableAuditLog.events (auditLog st)))%nat.
Proof.
  intros [Hkeys _].
  assert (Hlogged : forall event,
            length (ImmutableAuditLog.events (logged event st))
            = S (length (ImmutableAuditLog.events (auditLog st)))).
  { intros event. unfold logged, ImmutableAuditLog.append. cbn.
    rewrite length_app. cbn. lia. }
  destruct c as [ms|uuid alg p ttl actor|k ttl actor|key actor];
    cbn [step served].
  - reflexivity.
  - rewrite createKey_run. cbn. apply Hlogged.
  - destruct (keys st !! k) as [l|] eqn:Hk;
      [|rewrite rotateKey_missing by assumption; reflexivity].
    destruct (lineage_last st k l (Hkeys k l Hk))
      as (r & m & Hlast & Hm & _).
    rewrite (rotateKey_run st k ttl actor l r m Hk Hlast Hm). cbn.
    apply Hlogged.
  - destruct (heap st !! key) as [m|] eqn:Hm;
      [|rewrite assertUsable_undefined by assumption; reflexivity].
    rewrite (assertUsable_run st key actor m Hm).
    destruct (negb _); [reflexivity|].
    destruct (_ >? _); [reflexivity|]. cbn. apply Hlogged.
Qed.

(** X16. The service's own audit log is always intact and complete:
    whatever calls were made, [getAuditLog().verify()] is [true], and the log
    holds exactly one record per call of [createKey], [rotateKey] or
    [assertUsable] that returned, none for a call that threw. *)
Theorem key_audit_log_verifies (now : Z) (calls : list Call) :
  (getAuditLog (run now calls)).1 = Ok (auditLog (run now calls))
  /\ ImmutableAuditLog.verify (auditLog (run now calls)) = true
  /\ length (ImmutableAuditLog.events (auditLog (run now calls)))
     = servedCount (new now) calls.
Proof.
  split; [reflexivity|]. split; [apply (inv_log _ (run_inv now calls))|].
  unfold run.
  assert (H : forall st, inv st ->
            length (ImmutableAuditLog.events (auditLog (runFrom st calls)))
            = (servedCount st calls
               + length (ImmutableAuditLog.events (auditLog st)))%nat).
  { induction calls as [|c calls IH]; intros st Hinv; [reflexivity|].
    change (runFrom st (c :: calls)) with (runFrom (step st c) calls).
    cbn [servedCount].
    rewrite (IH _ (step_inv st c Hinv)), (step_log st c Hinv). lia. }
  rewrite (H _ (new_inv now)). cbn. lia.
Qed.

(** An object that was rotated out. *)
Definition retired (st : t) (r : Ref) : Prop :=
  exists m, heap st !! r = Some m /\ status m = rotated.

Lemma step_retired st c r : inv st -> retired st r -> retired (step st c) r.
Proof.
  intros [Hkeys _] (m & Hm & Hs).
  destruct c as [ms|uuid alg p ttl actor|k ttl actor|key actor]; cbn [step].
  - exists m. auto.
  - rewrite createKey_run. cbn. exists m. split; [|assumption].
    apply lookup_app_l_Some, Hm.
  - destruct (keys st !! k) as [l|] eqn:Hk;
      [|rewrite rotateKey_missing by assumption; exists m; auto].
    destruct (lineage_last st k l (Hkeys k l Hk))
      as (r' & m' & Hlast & Hm' & _).
    rewrite (rotateKey_run st k ttl actor l r' m' Hk Hlast Hm'). cbn.
    destruct (decide (r = r')) as [->|Hne].
    + exists (withStatus rotated m'). split; [|reflexivity].
      apply lookup_app_l_Some. rewrite list_lookup_alter_eq, Hm'. reflexivity.
    + exists m. split; [|assumption].
      apply lookup_app_l_Some. rewrite list_lookup_alter_ne by auto. assumption.
  - destruct (heap st !! key) as [m'|] eqn:Hm';
      [|rewrite assertUsable_undefined by assumption; exists m; auto].
    rewrite (assertUsable_run st key actor m' Hm').
    destruct (negb _); [exists m; auto|].
    destruct (_ >? _); exists m; auto.
Qed.

(** X17. Rotation retires the object the caller holds. After [rotateKey]
    of a key id, [assertUsable] on the metadata object that was the latest
    version (the one an earlier [createKey] or [rotateKey] returned) throws
    "Key is not active" and logs nothing, at once and after any further
    calls, whatever its expiry. *)
Theorem rotated_key_is_unusable (now : Z) (calls : list Call) (keyId : string)
    (lineage : list Ref) (latest : Ref) (ttlMs : Z) (actor : string)
    (later : list Call) (user : string) :
  keys (run now calls) !! keyId = Some lineage ->
  last lineage = Some latest ->
  let st1 := (rotateKey keyId ttlMs actor (run now calls)).2 in
  let st2 := runFrom st1 later in
  assertUsable latest user st2 = (Throw (Error "Key is not active"), st2).
Proof.
  intros Hk Hlast st1 st2.
  pose proof (run_inv now calls) as Hinv.
  assert (Hinv1 : inv st1) by apply (step_inv _ (RotateKey keyId ttlMs actor) Hinv).
  assert (Hret1 : retired st1 latest).
  { subst st1.
    destruct (lineage_last _ _ _ (inv_keys _ Hinv _ _ Hk))
      as (r & m & Hlast' & Hm & _).
    assert (r = latest) by congruence. subst r.
    rewrite (rotateKey_run _ keyId ttlMs actor lineage latest m Hk Hlast Hm).
    cbn. exists (withStatus rotated m). split; [|reflexivity].
    apply lookup_app_l_Some. rewrite list_lookup_alter_eq, Hm. reflexivity. }
  assert (Hret2 : retired st2 latest).
  { subst st2. clearbody st1. clear Hk Hlast Hinv.
    revert st1 Hinv1 Hret1.
    induction later as [|c later IH]; intros st1 Hinv1 Hret1; cbn;
      [assumption|].
    apply IH; [apply step_inv, Hinv1|apply step_retired; assumption]. }
  destruct Hret2 as (m & Hm & Hs).
  rewrite (assertUsable_run st2 latest user m Hm), Hs. reflexivity.
Qed.

Lemma rotated_key_is_unusable_witness :
  assertUsable 0%nat "bob"
    (runFrom
       (rotateKey "k1" 1000 "alice"
          (run 0 [CreateKey "k1" "aes-256-gcm" encryption 1000 "alice"])).2
       [Tick 10])
  = (Throw (Error "Key is not active"),
     runFrom
       (rotateKey "k1" 1000 "alice"
          (run 0 [CreateKey "k1" "aes-256-gcm" encryption 1000 "alice"])).2
       [Tick 10]).
Proof.
  apply (rotated_key_is_unusable 0
           [CreateKey "k1" "aes-256-gcm" encryption 1000 "alice"] "k1"
           [0%nat] 0%nat 1000 "alice" [Tick 10] "bob").
  - vm_compute. reflexivity.
  - reflexivity.
Defined.

(** X21. A key is usable up to and including the instant it expires. For
    the object [createKey] returns, [assertUsable] called [ms] milliseconds
    later (with no rotation in between) returns when [ms] is at most
    [ttlMs] and throws "Key expired" when it is larger. *)
Theorem created_key_is_usable_until_expiry (st : t) (uuid algorithm : string)
    (purpose : Purpose) (ttlMs : Z) (actor : string) (ms : N) (user : string) :
  exists key,
    (createKey uuid algorithm purpose ttlMs actor st).1 = Ok key
    /\ (assertUsable key user
          (advance ms (createKey uuid algorithm purpose ttlMs actor st).2)).1
       = if Z.of_N ms >? ttlMs then Throw (Error "Key expired") else Ok tt.
Proof.
  exists (length (heap st)). rewrite createKey_run. cbn [fst snd].
  split; [reflexivity|].
  rewrite (assertUsable_run _ _ _ (firstVersion st uuid algorithm purpose ttlMs))
    by (unfold advance; cbn [heap]; apply list_lookup_middle; reflexivity).
  cbn [status firstVersion expiresAt advance clock negb].
  rewrite bool_decide_eq_true_2 by reflexivity. cbn [negb].
  replace (clock st + Z.of_N ms >? clock st + ttlMs) with (Z.of_N ms >? ttlMs).
  - destruct (Z.of_N ms >? ttlMs); reflexivity.
  - rewrite !Z.gtb_ltb.
    destruct (Z.ltb_spec ttlMs (Z.of_N ms));
      destruct (Z.ltb_spec (clock st + ttlMs) (clock st + Z.of_N ms));
      try reflexivity; lia.
Qed.

End KeyRotation.

(** ** Records out of place in the audit log *)

Section DisplacedRecords.
Import Js JSON ImmutableAuditLog.

Lemma headOf_string (p : string) (events : list Obj) :
  verifyFrom (JStr p) events = true ->
  exists b, headOf (JStr p) events = JStr b.
Proof.
  revert p. induction events as [|event rest IH]; intros p; cbn [headOf].
  - eauto.
  - intros H. apply verifyFrom_cons in H as (Hid & H). rewrite Hid in *.
    apply (IH _ H).
Qed.

(** X18. A record verifies only behind the record it was appended after.
    If a record's stored id is the digest [append] computed for it after the
    record with id [a], then in any list where it comes right after records
    that end in another id, [verify] fails, whatever follows, provided
    SHA-256 does not collide on the two serializations of that record. So
    deleting records before it, or moving it, is detected. *)
Theorem displaced_record_is_detected (a : string) (s : Obj)
    (before rest : list Obj) (last : string) :
  lookupField "eventId" s = JStr (Sha256.sha256hex (canonical (JStr a) s)) ->
  headOf (JStr "GENESIS") before <> JStr a ->
  noCollision (canonical (headOf (JStr "GENESIS") before) s)
              (canonical (JStr a) s) ->
  verify {| events := (before ++ s :: rest)%list; lastHash := last |} = false.
Proof.
  intros Hid Hprev Hfree. unfold verify. cbn [events].
  rewrite verifyFrom_app.
  destruct (verifyFrom (JStr "GENESIS") before) eqn:Hb; [|reflexivity].
  cbn [andb]. destruct (headOf_string _ _ Hb) as (b & Hhead).
  rewrite Hhead in *.
  destruct (verifyFrom (JStr b) (s :: rest)) eqn:Hs; [exfalso|reflexivity].
  apply verifyFrom_cons in Hs as (Hid' & _).
  rewrite Hid in Hid'. injection Hid' as Hsame. symmetry in Hsame.
  apply Hfree, canonical_prev_inj in Hsame. congruence.
Qed.

(** The honest log with its first record deleted. *)
Lemma displaced_record_is_detected_witness :
  verify {| events := ([] ++ nth 1 (events honest_log) [] :: [])%list;
            lastHash := lastHash honest_log |} = false.
Proof.
  refine (displaced_record_is_detected
            (Sha256.sha256hex
               (canonical (JStr "GENESIS") (nth 0 (events honest_log) [])))
            (nth 1 (events honest_log) []) [] [] (lastHash honest_log) _ _ _).
  - vm_compute. reflexivity.
  - vm_compute. discriminate.
  - intros H. vm_compute in H. discriminate.
Defined.

End DisplacedRecords.

(** ** Roles: inherited permissions and separation of duties *)

Section RolePermissionsFacts.
Import Roles.

(** [c] is listed under [r] in the hierarchy. *)
Definition child (r c : UserRole) : Prop := c ∈ RoleHierarchy r.

Definition allRoles : list UserRole :=
  [SUPER_ADMIN; ADMIN; SECURITY_ADMIN; FINANCE_ADMIN; OPERATOR; DEVELOPER;
   AUDITOR; USER; GUEST].

Definition allPermissions : list Permission :=
  [READ_USERS; WRITE_USERS; DELETE_USERS; MANAGE_ROLES; READ_FINANCIALS;
   APPROVE_PAYMENTS; DEPLOY_CODE; READ_AUDIT_LOGS; START_PRIVILEGED_SESSION;
   END_PRIVILEGED_SESSION; READ_CONTENT; WRITE_CONTENT].

(** The roles within [depth] steps below [r]. *)
Fixpoint descendants (depth : nat) (r : UserRole) : list UserRole :=
  match depth with
  | O => [r]
  | S d => r :: flat_map (descendants d) (RoleHierarchy r)
  end.

Lemma descendants_reach depth r r' :
  r' ∈ descendants depth r -> rtc child r r'.
Proof.
  revert r. induction depth as [|d IH]; intros r; cbn.
  - intros H. apply list_elem_of_singleton in H as ->. apply rtc_refl.
  - intros H. apply elem_of_cons in H as [->|H]; [apply rtc_refl|].
    apply list_elem_of_In, in_flat_map in H as (c & Hc & H).
    apply rtc_l with c; [apply list_elem_of_In, Hc|].
    apply IH, list_elem_of_In, H.
Qed.

Lemma walk_S fuel r sets :
  walk (S fuel) r sets
  = if decide (r ∈ sets.1) then Some sets
    else fold_left (fun acc c => acc ≫= walk fuel c) (RoleHierarchy r)
           (Some (add r sets.1,
                  fold_left (fun acc p => add p acc) (RolePermissions r) sets.2)).
Proof. reflexivity. Qed.

Lemma fold_walk_None (f : UserRole -> list UserRole * list Permission
                          -> option (list UserRole * list Permission)) cs :
  fold_left (fun acc c => acc ≫= f c) cs None = None.
Proof. induction cs as [|c cs IH]; [reflexivity|exact IH]. Qed.

Lemma walk_more_fuel fuel r sets out :
  walk fuel r sets = Some out -> walk (S fuel) r sets = Some out.
Proof.
  revert r sets out. induction fuel as [|fuel IH]; intros r sets out;
    [discriminate|].
  rewrite (walk_S (S fuel)), (walk_S fuel).
  destruct (decide (r ∈ sets.1)); [auto|].
  generalize (Some (add r sets.1,
                    fold_left (fun acc p => add p acc) (RolePermissions r) sets.2)).
  induction (RoleHierarchy r) as [|c cs IHcs]; intros start; cbn [fold_left];
    [auto|].
  destruct start as [st|]; cbn [mbind option_bind].
  - destruct (walk fuel c st) as [st'|] eqn:Hc.
    + rewrite (IH _ _ _ Hc). apply IHcs.
    + rewrite fold_walk_None. discriminate.
  - rewrite fold_walk_None. discriminate.
Qed.

Lemma walk_fuel_above fuel r sets out (extra : nat) :
  walk fuel r sets = Some out -> walk (extra + fuel) r sets = Some out.
Proof.
  intros H. induction extra as [|extra IH]; [exact H|].
  apply walk_more_fuel, IH.
Qed.

Lemma role_cases (P : UserRole -> Prop) :
  Forall P allRoles -> forall r, P r.
Proof.
  intros H r. rewrite Forall_forall in H. apply H.
  destruct r; unfold allRoles; set_solver.
Qed.

(** What a closed check over all roles and permissions establishes. *)
Definition tableOk : bool :=
  forallb
    (fun r =>
       bool_decide (is_Some (walk 10 r ([], [])))
       && bool_decide (NoDup (computeEffectivePermissions r))
       && forallb
            (fun p =>
               bool_decide (p ∈ computeEffectivePermissions r
                            <-> Exists (fun r' => p ∈ RolePermissions r')
                                  (descendants 9 r)))
            allPermissions
       && forallb
            (fun c =>
               bool_decide (computeEffectivePermissions c
                            ⊆ computeEffectivePermissions r))
            (RoleHierarchy r))
    allRoles.

Lemma tableOk_true : tableOk = true.
Proof. vm_compute. reflexivity. Qed.

Lemma table_facts (r : UserRole) :
  is_Some (walk 10 r ([], []))
  /\ NoDup (computeEffectivePermissions r)
  /\ (forall p, p ∈ computeEffectivePermissions r
                <-> Exists (fun r' => p ∈ RolePermissions r') (descendants 9 r))
  /\ forall c, child r c ->
       computeEffectivePermissions c ⊆ computeEffectivePermissions r.
Proof.
  pose proof tableOk_true as H. unfold tableOk in H.
  rewrite forallb_forall in H.
  assert (Hr : In r allRoles) by (destruct r; cbn; tauto).
  specialize (H r Hr).
  repeat (apply andb_true_iff in H as [H ?]).
  repeat split.
  - eapply bool_decide_eq_true_1; eassumption.
  - eapply bool_decide_eq_true_1; eassumption.
  - match goal with
    | Hp : forallb _ allPermissions = true |- _ =>
        rewrite forallb_forall in Hp;
        assert (Hin : In p allPermissions) by (destruct p; cbn; tauto);
        apply (bool_decide_eq_true_1 _ (Hp p Hin))
    end.
  - match goal with
    | Hp : forallb _ allPermissions = true |- _ =>
        rewrite forallb_forall in Hp;
        assert (Hin : In p allPermissions) by (destruct p; cbn; tauto);
        apply (bool_decide_eq_true_1 _ (Hp p Hin))
    end.
  - intros c Hc.
    match goal with
    | Hh : forallb _ (RoleHierarchy r) = true |- _ =>
        rewrite forallb_forall in Hh;
        apply (bool_decide_eq_true_1 _ (Hh c (proj1 (list_elem_of_In _ _) Hc)))
    end.
Qed.

(** X19. Effective permissions are exactly the inherited ones. For every
    role the walk over the hierarchy ends within depth 10 (any larger bound
    gives the same sets), the permissions it returns have no duplicates, and
    a permission is among them exactly when the role itself or a role below
    it in the hierarchy (in any number of steps) lists it: nothing is lost
    on the way up and no permission comes from nowhere. *)
Theorem effective_permissions_are_inherited (r : UserRole) :
  (exists sets, forall extra : nat, walk (extra + 10) r ([], []) = Some sets)
  /\ NoDup (computeEffectivePermissions r)
  /\ forall p,
       p ∈ computeEffectivePermissions r
       <-> exists r', rtc child r r' /\ p ∈ RolePermissions r'.
Proof.
  destruct (table_facts r) as ([sets Hsets] & Hnd & Hiff & _).
  split; [exists sets; intros extra; apply walk_fuel_above, Hsets|].
  split; [assumption|].
  intros p. split.
  - intros Hp. apply Hiff, Exists_exists in Hp as (r' & Hr' & Hp).
    exists r'. split; [|assumption]. apply (descendants_reach 9), Hr'.
  - intros (r' & Hreach & Hp).
    assert (Hown : p ∈ computeEffectivePermissions r').
    { destruct (table_facts r') as (_ & _ & Hiff' & _). apply Hiff'.
      apply Exists_exists. exists r'. split; [|assumption].
      cbn. apply elem_of_cons. auto. }
    clear Hp Hiff Hsets Hnd. revert Hown.
    induction Hreach as [x|x y z Hxy _ IH]; intros Hown; [assumption|].
    destruct (table_facts x) as (_ & _ & _ & Hsub).
    apply (Hsub y Hxy), IH, Hown.
Qed.

End RolePermissionsFacts.

Section SeparationOfDuties.
Import Roles SoD.

(** A set of roles breaks a rule: it holds the rule's role and one the rule
    declares incompatible with it. *)
Definition breaks (roles : list UserRole) (rule : SoDRule) : Prop :=
  role rule ∈ roles /\ exists c, c ∈ incompatibleWith rule /\ c ∈ roles.

Lemma elem_of_added (x : UserRole) (l : list UserRole) (acc : list UserRole) :
  x ∈ fold_left (fun s r => add r s) l acc <-> x ∈ acc \/ x ∈ l.
Proof.
  revert acc. induction l as [|y l IH]; intros acc; cbn.
  - set_solver.
  - rewrite IH. unfold add. destruct (decide (y ∈ acc)); set_solver.
Qed.

Lemma violatesSoD_breaks (roles : list UserRole) :
  (violatesSoD roles).1 = true <-> Exists (breaks roles) SoDRules.
Proof.
  unfold violatesSoD. cbn [fst]. rewrite Nat.ltb_lt.
  match goal with
  | |- context [flat_map ?f SoDRules] => set (perRule := f)
  end.
  assert (Hrule : forall rule,
            (0 < length (perRule rule))%nat <-> breaks roles rule).
  { intros rule. subst perRule. cbn beta. unfold breaks.
    case_bool_decide as Hrole; [|cbn; split; [lia|tauto]].
    induction (incompatibleWith rule) as [|c cs IHc]; cbn [flat_map].
    - cbn. split; [lia|]. intros (_ & c & Hc & _). inversion Hc.
    - rewrite length_app. case_bool_decide as Hc; cbn [length].
      + split; [|lia]. intros _. split; [assumption|].
        exists c. split; [apply elem_of_cons; auto|assumption].
      + rewrite Nat.add_0_l, IHc. split.
        * intros (_ & c' & Hc' & Hin). split; [assumption|].
          exists c'. split; [apply elem_of_cons; auto|assumption].
        * intros (_ & c' & Hc' & Hin). split; [assumption|].
          exists c'. split; [|assumption].
          apply elem_of_cons in Hc' as [->|Hc']; [contradiction|assumption]. }
  clearbody perRule.
  induction SoDRules as [|rule rules IH]; cbn [flat_map].
  - cbn. split; [lia|]. intros H. inversion H.
  - rewrite length_app, Exists_cons, <- IH, <- Hrule. lia.
Qed.

(** X20. [validateRoleAssignment] allows an assignment exactly when the
    roles the user would then hold (the existing ones and the ones to add)
    break no separation-of-duties rule, that is, never contain a rule's role
    together with a role the rule declares incompatible. When it refuses, it
    reports at least one error. Roles the user already holds count: adding
    nothing to a conflicting set is refused too, and the order and repetition
    of roles do not matter. *)
Theorem validateRoleAssignment_allows_iff_no_conflict
    (existingRoles rolesToAdd : list UserRole) :
  ((validateRoleAssignment existingRoles rolesToAdd).1 = true
   <-> Forall (fun rule => ~ breaks (existingRoles ++ rolesToAdd) rule) SoDRules)
  /\ ((validateRoleAssignment existingRoles rolesToAdd).1 = false ->
      exists e errors,
        (validateRoleAssignment existingRoles rolesToAdd).2 = Some (e :: errors)).
Proof.
  unfold validateRoleAssignment.
  set (newRoles := fold_left (fun s r => add r s)
                     (existingRoles ++ rolesToAdd)%list []).
  assert (Hsame : forall rule,
            breaks newRoles rule <-> breaks (existingRoles ++ rolesToAdd) rule).
  { intros rule. unfold breaks, newRoles.
    rewrite elem_of_added. split.
    - intros ([H|H] & c & Hc & Hin); [inversion H|]. split; [assumption|].
      exists c. split; [assumption|].
      apply elem_of_added in Hin as [Hin|Hin]; [inversion Hin|assumption].
    - intros (H & c & Hc & Hin). split; [auto|].
      exists c. split; [assumption|]. apply elem_of_added. auto. }
  pose proof (violatesSoD_breaks newRoles) as Hv.
  destruct (violatesSoD newRoles) as [violates details] eqn:Hsod. cbn [fst snd] in *.
  destruct violates; cbn [fst snd].
  - split.
    + split; [discriminate|]. intros Hall. exfalso.
      destruct Hv as [Hv _]. specialize (Hv eq_refl).
      apply Exists_exists in Hv as (rule & Hin & Hb).
      rewrite Forall_forall in Hall. apply (Hall rule Hin), Hsame, Hb.
    + intros _. unfold violatesSoD in Hsod.
      pose proof (f_equal fst Hsod) as Hlen.
      pose proof (f_equal snd Hsod) as Hd. cbn [fst snd] in Hlen, Hd.
      rewrite Hd in Hlen.
      destruct details as [|e errors]; [discriminate Hlen|eauto].
  - split; [|discriminate]. split; [|reflexivity]. intros _.
    apply Forall_forall. intros rule Hin Hb.
    assert (Hex : Exists (breaks newRoles) SoDRules).
    { apply Exists_exists. exists rule. split; [assumption|]. apply Hsame, Hb. }
    apply Hv in Hex. discriminate.
Qed.

End SeparationOfDuties.

(** ** The digest against the standard's test vectors *)

Section DigestVectors.

(** FIPS 180-4 test vectors: the empty message, "abc", and the 56-byte
    message that needs two blocks. *)
Lemma sha256hex_test_vectors :
  Sha256.sha256hex ""
    = "e3b0c44298fc1c149afbf4c8996fb92427ae41e4649b934ca495991b7852b855"
  /\ Sha256.sha256hex "abc"
     = "ba7816bf8f01cfea414140de5dae2223b00361a396177a9cb410ff61f20015ad"
  /\ Sha256.sha256hex
       "abcdbcdecdefdefgefghfghighijhijkijkljklmklmnlmnomnopnopq"
     = "248d6a61d20638b8e5c026930c3e6039a33ce45964ff2167f6ecedd419db06c1".
Proof. repeat split; vm_compute; reflexivity. Qed.

End DigestVectors.
